(** * CVS.ai chat client: conversation store, stream assembler, turn orchestrator

    A shallow embedding of the state logic of the [App] component
    (the conversation store kept in [useState], the handlers that update it and
    the asynchronous turn run by [submitMessage]) together with the properties
    the specification states about it.

    Conventions of the embedding.
    - A JavaScript string is the list of its UTF-16 code units; [===] on strings
      is equality of these lists, [slice(0,-1)] removes one code unit, and the
      cursor glyph U+258B is one code unit.
    - The store [Record<string, Conversation>] is an object whose own string
      keys are enumerated in insertion order: an association list.  (An
      object enumerates the keys that are array indices first; the ids of the
      component, [chat_<t>], are none.)  A lookup [o[k]] that may meet a
      member inherited from [Object.prototype] is written with [isInherited].
    - State is passed explicitly.  A call [setX(f)] replaces the field by [f]
      applied to its current value, in program order: the state of the
      embedding is the one the component renders once the queued updaters
      have run.  The updaters of the source mutate the message array of a
      conversation in place; in the embedding the conversation stored under
      the key receives the new array.
    - A handler is a closure of the render that created it.  What it reads
      from the variables of the component ([imageFile], [isLoading],
      [isTtsEnabled], [currentChatId], [conversations]) is read from that
      render, which is a parameter of [submitMessage]; what it writes goes to
      the state of the moment.  A ref is not captured: [isStoppedRef] is
      always read from the state of the moment.
    - What the component cannot decide (the remote service, the clock, the
      file reader, the moment the user presses Stop, what the other handlers
      do while a turn awaits the service) is an explicit input.
    - A turn is followed from its start to its end.  At every [await] the
      other handlers of the component may run; what they do to the state is
      the parameter [Meanwhile] of the turn.  [runTurn] is the turn started
      from the latest render during which nothing else runs.  Speech synthesis
      is recorded as a call that does not fail. *)

From Stdlib Require Import String Ascii DecimalString DecimalPos.
From Stdlib Require Import List NArith ZArith Bool Lia Permutation Sorted.
Import ListNotations.

Set Implicit Arguments.

(** ** JavaScript strings *)

Definition code_unit := N.
Definition jsstring := list code_unit.

(** An ASCII literal of the source as code units. *)
Definition lit (s : string) : jsstring :=
  map N_of_ascii (list_ascii_of_string s).

Fixpoint str_eqb (a b : jsstring) : bool :=
  match a, b with
  | [], [] => true
  | x :: a', y :: b' => N.eqb x y && str_eqb a' b'
  | _, _ => false
  end.

(** [s.startsWith(p)] *)
Fixpoint startsWith (s p : jsstring) : bool :=
  match p, s with
  | [], _ => true
  | c :: p', d :: s' => N.eqb c d && startsWith s' p'
  | _ :: _, [] => false
  end.

(** [s.endsWith(p)] *)
Definition endsWith (s p : jsstring) : bool :=
  startsWith (rev s) (rev p).

(** [a.slice(0, -n)] on a string or an array. *)
Definition slice_0_neg {A} (n : nat) (a : list A) : list A :=
  firstn (length a - n) a.

(** WhiteSpace and LineTerminator code units, as removed by [trim] and skipped
    by [parseInt]. *)
Definition isWhiteSpace (c : code_unit) : bool :=
  existsb (N.eqb c)
    [9; 10; 11; 12; 13; 32; 160; 5760; 8232; 8233; 8239; 8287; 12288; 65279]%N
  || (N.leb 8192 c && N.leb c 8202).

Fixpoint trimStart (s : jsstring) : jsstring :=
  match s with
  | c :: s' => if isWhiteSpace c then trimStart s' else s
  | [] => []
  end.

Definition trimEnd (s : jsstring) : jsstring := rev (trimStart (rev s)).

Definition trim (s : jsstring) : jsstring := trimEnd (trimStart s).

(** Truthiness of a string, and of a [string | null | undefined]. *)
Definition truthy (s : jsstring) : bool :=
  match s with [] => false | _ :: _ => true end.

Definition truthy_opt (s : option jsstring) : bool :=
  match s with Some s' => truthy s' | None => false end.

(** ** Objects used as maps: own string keys in insertion order *)

Section Obj.
Variable V : Type.

Definition obj := list (jsstring * V).

(** [o[k]] among the own keys of [o]; for the members that [o] inherits see
    [isInherited] below. *)
Fixpoint obj_get (k : jsstring) (o : obj) : option V :=
  match o with
  | [] => None
  | (k', v) :: o' => if str_eqb k k' then Some v else obj_get k o'
  end.

(** [o[k] = v]: an existing key keeps its place, a new key goes last. *)
Fixpoint obj_set (k : jsstring) (v : V) (o : obj) : obj :=
  match o with
  | [] => [(k, v)]
  | (k', v') :: o' =>
      if str_eqb k k' then (k, v) :: o' else (k', v') :: obj_set k v o'
  end.

(** [delete o[k]] *)
Definition obj_delete (k : jsstring) (o : obj) : obj :=
  filter (fun kv => negb (str_eqb k (fst kv))) o.

(** [Object.keys(o)] *)
Definition obj_keys (o : obj) : list jsstring := map fst o.

(** The object held under [k] is mutated by [f]; nothing happens when the
    key is absent. *)
Fixpoint obj_mutate (k : jsstring) (f : V -> V) (o : obj) : obj :=
  match o with
  | [] => []
  | (k', v) :: o' =>
      if str_eqb k k' then (k', f v) :: o' else (k', v) :: obj_mutate k f o'
  end.
End Obj.

Arguments obj_get {V} k o.
Arguments obj_set {V} k v o.
Arguments obj_delete {V} k o.
Arguments obj_keys {V} o.
Arguments obj_mutate {V} k f o.

(** The names that an object made by a literal or by [JSON.parse] inherits
    from [Object.prototype].  Under such a name [o[k]] is not [undefined]
    even when [k] is no own key: it is a function, or the prototype. *)
Definition inheritedNames : list jsstring :=
  [lit "constructor"; lit "hasOwnProperty"; lit "isPrototypeOf";
   lit "propertyIsEnumerable"; lit "toLocaleString"; lit "toString";
   lit "valueOf"; lit "__proto__"; lit "__defineGetter__";
   lit "__defineSetter__"; lit "__lookupGetter__"; lit "__lookupSetter__"].

Definition isInherited (k : jsstring) : bool :=
  existsb (str_eqb k) inheritedNames.

(** Whether [o[k]] is truthy, for an object whose own values are objects. *)
Definition obj_truthy {V} (k : jsstring) (o : obj V) : bool :=
  match obj_get k o with
  | Some _ => true
  | None => isInherited k
  end.

(** ** types.ts *)

Inductive MessageRole := USER | MODEL | ERROR.

Definition role_eqb (a b : MessageRole) : bool :=
  match a, b with
  | USER, USER | MODEL, MODEL | ERROR, ERROR => true
  | _, _ => false
  end.

Record Message := mkMessage {
  role : MessageRole;
  content : jsstring;
  imageUrl : option jsstring
}.

Record Conversation := mkConversation {
  id : jsstring;
  title : jsstring;
  messages : list Message
}.

Definition Store := obj Conversation.

Definition set_messages (f : list Message -> list Message) (c : Conversation)
  : Conversation :=
  mkConversation (id c) (title c) (f (messages c)).

Definition set_title (t : jsstring) (c : Conversation) : Conversation :=
  mkConversation (id c) t (messages c).

Definition set_content (s : jsstring) (m : Message) : Message :=
  mkMessage (role m) s (imageUrl m).

(** ** Constants of the component *)

Definition LOADING_INDICATOR_CONTENT : jsstring := lit "___LOADING___".

(** The cursor glyph U+258B, a string of one code unit. *)
Definition cursor : code_unit := 9611%N.
Definition CURSOR : jsstring := [cursor].

(** The text appended on cancellation: two line feeds, an em dash (U+2014),
    the words, an em dash. *)
Definition STOP_MARKER : jsstring :=
  [10; 10; 8212]%N ++ lit " Generation stopped by user " ++ [8212%N].

Definition NEW_CHAT : jsstring := lit "New Chat".

(** ** The message stream assembler *)

(** [messages[messages.length - 1]] *)
Definition lastOf {A} (l : list A) : option A := nth_error l (length l - 1).

(** The content on which the next chunk is appended: the placeholder counts
    as empty, and one trailing cursor is removed. *)
Definition stripDisplay (currentContent : jsstring) : jsstring :=
  if str_eqb currentContent LOADING_INDICATOR_CONTENT then []
  else if endsWith currentContent CURSOR then slice_0_neg 1 currentContent
  else currentContent.

Definition appendChunk (contentChunk : jsstring) (isDone : bool)
  (lastMessage : Message) : Message :=
  set_content
    (stripDisplay (content lastMessage) ++ contentChunk
       ++ (if isDone then [] else CURSOR))
    lastMessage.

(** The mutation of the array done by the updater of [updateLastMessage]. *)
Definition updateLast (contentChunk : jsstring) (isDone : bool)
  (msgs : list Message) : list Message :=
  match lastOf msgs with
  | Some lastMessage =>
      if role_eqb (role lastMessage) MODEL
      then slice_0_neg 1 msgs ++ [appendChunk contentChunk isDone lastMessage]
      else msgs
  | None => msgs
  end.

(** [updateLastMessage(contentChunk, isDone)] as the function it applies to
    the store; [currentChatId] is the value captured by the closure. *)
Definition updateLastMessage (currentChatId : option jsstring)
  (contentChunk : jsstring) (isDone : bool) (prev : Store) : Store :=
  match currentChatId with
  | Some chatId =>
      if truthy chatId
      then obj_mutate chatId (set_messages (updateLast contentChunk isDone)) prev
      else prev
  | None => prev
  end.

(** ** Conversation ids and their creation-time order *)

(** [s.split(sep)] for a separator of one code unit: never an empty array. *)
Fixpoint split (sep : code_unit) (s : jsstring) : list jsstring :=
  match s with
  | [] => [[]]
  | c :: s' =>
      if N.eqb c sep then [] :: split sep s'
      else match split sep s' with
           | seg :: segs => (c :: seg) :: segs
           | [] => [[c]]
           end
  end.

(** The value of a digit or letter as a numeral of [parseInt]. *)
Definition digitValue (c : code_unit) : option N :=
  if N.leb 48 c && N.leb c 57 then Some (c - 48)%N
  else if N.leb 97 c && N.leb c 122 then Some (c - 87)%N
  else if N.leb 65 c && N.leb c 90 then Some (c - 55)%N
  else None.

(** The longest prefix of numerals below the radix. *)
Fixpoint digitsPrefix (radix : N) (s : jsstring) : list N :=
  match s with
  | c :: s' =>
      match digitValue c with
      | Some d => if N.ltb d radix then d :: digitsPrefix radix s' else []
      | None => []
      end
  | [] => []
  end.

Definition digitsValue (radix : N) (ds : list N) : Z :=
  fold_left (fun acc d => acc * Z.of_N radix + Z.of_N d)%Z ds 0%Z.

(** An optional sign in front of the numerals. *)
Definition readSign (s : jsstring) : bool * jsstring :=
  match s with
  | c :: r => if N.eqb c 45 then (true, r)
              else if N.eqb c 43 then (false, r) else (false, s)
  | [] => (false, s)
  end.

(** The radix when none is given: 16 after a prefix [0x] or [0X], else 10. *)
Definition readRadix (s : jsstring) : N * jsstring :=
  match s with
  | c :: x :: r =>
      if N.eqb c 48 && (N.eqb x 120 || N.eqb x 88) then (16%N, r)
      else (10%N, s)
  | _ => (10%N, s)
  end.

(** [parseInt(s)] with no radix argument: leading white space, a sign, an
    optional [0x] prefix, then numerals; [None] is NaN.  [parseInt(undefined)]
    reads the text "undefined" and is NaN.  The value is the exact integer; the
    Number of the source is this integer whenever it is a safe integer. *)
Definition parseInt (arg : option jsstring) : option Z :=
  match arg with
  | None => None
  | Some s =>
      let '(negative, s2) := readSign (trimStart s) in
      let '(radix, s3) := readRadix s2 in
      match digitsPrefix radix s3 with
      | [] => None
      | ds => Some (if negative then - digitsValue radix ds
                    else digitsValue radix ds)%Z
      end
  end.

(** [parseInt(k.split('_')[1])], the creation time carried by an id. *)
Definition timestamp (k : jsstring) : option Z :=
  parseInt (nth_error (split 95%N k) 1).

(** The safe integers: the Numbers on which the arithmetic of the source is
    exact; every clock value is one. *)
Definition isSafeInteger (z : Z) : bool :=
  (Z.leb (- (2 ^ 53 - 1)) z && Z.leb z (2 ^ 53 - 1))%Z.

(** An id whose creation time reads back as a safe integer. *)
Definition hasCreationTime (k : jsstring) : bool :=
  match timestamp k with
  | Some t => isSafeInteger t
  | None => false
  end.

(** The comparator [(a, b) => parseInt(b.split('_')[1]) - parseInt(a.split('_')[1])]:
    newest first; [None] is NaN. *)
Definition newestFirst (a b : jsstring) : option Z :=
  match timestamp b, timestamp a with
  | Some tb, Some ta => Some (tb - ta)%Z
  | _, _ => None
  end.

Section Sort.
Variable A : Type.
Variable comparefn : A -> A -> option Z.

(** SortCompare: a NaN result counts as [+0]. *)
Definition sortCompare (x y : A) : Z :=
  match comparefn x y with
  | Some v => v
  | None => 0%Z
  end.

(** [x] stood before every element of [l]: it moves behind [y] only when
    the comparator puts it after [y]. *)
Fixpoint insertSorted (x : A) (l : list A) : list A :=
  match l with
  | [] => [x]
  | y :: l' =>
      if Z.ltb 0 (sortCompare x y) then y :: insertSorted x l' else x :: l
  end.

(** [a.sort(comparefn)]: the stable sort that ECMAScript prescribes. *)
Definition sort (a : list A) : list A := fold_right insertSorted [] a.
End Sort.

(** [`chat_${t}`] for a clock value [t] in milliseconds. *)
Definition chatId (t : Z) : jsstring :=
  lit "chat_" ++ lit (NilZero.string_of_int (Z.to_int t)).

(** ** Session state of the component *)

Record File := mkFile {
  type : jsstring;
  size : N
}.

Inductive Theme := light | dark | system.

Record AppState := mkAppState {
  conversations : Store;
  currentChatId : option jsstring;
  userInput : jsstring;
  isLoading : bool;
  theme : Theme;
  isTtsEnabled : bool;
  imageFile : option File;
  imagePreview : option jsstring;
  isStoppedRef : bool
}.

Definition setConversations (f : Store -> Store) (st : AppState) : AppState :=
  mkAppState (f (conversations st)) (currentChatId st) (userInput st)
    (isLoading st) (theme st) (isTtsEnabled st) (imageFile st)
    (imagePreview st) (isStoppedRef st).

Definition setCurrentChatId (v : option jsstring) (st : AppState) : AppState :=
  mkAppState (conversations st) v (userInput st) (isLoading st) (theme st)
    (isTtsEnabled st) (imageFile st) (imagePreview st) (isStoppedRef st).

Definition setUserInput (v : jsstring) (st : AppState) : AppState :=
  mkAppState (conversations st) (currentChatId st) v (isLoading st) (theme st)
    (isTtsEnabled st) (imageFile st) (imagePreview st) (isStoppedRef st).

Definition setIsLoading (v : bool) (st : AppState) : AppState :=
  mkAppState (conversations st) (currentChatId st) (userInput st) v (theme st)
    (isTtsEnabled st) (imageFile st) (imagePreview st) (isStoppedRef st).

Definition setImageFile (v : option File) (st : AppState) : AppState :=
  mkAppState (conversations st) (currentChatId st) (userInput st)
    (isLoading st) (theme st) (isTtsEnabled st) v (imagePreview st)
    (isStoppedRef st).

Definition setImagePreview (v : option jsstring) (st : AppState) : AppState :=
  mkAppState (conversations st) (currentChatId st) (userInput st)
    (isLoading st) (theme st) (isTtsEnabled st) (imageFile st) v
    (isStoppedRef st).

Definition setIsStopped (v : bool) (st : AppState) : AppState :=
  mkAppState (conversations st) (currentChatId st) (userInput st)
    (isLoading st) (theme st) (isTtsEnabled st) (imageFile st)
    (imagePreview st) v.

(** ** Conversation store handlers *)

Definition push {A} (x : A) (a : list A) : list A := a ++ [x].

(** [a.pop()], the value dropped. *)
Definition pop {A} (a : list A) : list A := removelast a.

Definition addMessageToCurrentChat (message : Message) (st : AppState)
  : AppState :=
  match currentChatId st with
  | Some chat =>
      if truthy chat
      then setConversations (obj_mutate chat (set_messages (push message))) st
      else st
  | None => st
  end.

Definition newConversation (newId : jsstring) : Conversation :=
  mkConversation newId NEW_CHAT [].

Definition startNewChat (now : Z) (st : AppState) : AppState :=
  let newId := chatId now in
  setCurrentChatId (Some newId)
    (setConversations (obj_set newId (newConversation newId)) st).

(** [switchChat(id)], called with the id of a conversation listed in the
    sidebar. *)
Definition switchChat (chat : jsstring) (st : AppState) : AppState :=
  match obj_get chat (conversations st) with
  | Some _ => setCurrentChatId (Some chat) st
  | None => st
  end.

(** [currentChatId === id] *)
Definition isCurrent (st : AppState) (k : jsstring) : bool :=
  match currentChatId st with
  | Some c => str_eqb c k
  | None => false
  end.

(** [deleteChat(id)]; [now] is the clock read when a conversation has to be
    made. *)
Definition deleteChat (now : Z) (k : jsstring) (st : AppState) : AppState :=
  let newConversations := obj_delete k (conversations st) in
  if isCurrent st k then
    let remainingIds := sort newestFirst (obj_keys newConversations) in
    match remainingIds with
    | first :: _ =>
        setCurrentChatId (Some first)
          (setConversations (fun _ => newConversations) st)
    | [] =>
        let newId := chatId now in
        setCurrentChatId (Some newId)
          (setConversations
             (fun _ => obj_set newId (newConversation newId) newConversations)
             st)
    end
  else setConversations (fun _ => newConversations) st.

Definition handleStop (st : AppState) : AppState := setIsStopped true st.

Definition handleRemoveImage (st : AppState) : AppState :=
  setImagePreview None (setImageFile None st).

(** ** Attachment staging *)

(** What the [FileReader] does with an accepted file. *)
Inductive ReadOutcome :=
| ReadLoaded (dataUrl : jsstring)
| ReadFailed.

Definition INVALID_TYPE : jsstring :=
  lit "Invalid file type. Please select a valid image file (e.g., JPEG, PNG, WEBP).".

Definition MAX_SIZE_MB : N := 10.

Definition TOO_LARGE : jsstring :=
  lit "File is too large. Please select an image under "
    ++ lit (NilZero.string_of_uint (N.to_uint MAX_SIZE_MB)) ++ lit "MB.".

Definition UNREADABLE : jsstring :=
  lit "Could not read the selected image. It might be corrupted. Please try another one.".

Definition errorMessage (text : jsstring) : Message := mkMessage ERROR text None.

(** [handleFileChange] on the first file of the input, if there is one. *)
Definition handleFileChange (reader : ReadOutcome) (file : option File)
  (st : AppState) : AppState :=
  match file with
  | None => st
  | Some f =>
      if negb (startsWith (type f) (lit "image/"))
      then addMessageToCurrentChat (errorMessage INVALID_TYPE) st
      else if N.ltb (MAX_SIZE_MB * 1024 * 1024) (size f)
      then addMessageToCurrentChat (errorMessage TOO_LARGE) st
      else
        let st1 := setImageFile (Some f) st in
        match reader with
        | ReadLoaded dataUrl => setImagePreview (Some dataUrl) st1
        | ReadFailed =>
            setImagePreview None
              (setImageFile None
                 (addMessageToCurrentChat (errorMessage UNREADABLE) st1))
        end
  end.

(** ** The remote service and the effects of a turn *)

(** An awaited promise: fulfilled with a value, or rejected with an error
    that carries a message. *)
Inductive Awaited (A : Type) :=
| Resolved (a : A)
| Rejected (message : jsstring).

Arguments Resolved {A} a.
Arguments Rejected {A} message.

Record Content := mkContent {
  contentRole : MessageRole;
  partsText : jsstring
}.

Record InlineData := mkInlineData {
  mimeType : jsstring;
  data : jsstring
}.

Record Part := mkPart {
  text : option jsstring;
  inlineData : option InlineData
}.

(** The parts of each candidate, and the [text] accessor of the response. *)
Record GenerateContentResponse := mkResponse {
  candidates : option (list (list Part));
  responseText : option jsstring
}.

(** What arrives while the turn awaits the stream: a chunk, or the user
    pressing the Stop control. *)
Inductive StreamEvent :=
| Chunk (textChunk : jsstring)
| StopPressed.

(** A stream: what arrives, then the end of the stream ([None]) or a failure
    of the pending read. *)
Record Stream := mkStream {
  arrivals : list StreamEvent;
  failure : option jsstring
}.

(** The remote service, the file reader behind [fileToBase64] included.  A
    rejection stands for any exception raised by the call or by reading its
    response. *)
Record Remote := mkRemote {
  generateImages : jsstring -> Awaited jsstring;
  fileToBase64 : File -> Awaited jsstring;
  generateContent : InlineData -> option jsstring -> Awaited GenerateContentResponse;
  sendMessageStream : list Content -> jsstring -> Awaited Stream;
  generateTitle : jsstring -> Awaited jsstring
}.

(** The surroundings of a turn. *)
Record Env := mkEnv {
  API_KEY : option jsstring;
  remote : Remote
}.

(** What the other handlers of the component do to the state while a turn
    is suspended: during the call to the service, during the reading of the
    attached file, before the read number [n] of the stream settles, and
    while the stream is closed after the loop was left by [break].  Any
    handler may run there, and several: a speech or file-reading error that
    adds a message, a deletion, a new chat, a second [submitMessage].  Only
    what they do to the state is kept; the calls they make themselves are
    not calls of the turn. *)
Record Meanwhile := mkMeanwhile {
  whileCalling : AppState -> AppState;
  whileReadingFile : AppState -> AppState;
  whileStreaming : nat -> AppState -> AppState;
  whileClosing : AppState -> AppState
}.

(** Nothing else runs. *)
Definition idle : Meanwhile :=
  mkMeanwhile (fun st => st) (fun st => st) (fun _ st => st) (fun st => st).

(** Calls that leave the component during a turn. *)
Inductive Event :=
| CallGenerateImages (prompt : jsstring)
| CallGenerateContent (image : InlineData) (textPart : option jsstring)
| CallSendMessageStream (history : list Content) (message : jsstring)
| CallGenerateTitle (prompt : jsstring)
| Speak (utterance : jsstring).

Record World := mkWorld {
  appState : AppState;
  trace : list Event
}.

Inductive Completion (A : Type) :=
| Normal (a : A)
| Throw (message : jsstring).

Arguments Normal {A} a.
Arguments Throw {A} message.

(** Computations of a turn: state, trace of calls, exceptions. *)
Definition M (A : Type) := World -> Completion A * World.

Definition ret {A} (a : A) : M A := fun w => (Normal a, w).

Definition bind {A B} (c : M A) (k : A -> M B) : M B :=
  fun w =>
    match c w with
    | (Normal a, w') => k a w'
    | (Throw e, w') => (Throw e, w')
    end.

Notation "x <- c ;; k" := (bind c (fun x => k))
  (at level 61, c at next level, right associativity).
Notation "c ;;; k" := (bind c (fun _ => k))
  (at level 61, right associativity).

Definition throw {A} (message : jsstring) : M A := fun w => (Throw message, w).

Definition getApp : M AppState := fun w => (Normal (appState w), w).

Definition update (f : AppState -> AppState) : M unit :=
  fun w => (Normal tt, mkWorld (f (appState w)) (trace w)).

Definition emit (e : Event) : M unit :=
  fun w => (Normal tt, mkWorld (appState w) (trace w ++ [e])).

(** The value of a settled promise, or its rejection thrown. *)
Definition settle {A} (r : Awaited A) : M A :=
  match r with
  | Resolved a => ret a
  | Rejected message => throw message
  end.

(** A call to the service is recorded, then awaited. *)
Definition await {A} (e : Event) (r : Awaited A) : M A :=
  emit e ;;; settle r.

(** The same among the other handlers: the call is recorded, the turn is
    suspended and [others] run, then the promise settles. *)
Definition awaitAmong {A} (others : AppState -> AppState) (e : Event)
  (r : Awaited A) : M A :=
  emit e ;;; update others ;;; settle r.

(** [try { body } catch (err) { handler }] *)
Definition tryCatch {A} (body : M A) (handler : jsstring -> M A) : M A :=
  fun w =>
    match body w with
    | (Normal a, w') => (Normal a, w')
    | (Throw e, w') => handler e w'
    end.

(** [try { body } finally { finalizer }] *)
Definition tryFinally {A} (body : M A) (finalizer : M unit) : M A :=
  fun w =>
    match body w with
    | (c, w') =>
        match finalizer w' with
        | (Normal _, w'') => (c, w'')
        | (Throw e, w'') => (Throw e, w'')
        end
    end.

(** ** The turn orchestrator *)

Definition placeholder : Message :=
  mkMessage MODEL LOADING_INDICATOR_CONTENT None.

Definition GENERATE_PREFIX : jsstring := lit "/generate ".

(** The [replace] of [getChatTitle]: every double quote (34) and apostrophe
    (39) is removed. *)
Definition removeQuotes (s : jsstring) : jsstring :=
  filter (fun c => negb (N.eqb c 34 || N.eqb c 39)) s.

Definition titlePrompt (firstMessage : jsstring) : jsstring :=
  lit "Generate a very short, 3-4 word topic for the following user question. Just return the topic, nothing else."
    ++ [10; 10]%N ++ lit "Question: " ++ [34%N] ++ firstMessage ++ [34%N].

(** The filter of the text history: no error messages, no image messages. *)
Definition inTextHistory (m : Message) : bool :=
  negb (role_eqb (role m) ERROR) && negb (truthy_opt (imageUrl m)).

Definition toContent (m : Message) : Content :=
  mkContent (role m) (content m).

(** The history sent with a streamed message, from the array read. *)
Definition chatHistory (msgs : list Message) : list Content :=
  map toContent (slice_0_neg 2 (filter inTextHistory msgs)).

(** The text and the image of the first candidate of a response. *)
Fixpoint readParts (parts : list Part) (responseText : jsstring)
  (responseImageUrl : option jsstring) : jsstring * option jsstring :=
  match parts with
  | [] => (responseText, responseImageUrl)
  | part :: rest =>
      if truthy_opt (text part) then
        readParts rest
          (responseText ++ match text part with Some t => t | None => [] end)
          responseImageUrl
      else
        match inlineData part with
        | Some d =>
            readParts rest responseText
              (Some (lit "data:" ++ mimeType d ++ lit ";base64," ++ data d))
        | None => readParts rest responseText responseImageUrl
        end
  end.

Definition understandingMessage (response : GenerateContentResponse) : Message :=
  let '(responseText, responseImageUrl) :=
    match candidates response with
    | Some (first :: _) => readParts first [] None
    | _ =>
        (if truthy_opt (responseText response)
         then match responseText response with Some t => t | None => [] end
         else lit "An unexpected error occurred.", None)
    end in
  mkMessage MODEL
    (if truthy responseText then responseText
     else if truthy_opt responseImageUrl then []
     else lit "Image processed successfully.")
    responseImageUrl.

Definition friendlyMessage (localImageFile : option File)
  (messageContent err : jsstring) : jsstring :=
  match localImageFile with
  | Some _ =>
      lit "Sorry, I couldn't process that image. It might be in an unsupported format or exceed size limits. Please try another image. (Details: "
        ++ err ++ lit ")"
  | None =>
      if startsWith (trim messageContent) GENERATE_PREFIX
      then lit "Sorry, the image could not be generated. Please adjust your prompt or try again later. (Details: "
             ++ err ++ lit ")"
      else lit "An error occurred: " ++ err
  end.

(** Replace the last message: [pop] then [push]. *)
Definition replaceLast (chat : jsstring) (m : Message) : Store -> Store :=
  obj_mutate chat (set_messages (fun msgs => push m (pop msgs))).

Section Turn.
Variable env : Env.
Variable others : Meanwhile.

Definition getChatTitle (firstMessage : jsstring) : M jsstring :=
  if negb (truthy_opt (API_KEY env)) then ret NEW_CHAT
  else
    tryCatch
      (response <- await (CallGenerateTitle (titlePrompt firstMessage))
                     (generateTitle (remote env) (titlePrompt firstMessage)) ;;
       let topic := trim (removeQuotes response) in
       ret (if truthy topic then topic else NEW_CHAT))
      (fun _ => ret NEW_CHAT).

(** [speak] ignores an empty text. *)
Definition autoSpeak (ttsEnabled : bool) (utterance : jsstring) : M unit :=
  if ttsEnabled && truthy utterance then emit (Speak utterance) else ret tt.

(** The [for await] loop over the stream: the flag is polled before a chunk
    is applied; the end of the arrivals is the end of the stream or the
    failure of the pending read.  [reads] counts the reads that have settled;
    the other handlers run while the next one is pending, and once more while
    the stream is closed after a [break]. *)
Fixpoint consume (chat : jsstring) (stream : list StreamEvent)
  (ending : option jsstring) (fullResponse : jsstring) (reads : nat)
  : M jsstring :=
  match stream with
  | [] =>
      update (whileStreaming others reads) ;;;
      match ending with
      | Some message => throw message
      | None => ret fullResponse
      end
  | StopPressed :: rest =>
      update handleStop ;;; consume chat rest ending fullResponse reads
  | Chunk textChunk :: rest =>
      update (whileStreaming others reads) ;;;
      st <- getApp ;;
      if isStoppedRef st
      then update (whileClosing others) ;;; ret fullResponse
      else
        update (setConversations
                  (updateLastMessage (Some chat) textChunk false)) ;;;
        consume chat rest ending (fullResponse ++ textChunk) (S reads)
  end.

(** The body of the [try] block of [submitMessage]; [historySource] is the
    array read by the text path. *)
Definition tryBlock (localChatId messageContent : jsstring)
  (localImageFile : option File) (ttsEnabled : bool)
  (historySource : list Message) : M unit :=
  if negb (truthy_opt (API_KEY env))
  then throw (lit "API_KEY environment variable not set.")
  else if startsWith (trim messageContent) GENERATE_PREFIX then
    let prompt := trim (skipn (length GENERATE_PREFIX) messageContent) in
    if negb (truthy prompt)
    then throw (lit "Please provide a prompt for image generation.")
    else
      base64ImageBytes <- awaitAmong (whileCalling others)
                            (CallGenerateImages prompt)
                            (generateImages (remote env) prompt) ;;
      update (setConversations
                (replaceLast localChatId
                   (mkMessage MODEL (lit "> " ++ prompt)
                      (Some (lit "data:image/jpeg;base64," ++ base64ImageBytes)))))
  else
    match localImageFile with
    | Some file =>
        update (whileReadingFile others) ;;;
        base64Data <- settle (fileToBase64 (remote env) file) ;;
        let imagePart := mkInlineData (type file) base64Data in
        let textPart :=
          if truthy messageContent then Some messageContent else None in
        response <- awaitAmong (whileCalling others)
                      (CallGenerateContent imagePart textPart)
                      (generateContent (remote env) imagePart textPart) ;;
        let modelMessage := understandingMessage response in
        update (setConversations (replaceLast localChatId modelMessage)) ;;;
        autoSpeak ttsEnabled (content modelMessage)
    | None =>
        let history := chatHistory historySource in
        stream <- awaitAmong (whileCalling others)
                    (CallSendMessageStream history messageContent)
                    (sendMessageStream (remote env) history messageContent) ;;
        fullResponse <- consume localChatId (arrivals stream)
                          (failure stream) [] 0 ;;
        st <- getApp ;;
        if isStoppedRef st
        then update (setConversations
                       (updateLastMessage (Some localChatId) STOP_MARKER true))
        else
          update (setConversations
                    (updateLastMessage (Some localChatId) [] true)) ;;;
          autoSpeak ttsEnabled fullResponse
    end.

Definition catchBlock (localChatId messageContent : jsstring)
  (localImageFile : option File) (err : jsstring) : M unit :=
  update (setConversations
            (replaceLast localChatId
               (errorMessage
                  (friendlyMessage localImageFile messageContent err)))).

(** The first lines of the turn: the draft and the staging slot are cleared. *)
Definition clearDraft (st : AppState) : AppState :=
  setImagePreview None (setImageFile None (setUserInput [] st)).

(** The user message and the placeholder are pushed, the flag is reset,
    the turn is marked as running. *)
Definition openTurn (localChatId : jsstring) (userMessage : Message)
  (st : AppState) : AppState :=
  setIsLoading true
    (setConversations
       (obj_mutate localChatId
          (set_messages (fun msgs => push placeholder (push userMessage msgs))))
       (setIsStopped false st)).

(** The test that guards the title request. *)
Definition wantsTitle (prior : list Message) (messageContent : jsstring)
  : bool :=
  Nat.eqb (length prior) 0 && truthy messageContent
  && negb (startsWith (trim messageContent) (lit "/generate")).

(** The turn once the guard is passed; [conv] is [conversations[localChatId]]
    as the closure sees it.  The title request is not awaited; its
    continuation only replaces the title of the conversation and is run here
    once the [try] statement is over.

    The updater that pushes the user message and the placeholder is queued:
    it runs when the component is next rendered, and nothing yields between
    the call that queues it and the line that builds the history.  The array
    read there is the one the closure holds, [messages conv], on which the
    two messages are not yet pushed.  (An updater queued on a component with
    no render pending may be run at once.  With [handleSendMessage] and with
    the recognition handler the draft is the text sent, so that clearing it
    has a render pending; with [handleSuggestionClick] the conversation is
    empty and the history is empty either way.) *)
Definition turn (localChatId : jsstring) (conv : Conversation)
  (localImageFile : option File) (localImagePreview : option jsstring)
  (ttsEnabled : bool) (messageContent : jsstring) : M unit :=
  let userMessage := mkMessage USER messageContent localImagePreview in
  update (openTurn localChatId userMessage) ;;;
  newTitle <-
    (if wantsTitle (messages conv) messageContent
     then t <- getChatTitle messageContent ;; ret (Some t)
     else ret None) ;;
  let historySource := messages conv in
  tryFinally
    (tryCatch
       (tryBlock localChatId messageContent localImageFile ttsEnabled
          historySource)
       (catchBlock localChatId messageContent localImageFile))
    (update (setIsLoading false)) ;;;
  match newTitle with
  | Some t => update (setConversations (obj_mutate localChatId (set_title t)))
  | None => ret tt
  end.

(** The guard of [submitMessage]: something to send, no turn running, a
    current conversation. *)
Definition accepted (messageContent : jsstring) (st : AppState) : bool :=
  negb ((negb (truthy (trim messageContent))
           && match imageFile st with Some _ => false | None => true end)
        || isLoading st || negb (truthy_opt (currentChatId st))).

(** [submitMessage(messageContent)] as the closure of the render [render]
    runs it.  The guard, the ids and the staged image are the constants of
    that render; the message arrays are shared between the renders, so
    [conversations render] holds each conversation with its messages as they
    are when the handler is called.  When the id names no conversation the
    read of [messages.length] throws outside the [try] statement: there is
    no object to read [messages] from, or, under an inherited name, no
    array to read [length] from. *)
Definition submitMessage (render : AppState) (messageContent : jsstring)
  : M unit :=
  if negb (accepted messageContent render) then ret tt
  else
    match currentChatId render with
    | None => ret tt
    | Some localChatId =>
        update clearDraft ;;;
        match obj_get localChatId (conversations render) with
        | None =>
            throw (if isInherited localChatId
                   then lit "Cannot read properties of undefined (reading 'length')"
                   else lit "Cannot read properties of undefined (reading 'messages')")
        | Some conv =>
            turn localChatId conv (imageFile render) (imagePreview render)
              (isTtsEnabled render) messageContent
        end
    end.
End Turn.

(** The state and the calls of a turn started in state [st] by a handler of
    the latest render ([handleSendMessage], [handleSuggestionClick]), when no
    other handler runs before it ends. *)
Definition runTurn (env : Env) (messageContent : jsstring) (st : AppState)
  : Completion unit * World :=
  submitMessage env idle st messageContent (mkWorld st []).

(** The same turn started by the handler of an earlier render [render], as
    the recognition handler does, and among the other handlers. *)
Definition runTurnFrom (env : Env) (others : Meanwhile) (render : AppState)
  (messageContent : jsstring) (st : AppState) : Completion unit * World :=
  submitMessage env others render messageContent (mkWorld st []).

(** ** Persistence to browser storage *)

Local Unset Elimination Schemes.

(** The values that [JSON.stringify] writes for the store. *)
Inductive json :=
| JString (s : jsstring)
| JArray (items : list json)
| JObject (props : list (jsstring * json)).

Local Set Elimination Schemes.

Definition roleString (r : MessageRole) : jsstring :=
  match r with
  | USER => lit "user"
  | MODEL => lit "model"
  | ERROR => lit "error"
  end.

(** A property whose value is [undefined] is not written. *)
Definition messageJSON (m : Message) : json :=
  JObject ([(lit "role", JString (roleString (role m)));
            (lit "content", JString (content m))]
           ++ match imageUrl m with
              | Some url => [(lit "imageUrl", JString url)]
              | None => []
              end).

Definition conversationJSON (c : Conversation) : json :=
  JObject [(lit "id", JString (id c));
           (lit "title", JString (title c));
           (lit "messages", JArray (map messageJSON (messages c)))].

(** [JSON.parse(JSON.stringify(conversations))]: a copy that shares nothing
    with the store. *)
Definition storeJSON (s : Store) : json :=
  JObject (map (fun kv => (fst kv, conversationJSON (snd kv))) s).

(** [delete o[k]] on a parsed value. *)
Definition deleteProp (k : jsstring) (j : json) : json :=
  match j with
  | JObject props => JObject (obj_delete k props)
  | _ => j
  end.

(** The body of the [for ... in] loop: when the conversation has messages,
    [imageUrl] is deleted from each. *)
Definition dropImages (conv : json) : json :=
  match conv with
  | JObject props =>
      match obj_get (lit "messages") props with
      | Some (JArray msgs) =>
          JObject (obj_mutate (lit "messages")
                     (fun _ => JArray (map (deleteProp (lit "imageUrl")) msgs))
                     props)
      | _ => conv
      end
  | _ => conv
  end.

Definition conversationsToSave (s : Store) : json :=
  match storeJSON s with
  | JObject props => JObject (map (fun kv => (fst kv, dropImages (snd kv))) props)
  | other => other
  end.

(** A stored item: a text, or the text [JSON.stringify] makes of a value,
    kept as that value. *)
Inductive Stored :=
| StoredText (s : jsstring)
| StoredJSON (j : json).

Definition LocalStorage := obj Stored.

Definition themeString (t : Theme) : jsstring :=
  match t with
  | light => lit "light"
  | dark => lit "dark"
  | system => lit "system"
  end.

Definition boolString (b : bool) : jsstring :=
  if b then lit "true" else lit "false".

(** The writes of the saving effect, in order. *)
Definition itemsToSave (st : AppState) : list (jsstring * Stored) :=
  (lit "aiChatConversations", StoredJSON (conversationsToSave (conversations st)))
  :: (if truthy_opt (currentChatId st)
      then [(lit "aiChatCurrentId",
             StoredText match currentChatId st with Some c => c | None => [] end)]
      else [])
  ++ [(lit "aiChatTheme", StoredText (themeString (theme st)));
      (lit "aiChatTtsEnabled", StoredText (boolString (isTtsEnabled st)))].

Section Saving.
(** Whether the storage takes an item; when it does not, [setItem] throws. *)
Variable accepts : jsstring -> Stored -> bool.

(** [setItem] after [setItem] until one throws; the [catch] only logs. *)
Fixpoint setItems (items : list (jsstring * Stored)) (ls : LocalStorage)
  : LocalStorage :=
  match items with
  | [] => ls
  | (k, v) :: rest =>
      if accepts k v then setItems rest (obj_set k v ls) else ls
  end.

(** The effect that runs whenever the saved fields change: the component
    state is read, the storage is written. *)
Definition saveState (w : AppState * LocalStorage) : AppState * LocalStorage :=
  (fst w, setItems (itemsToSave (fst w)) (snd w)).
End Saving.

(** The store with the image reference of every message removed. *)
Definition withoutImage (m : Message) : Message :=
  mkMessage (role m) (content m) None.

Definition withoutImages (s : Store) : Store :=
  map (fun kv => (fst kv, set_messages (map withoutImage) (snd kv))) s.

(** ** Notions used in the statements *)

(** The chunks of a stream applied in arrival order, then the finalizing
    call with its own text. *)
Definition applyChunks (chat : jsstring) (chunks : list jsstring) (s : Store)
  : Store :=
  fold_left (fun acc c => updateLastMessage (Some chat) c false acc) chunks s.

Definition assemble (chat : jsstring) (chunks : list jsstring)
  (final : jsstring) (s : Store) : Store :=
  updateLastMessage (Some chat) final true (applyChunks chat chunks s).

(** Three conversations made at different times, the second one active. *)
Definition exampleStore : Store :=
  [(lit "chat_1700000000000",
    mkConversation (lit "chat_1700000000000") (lit "Trip")
      [mkMessage USER (lit "hello") None; mkMessage MODEL (lit "Hi") None]);
   (lit "chat_1700000005000",
    mkConversation (lit "chat_1700000005000") NEW_CHAT []);
   (lit "chat_1700000003000",
    mkConversation (lit "chat_1700000003000") (lit "Poem")
      [mkMessage USER (lit "a poem") (Some (lit "data:image/png;base64,AAAA"))])].

Definition exampleState : AppState :=
  mkAppState exampleStore (Some (lit "chat_1700000005000")) [] false system
    false None None false.

(** A file that [handleFileChange] turns down: not an image type, or more
    than 10 MB. *)
Definition rejectedFile (f : File) : bool :=
  negb (startsWith (type f) (lit "image/"))
  || N.ltb (10 * 1024 * 1024) (size f).

Definition examplePng : File := mkFile (lit "image/png") 2048.
Definition examplePdf : File := mkFile (lit "application/pdf") 2048.
Definition exampleHuge : File := mkFile (lit "image/jpeg") 10485761.

(** The example state with a picture staged. *)
Definition exampleStaged : AppState :=
  setImagePreview (Some (lit "data:image/png;base64,AAAA"))
    (setImageFile (Some examplePng) exampleState).

(** The texts that the stream loop applies: the chunks that arrive before
    Stop is first pressed; [stopped] is the flag when the loop is entered. *)
Fixpoint appliedTexts (stream : list StreamEvent) (stopped : bool)
  : list jsstring :=
  match stream with
  | [] => []
  | StopPressed :: rest => appliedTexts rest true
  | Chunk textChunk :: rest =>
      if stopped then [] else textChunk :: appliedTexts rest stopped
  end.

(** Whether the loop reads the stream to its end: it does unless a chunk
    arrives after Stop was pressed. *)
Fixpoint readsToEnd (stream : list StreamEvent) (stopped : bool) : bool :=
  match stream with
  | [] => true
  | StopPressed :: rest => readsToEnd rest true
  | Chunk _ :: rest => if stopped then false else readsToEnd rest stopped
  end.

Definition isStop (e : StreamEvent) : bool :=
  match e with
  | StopPressed => true
  | Chunk _ => false
  end.

(** The three ways of a turn. *)
Inductive Path := ImageGeneration | ImageUnderstanding | TextStreaming.

(** The way chosen for a text and a staging slot. *)
Definition dispatch (messageContent : jsstring) (file : option File) : Path :=
  if startsWith (trim messageContent) GENERATE_PREFIX then ImageGeneration
  else match file with
       | Some _ => ImageUnderstanding
       | None => TextStreaming
       end.

(** The way a call to the remote service belongs to. *)
Definition pathOf (e : Event) : option Path :=
  match e with
  | CallGenerateImages _ => Some ImageGeneration
  | CallGenerateContent _ _ => Some ImageUnderstanding
  | CallSendMessageStream _ _ => Some TextStreaming
  | CallGenerateTitle _ | Speak _ => None
  end.

Definition isPathCall (e : Event) : bool :=
  match pathOf e with
  | Some _ => true
  | None => false
  end.

(** The text part sent along with an attached image. *)
Definition textPartOf (messageContent : jsstring) : option jsstring :=
  if truthy messageContent then Some messageContent else None.

(** The remote call of the turn throws [e]: the call of the chosen way is
    rejected, or the stream fails at a read the loop makes.  [historySource] is
    the array the text way reads. *)
Inductive remoteCallThrows (env : Env) (messageContent : jsstring)
  (file : option File) (historySource : list Message) : jsstring -> Prop :=
| throws_generateImages e :
    truthy_opt (API_KEY env) = true ->
    dispatch messageContent file = ImageGeneration ->
    truthy (trim (skipn 10 messageContent)) = true ->
    generateImages (remote env) (trim (skipn 10 messageContent)) = Rejected e ->
    remoteCallThrows env messageContent file historySource e
| throws_fileToBase64 f e :
    truthy_opt (API_KEY env) = true ->
    dispatch messageContent file = ImageUnderstanding ->
    file = Some f ->
    fileToBase64 (remote env) f = Rejected e ->
    remoteCallThrows env messageContent file historySource e
| throws_generateContent f d e :
    truthy_opt (API_KEY env) = true ->
    dispatch messageContent file = ImageUnderstanding ->
    file = Some f ->
    fileToBase64 (remote env) f = Resolved d ->
    generateContent (remote env) (mkInlineData (type f) d)
      (textPartOf messageContent) = Rejected e ->
    remoteCallThrows env messageContent file historySource e
| throws_sendMessageStream e :
    truthy_opt (API_KEY env) = true ->
    dispatch messageContent file = TextStreaming ->
    sendMessageStream (remote env) (chatHistory historySource) messageContent
    = Rejected e ->
    remoteCallThrows env messageContent file historySource e
| throws_stream s e :
    truthy_opt (API_KEY env) = true ->
    dispatch messageContent file = TextStreaming ->
    sendMessageStream (remote env) (chatHistory historySource) messageContent
    = Resolved s ->
    readsToEnd (arrivals s) false = true ->
    failure s = Some e ->
    remoteCallThrows env messageContent file historySource e.

(** All the chunk texts of a stream. *)
Fixpoint chunkTexts (stream : list StreamEvent) : list jsstring :=
  match stream with
  | [] => []
  | Chunk textChunk :: rest => textChunk :: chunkTexts rest
  | StopPressed :: rest => chunkTexts rest
  end.

(** The service never answers with the very text of the placeholder: neither
    as the text of an image-understanding response nor as the whole text of a
    stream. *)
Definition neverSentinel (r : Remote) : Prop :=
  (forall image textPart response,
     generateContent r image textPart = Resolved response ->
     content (understandingMessage response) <> LOADING_INDICATOR_CONTENT)
  /\ (forall history message s,
        sendMessageStream r history message = Resolved s ->
        concat (chunkTexts (arrivals s)) <> LOADING_INDICATOR_CONTENT).

(** The message that a turn leaves in the place of the placeholder, read off
    the answers of the service: an error message when something is thrown,
    else the answer of the chosen way. *)
Definition outcomeMessage (env : Env) (messageContent : jsstring)
  (file : option File) (historySource : list Message) : Message :=
  let failed err := errorMessage (friendlyMessage file messageContent err) in
  if negb (truthy_opt (API_KEY env))
  then failed (lit "API_KEY environment variable not set.")
  else if startsWith (trim messageContent) GENERATE_PREFIX then
    let prompt := trim (skipn 10 messageContent) in
    if negb (truthy prompt)
    then failed (lit "Please provide a prompt for image generation.")
    else match generateImages (remote env) prompt with
         | Rejected e => failed e
         | Resolved bytes =>
             mkMessage MODEL (lit "> " ++ prompt)
               (Some (lit "data:image/jpeg;base64," ++ bytes))
         end
  else
    match file with
    | Some f =>
        match fileToBase64 (remote env) f with
        | Rejected e => failed e
        | Resolved d =>
            match generateContent (remote env) (mkInlineData (type f) d)
                    (textPartOf messageContent) with
            | Rejected e => failed e
            | Resolved response => understandingMessage response
            end
        end
    | None =>
        match sendMessageStream (remote env) (chatHistory historySource)
                messageContent with
        | Rejected e => failed e
        | Resolved s =>
            let streamed :=
              mkMessage MODEL
                (concat (appliedTexts (arrivals s) false)
                   ++ (if existsb isStop (arrivals s) then STOP_MARKER else []))
                None in
            if readsToEnd (arrivals s) false
            then match failure s with
                 | Some e => failed e
                 | None => streamed
                 end
            else streamed
        end
    end.

(** A service that streams [s] for every message, refuses the image calls
    and answers every title request with the same topic; an environment with
    credentials around it. *)
Definition streamingRemote (s : Stream) : Remote :=
  mkRemote (fun _ => Rejected (lit "quota exceeded"))
    (fun _ => Rejected (lit "unreadable"))
    (fun _ _ => Rejected (lit "quota exceeded"))
    (fun _ _ => Resolved s)
    (fun _ => Resolved (lit "Greeting")).

Definition streamingEnv (s : Stream) : Env :=
  mkEnv (Some (lit "key")) (streamingRemote s).

(** A service whose every call is rejected. *)
Definition failingRemote : Remote :=
  mkRemote (fun _ => Rejected (lit "quota exceeded"))
    (fun _ => Rejected (lit "unreadable"))
    (fun _ _ => Rejected (lit "quota exceeded"))
    (fun _ _ => Rejected (lit "network down"))
    (fun _ => Rejected (lit "network down")).

Definition failingEnv : Env := mkEnv (Some (lit "key")) failingRemote.

(** The last message of a conversation of the store. *)
Definition lastMessage (chat : jsstring) (s : Store) : option Message :=
  match obj_get chat s with
  | Some c => lastOf (messages c)
  | None => None
  end.

(** The call that the [try] statement of a turn makes to the service, if it
    gets that far. *)
Definition expectedCall (env : Env) (messageContent : jsstring)
  (file : option File) (historySource : list Message) : list Event :=
  if negb (truthy_opt (API_KEY env)) then []
  else if startsWith (trim messageContent) GENERATE_PREFIX then
    if negb (truthy (trim (skipn 10 messageContent))) then []
    else [CallGenerateImages (trim (skipn 10 messageContent))]
  else
    match file with
    | Some f =>
        match fileToBase64 (remote env) f with
        | Resolved d =>
            [CallGenerateContent (mkInlineData (type f) d)
               (textPartOf messageContent)]
        | Rejected _ => []
        end
    | None => [CallSendMessageStream (chatHistory historySource) messageContent]
    end.

(** A call belongs to the way that the text and the staging slot select. *)
Definition fitsDispatch (messageContent : jsstring) (file : option File)
  (e : Event) : Prop :=
  match pathOf e with
  | Some p => p = dispatch messageContent file
  | None => True
  end.

(** The conversation on which [submitMessage] runs a turn, when it runs
    one: the guard is passed and the current id names a conversation. *)
Definition turnRuns (messageContent : jsstring) (st : AppState)
  : option (jsstring * Conversation) :=
  if accepted messageContent st then
    match currentChatId st with
    | Some chat =>
        match obj_get chat (conversations st) with
        | Some conv => Some (chat, conv)
        | None => None
        end
    | None => None
    end
  else None.

(** The environment with another title service. *)
Definition withTitleService (env : Env) (g : jsstring -> Awaited jsstring)
  : Env :=
  mkEnv (API_KEY env)
    (mkRemote (generateImages (remote env)) (fileToBase64 (remote env))
       (generateContent (remote env)) (sendMessageStream (remote env)) g).

(** The digits of a decimal numeral, most significant first. *)
Fixpoint uintDigits (d : Decimal.uint) : list N :=
  match d with
  | Decimal.Nil => []
  | Decimal.D0 d' => 0%N :: uintDigits d'
  | Decimal.D1 d' => 1%N :: uintDigits d'
  | Decimal.D2 d' => 2%N :: uintDigits d'
  | Decimal.D3 d' => 3%N :: uintDigits d'
  | Decimal.D4 d' => 4%N :: uintDigits d'
  | Decimal.D5 d' => 5%N :: uintDigits d'
  | Decimal.D6 d' => 6%N :: uintDigits d'
  | Decimal.D7 d' => 7%N :: uintDigits d'
  | Decimal.D8 d' => 8%N :: uintDigits d'
  | Decimal.D9 d' => 9%N :: uintDigits d'
  end.

(** The code unit of a digit. *)
Definition digitUnit (v : N) : code_unit := (48 + v)%N.

(** ** The rest of the component *)

(** The conversations as the sidebar lists them:
    [Object.values(conversations).sort(...)], newest first. *)
Definition sortedConversations (s : Store) : list Conversation :=
  sort (fun a b => newestFirst (id a) (id b)) (map snd s).

(** The current id names a conversation of the store. *)
Definition hasCurrent (st : AppState) : bool :=
  match currentChatId st with
  | Some k =>
      match obj_get k (conversations st) with
      | Some _ => true
      | None => false
      end
  | None => false
  end.

Definition setTheme (v : Theme) (st : AppState) : AppState :=
  mkAppState (conversations st) (currentChatId st) (userInput st)
    (isLoading st) v (isTtsEnabled st) (imageFile st) (imagePreview st)
    (isStoppedRef st).

Definition setIsTtsEnabled (v : bool) (st : AppState) : AppState :=
  mkAppState (conversations st) (currentChatId st) (userInput st)
    (isLoading st) (theme st) v (imageFile st) (imagePreview st)
    (isStoppedRef st).

Definition theme_eqb (a b : Theme) : bool :=
  match a, b with
  | light, light | dark, dark | system, system => true
  | _, _ => false
  end.

Definition themeSequence : list Theme := [light; dark; system].

(** [a.indexOf(x)], [-1] when [x] is not in [a]. *)
Fixpoint indexOf (x : Theme) (a : list Theme) : Z :=
  match a with
  | [] => (-1)%Z
  | y :: a' =>
      if theme_eqb x y then 0%Z
      else match indexOf x a' with
           | Zneg _ => (-1)%Z
           | i => (i + 1)%Z
           end
  end.

Definition toggleTheme (st : AppState) : AppState :=
  let currentIndex := indexOf (theme st) themeSequence in
  let nextIndex := Z.rem (currentIndex + 1) (Z.of_nat (length themeSequence)) in
  match nth_error themeSequence (Z.to_nat nextIndex) with
  | Some t => setTheme t st
  | None => st
  end.

Definition toggleTts (st : AppState) : AppState :=
  setIsTtsEnabled (negb (isTtsEnabled st)) st.

(** The text shown for an error of speech recognition. *)
Definition speechErrorMessage (error : jsstring) : jsstring :=
  if str_eqb error (lit "not-allowed")
     || str_eqb error (lit "service-not-allowed")
  then lit "Microphone permission denied. Please allow microphone access in your browser settings."
  else if str_eqb error (lit "no-speech")
  then lit "No speech was detected. Please try again."
  else lit "An unknown speech recognition error occurred.".

(** [recognition.onerror] *)
Definition onSpeechError (error : jsstring) (st : AppState) : AppState :=
  addMessageToCurrentChat (errorMessage (speechErrorMessage error)) st.

(** *** Export *)

Definition isAsciiLower (c : code_unit) : bool := N.leb 97 c && N.leb c 122.
Definition isAsciiUpper (c : code_unit) : bool := N.leb 65 c && N.leb c 90.
Definition isAsciiDigit (c : code_unit) : bool := N.leb 48 c && N.leb c 57.

(** [toUpperCase] and [toLowerCase] on a code unit; used on ASCII text only. *)
Definition toUpperUnit (c : code_unit) : code_unit :=
  if isAsciiLower c then (c - 32)%N else c.

Definition toLowerUnit (c : code_unit) : code_unit :=
  if isAsciiUpper c then (c + 32)%N else c.

(** [role.charAt(0).toUpperCase() + role.slice(1)] *)
Definition roleLabel (r : MessageRole) : jsstring :=
  match roleString r with
  | c :: rest => toUpperUnit c :: rest
  | [] => []
  end.

Definition IMAGE_REFERENCE : jsstring :=
  lit "![Image](image_data_in_export)" ++ [10; 10]%N.

(** What [handleExportChat] adds to the document for one message. *)
Definition exportMessage (msg : Message) : jsstring :=
  if role_eqb (role msg) ERROR then []
  else
    lit "**" ++ roleLabel (role msg) ++ lit ":**" ++ [10; 10]%N
    ++ (if truthy_opt (imageUrl msg)
        then (if truthy (content msg) && startsWith (content msg) (lit ">")
              then content msg ++ [10; 10]%N else [])
             ++ IMAGE_REFERENCE
        else [])
    ++ (if truthy (content msg) && negb (startsWith (content msg) (lit ">"))
        then content msg ++ [10; 10]%N else [])
    ++ [10%N] ++ lit "---" ++ [10; 10]%N.

Definition exportContent (conversation : Conversation) : jsstring :=
  lit "# " ++ title conversation ++ [10; 10]%N
  ++ concat (map exportMessage (messages conversation)).

(** [title.replace(/[^a-z0-9]/gi, '_').toLowerCase()] followed by [.md]: the
    case-insensitive class holds the ASCII letters and digits only. *)
Definition exportFileName (t : jsstring) : jsstring :=
  map toLowerUnit
    (map (fun c => if isAsciiLower c || isAsciiUpper c || isAsciiDigit c
                   then c else 95%N) t)
  ++ lit ".md".

Record Download := mkDownload {
  fileName : jsstring;
  fileContent : jsstring
}.

(** [handleExportChat]: the file offered for download, if any. *)
Definition handleExportChat (st : AppState) : option Download :=
  match currentChatId st with
  | Some k =>
      if truthy k then
        match obj_get k (conversations st) with
        | Some conversation =>
            Some (mkDownload (exportFileName (title conversation))
                    (exportContent conversation))
        | None => None
        end
      else None
  | None => None
  end.

(** *** Loading the saved state *)

Definition initialState : AppState :=
  mkAppState [] None [] false system false None None false.

Definition roleOfString (s : jsstring) : option MessageRole :=
  if str_eqb s (lit "user") then Some USER
  else if str_eqb s (lit "model") then Some MODEL
  else if str_eqb s (lit "error") then Some ERROR
  else None.

(** The typed view of a parsed document: a message, a conversation, a
    conversation map as [JSON.stringify] writes them; [None] when the
    document is not such a value, in which case the component would hold a
    value outside the types of types.ts. *)
Definition messageOfJSON (j : json) : option Message :=
  match j with
  | JObject [(k1, JString r); (k2, JString c)] =>
      if str_eqb k1 (lit "role") && str_eqb k2 (lit "content")
      then option_map (fun r' => mkMessage r' c None) (roleOfString r)
      else None
  | JObject [(k1, JString r); (k2, JString c); (k3, JString u)] =>
      if str_eqb k1 (lit "role") && str_eqb k2 (lit "content")
         && str_eqb k3 (lit "imageUrl")
      then option_map (fun r' => mkMessage r' c (Some u)) (roleOfString r)
      else None
  | _ => None
  end.

Fixpoint allOf {A B} (f : A -> option B) (l : list A) : option (list B) :=
  match l with
  | [] => Some []
  | x :: l' =>
      match f x, allOf f l' with
      | Some y, Some ys => Some (y :: ys)
      | _, _ => None
      end
  end.

Definition conversationOfJSON (j : json) : option Conversation :=
  match j with
  | JObject [(k1, JString i); (k2, JString t); (k3, JArray ms)] =>
      if str_eqb k1 (lit "id") && str_eqb k2 (lit "title")
         && str_eqb k3 (lit "messages")
      then option_map (mkConversation i t) (allOf messageOfJSON ms)
      else None
  | _ => None
  end.

Definition storeOfJSON (j : json) : option Store :=
  match j with
  | JObject props =>
      allOf (fun kv => option_map (pair (fst kv)) (conversationOfJSON (snd kv)))
        props
  | _ => None
  end.

Definition themeOfString (s : jsstring) : option Theme :=
  if str_eqb s (lit "light") then Some light
  else if str_eqb s (lit "dark") then Some dark
  else if str_eqb s (lit "system") then Some system
  else None.

Section Loading.
(** [JSON.parse] on a text that was not written by [JSON.stringify] here
    ([None]: it throws), and [JSON.stringify] as a text. *)
Variable JSON_parse : jsstring -> option json.
Variable JSON_stringify : json -> jsstring.

(** [localStorage.getItem(k)] *)
Definition getItem (k : jsstring) (ls : LocalStorage) : option jsstring :=
  match obj_get k ls with
  | Some (StoredText s) => Some s
  | Some (StoredJSON j) => Some (JSON_stringify j)
  | None => None
  end.

(** [saved ? JSON.parse(saved) : {}]; the outer [None] is the exception of
    [JSON.parse].  The text of a value is never empty and parses back to the
    value. *)
Definition parseSaved (saved : option Stored) : option json :=
  match saved with
  | Some (StoredJSON j) => Some j
  | Some (StoredText s) => if truthy s then JSON_parse s else Some (JObject [])
  | None => Some (JObject [])
  end.

(** The effect that runs once when the component is mounted.  The result is
    [None] when the saved document is not a conversation map.  The saved id
    is looked up with [loadedConversations[savedChatId]], which also finds
    the members that the object inherits. *)
Definition loadState (now : Z) (ls : LocalStorage) (st : AppState)
  : option AppState :=
  let savedChatId := getItem (lit "aiChatCurrentId") ls in
  let savedTheme := getItem (lit "aiChatTheme") ls in
  let savedTts := getItem (lit "aiChatTtsEnabled") ls in
  match parseSaved (obj_get (lit "aiChatConversations") ls) with
  | None => Some (startNewChat now st)
  | Some document =>
      match storeOfJSON document with
      | None => None
      | Some loadedConversations =>
          let st1 := setConversations (fun _ => loadedConversations) st in
          let st2 :=
            if truthy_opt savedChatId
               && match savedChatId with
                  | Some c => obj_truthy c loadedConversations
                  | None => false
                  end
            then setCurrentChatId savedChatId st1
            else if Nat.ltb 0 (length (obj_keys loadedConversations))
            then setCurrentChatId
                   (nth_error (sort newestFirst (obj_keys loadedConversations)) 0)
                   st1
            else startNewChat now st1 in
          let st3 :=
            match savedTheme with
            | Some t =>
                match themeOfString t with
                | Some th => setTheme th st2
                | None => st2
                end
            | None => st2
            end in
          Some (setIsTtsEnabled
                  match savedTts with
                  | Some t => str_eqb t (lit "true")
                  | None => false
                  end st3)
      end
  end.
End Loading.

(** *** The handlers as one transition function *)

Inductive Action :=
| NewChat (now : Z)
| SwitchChat (chat : jsstring)
| DeleteChat (now : Z) (chat : jsstring)
| Submit (env : Env) (messageContent : jsstring)
| FileChange (reader : ReadOutcome) (file : option File)
| RemoveImage
| SpeechError (error : jsstring)
| ToggleTheme
| ToggleTts.

Definition perform (a : Action) (st : AppState) : AppState :=
  match a with
  | NewChat now => startNewChat now st
  | SwitchChat chat => switchChat chat st
  | DeleteChat now chat => deleteChat now chat st
  | Submit env messageContent => appState (snd (runTurn env messageContent st))
  | FileChange reader file => handleFileChange reader file st
  | RemoveImage => handleRemoveImage st
  | SpeechError error => onSpeechError error st
  | ToggleTheme => toggleTheme st
  | ToggleTts => toggleTts st
  end.

Definition performAll (actions : list Action) (st : AppState) : AppState :=
  fold_left (fun s a => perform a s) actions st.

(** A state reached from [st] by a turn on [chat]: nothing but the
    conversation under [chat], the running flag and the stop flag may
    differ. *)
Definition touchesOnly (chat : jsstring) (st st' : AppState) : Prop :=
  currentChatId st' = currentChatId st
  /\ userInput st' = userInput st
  /\ theme st' = theme st
  /\ isTtsEnabled st' = isTtsEnabled st
  /\ imageFile st' = imageFile st
  /\ imagePreview st' = imagePreview st
  /\ obj_keys (conversations st') = obj_keys (conversations st)
  /\ forall k, k <> chat ->
       obj_get k (conversations st') = obj_get k (conversations st).

(** A code unit that [trim] keeps. *)
Definition isInk (c : code_unit) : bool := negb (isWhiteSpace c).

(** The comparators of the component: newest first by a creation time. *)
Definition byStamp {A} (stamp : A -> option Z) (a b : A) : option Z :=
  match stamp b, stamp a with
  | Some tb, Some ta => Some (tb - ta)%Z
  | _, _ => None
  end.

(** [b] is not newer than [a]. *)
Definition noNewer {A} (stamp : A -> option Z) (a b : A) : Prop :=
  forall ta tb, stamp a = Some ta -> stamp b = Some tb -> (tb <= ta)%Z.

(** A storage that holds the example store and nothing else. *)
Definition exampleStorage : LocalStorage :=
  [(lit "aiChatConversations", StoredJSON (storeJSON exampleStore))].

(** A service that makes the image asked for and answers an attached image
    with a text; an environment with credentials around it. *)
Definition imagingRemote : Remote :=
  mkRemote (fun _ => Resolved (lit "AAAA"))
    (fun _ => Resolved (lit "BBBB"))
    (fun _ _ => Resolved (mkResponse None (Some (lit "A cat."))))
    (fun _ _ => Rejected (lit "network down"))
    (fun _ => Resolved (lit "Cats")).

Definition imagingEnv : Env := mkEnv (Some (lit "key")) imagingRemote.

(** A message as the export sees it: an error message is skipped, and of an
    image reference only its presence matters. *)
Definition redacted (m : Message) : Message :=
  mkMessage (role m) (content m)
    (if truthy_opt (imageUrl m) then Some (lit "image") else None).

Definition exportable (msgs : list Message) : list Message :=
  map redacted (filter (fun m => negb (role_eqb (role m) ERROR)) msgs).

(** A code unit of a file name made by the export. *)
Definition isFileNameUnit (c : code_unit) : bool :=
  isAsciiLower c || isAsciiDigit c || N.eqb c 95.

(** What is asked of the other handlers for a turn on [chat] to run
    undisturbed: whatever they do, they leave the conversation under [chat]
    and the stop flag as they found them.  A press on Stop during the stream
    is an arrival of the stream, not one of them. *)
Definition leaves (chat : jsstring) (handler : AppState -> AppState) : Prop :=
  forall st,
    obj_get chat (conversations (handler st)) = obj_get chat (conversations st)
    /\ isStoppedRef (handler st) = isStoppedRef st.

Definition undisturbed (chat : jsstring) (others : Meanwhile) : Prop :=
  leaves chat (whileCalling others)
  /\ leaves chat (whileReadingFile others)
  /\ (forall n, leaves chat (whileStreaming others n))
  /\ leaves chat (whileClosing others).

(** Handlers that run during a turn of the example state and leave its
    conversation alone: the theme is toggled while the service is called,
    a new chat is opened while the stream is read, and the speech preference
    is toggled while the stream is closed. *)
Definition exampleOthers : Meanwhile :=
  mkMeanwhile toggleTheme (fun st => st)
    (fun _ => startNewChat 1700000009000) toggleTts.

(** A speech recognition error that is reported while the service is
    called, and one that is reported before the second read of the stream. *)
Definition speechErrorWhileCalling : Meanwhile :=
  mkMeanwhile (onSpeechError (lit "no-speech")) (fun st => st)
    (fun _ st => st) (fun st => st).

Definition speechErrorWhileStreaming : Meanwhile :=
  mkMeanwhile (fun st => st) (fun st => st)
    (fun n st => if Nat.eqb n 1 then onSpeechError (lit "no-speech") st else st)
    (fun st => st).

(** The example state once a message has been dictated with the picture
    staged: the draft holds the transcript. *)
Definition exampleDictated : AppState :=
  setUserInput (lit "describe this") exampleStaged.

(** * Properties *)

(** ** Strings and objects *)

Lemma str_eqb_eq (a b : jsstring) : str_eqb a b = true <-> a = b.
Proof.
  revert b; induction a as [|x a IH]; intros [|y b]; simpl;
    try (split; congruence).
  rewrite andb_true_iff, N.eqb_eq, IH. split.
  - intros [-> ->]; reflexivity.
  - intros H; injection H; auto.
Qed.

Lemma str_eqb_refl (a : jsstring) : str_eqb a a = true.
Proof. apply str_eqb_eq; reflexivity. Qed.

Lemma str_eqb_neq (a b : jsstring) : str_eqb a b = false <-> a <> b.
Proof.
  rewrite <- str_eqb_eq. destruct (str_eqb a b); split; congruence.
Qed.

Lemma lastOf_snoc {A} (l : list A) (x : A) : lastOf (l ++ [x]) = Some x.
Proof.
  unfold lastOf. rewrite length_app; simpl.
  replace (length l + 1 - 1) with (length l) by lia.
  rewrite nth_error_app2 by lia. rewrite Nat.sub_diag. reflexivity.
Qed.

Lemma slice_0_neg_app {A} (l t : list A) :
  slice_0_neg (length t) (l ++ t) = l.
Proof.
  unfold slice_0_neg. rewrite length_app.
  replace (length l + length t - length t) with (length l) by lia.
  rewrite firstn_app, Nat.sub_diag, firstn_all. simpl. apply app_nil_r.
Qed.

Lemma slice_0_neg_snoc {A} (l : list A) (x : A) : slice_0_neg 1 (l ++ [x]) = l.
Proof. apply (slice_0_neg_app l [x]). Qed.

Lemma endsWith_cursor (s : jsstring) : endsWith (s ++ CURSOR) CURSOR = true.
Proof.
  unfold endsWith, CURSOR. rewrite rev_app_distr. simpl.
  destruct (rev s); reflexivity.
Qed.

Lemma snoc_cursor_not_loading (s : jsstring) :
  str_eqb (s ++ CURSOR) LOADING_INDICATOR_CONTENT = false.
Proof.
  apply str_eqb_neq. intros H.
  apply (f_equal (@rev code_unit)) in H. rewrite rev_app_distr in H.
  vm_compute in H. discriminate H.
Qed.

Lemma obj_get_mutate_same {V} (k : jsstring) (f : V -> V) (o : obj V) :
  obj_get k (obj_mutate k f o) = option_map f (obj_get k o).
Proof.
  induction o as [|[k' v] o IH]; simpl; [reflexivity|].
  destruct (str_eqb k k') eqn:E; simpl; rewrite E; [reflexivity|exact IH].
Qed.

Lemma obj_get_mutate_other {V} (k k' : jsstring) (f : V -> V) (o : obj V) :
  k <> k' -> obj_get k' (obj_mutate k f o) = obj_get k' o.
Proof.
  intros Hne. induction o as [|[k0 v] o IH]; simpl; [reflexivity|].
  destruct (str_eqb k k0) eqn:E; simpl.
  - apply str_eqb_eq in E; subst k0.
    destruct (str_eqb k' k) eqn:E'; [|reflexivity].
    apply str_eqb_eq in E'; congruence.
  - destruct (str_eqb k' k0); [reflexivity|exact IH].
Qed.

Lemma obj_keys_mutate {V} (k : jsstring) (f : V -> V) (o : obj V) :
  obj_keys (obj_mutate k f o) = obj_keys o.
Proof.
  induction o as [|[k' v] o IH]; simpl; [reflexivity|].
  destruct (str_eqb k k'); simpl; [reflexivity|].
  f_equal. exact IH.
Qed.

(** ** The stream assembler *)

Lemma stripDisplay_loading : stripDisplay LOADING_INDICATOR_CONTENT = [].
Proof. reflexivity. Qed.

Lemma stripDisplay_cursor (s : jsstring) : stripDisplay (s ++ CURSOR) = s.
Proof.
  unfold stripDisplay.
  rewrite snoc_cursor_not_loading, endsWith_cursor. apply slice_0_neg_snoc.
Qed.

Lemma updateLast_model (c : jsstring) (isDone : bool) (prior : list Message)
  (m : Message) :
  role m = MODEL ->
  updateLast c isDone (prior ++ [m]) = prior ++ [appendChunk c isDone m].
Proof.
  intros Hr. unfold updateLast.
  rewrite lastOf_snoc, Hr, slice_0_neg_snoc. reflexivity.
Qed.

Lemma appendChunk_cursor (c : jsstring) (isDone : bool) (sofar : jsstring)
  (m : Message) :
  appendChunk c isDone (set_content (sofar ++ CURSOR) m)
  = set_content (sofar ++ c ++ (if isDone then [] else CURSOR)) m.
Proof.
  unfold appendChunk, set_content; cbn [content role imageUrl].
  rewrite stripDisplay_cursor. reflexivity.
Qed.

Lemma appendChunk_loading (c : jsstring) (isDone : bool) (m : Message) :
  content m = LOADING_INDICATOR_CONTENT ->
  appendChunk c isDone m = set_content (c ++ (if isDone then [] else CURSOR)) m.
Proof.
  intros Hc. unfold appendChunk. rewrite Hc, stripDisplay_loading. reflexivity.
Qed.

(** While a stream is applied the last message shows the text so far and one
    cursor. *)
Lemma updateLast_chunks (chunks : list jsstring) (prior : list Message)
  (m : Message) (sofar : jsstring) :
  role m = MODEL ->
  fold_left (fun l c => updateLast c false l) chunks
    (prior ++ [set_content (sofar ++ CURSOR) m])
  = prior ++ [set_content (sofar ++ concat chunks ++ CURSOR) m].
Proof.
  intros Hr. revert sofar.
  induction chunks as [|c chunks IH]; intros sofar; simpl; [reflexivity|].
  rewrite updateLast_model by exact Hr.
  rewrite appendChunk_cursor, (app_assoc sofar c CURSOR), IH, <- !app_assoc.
  reflexivity.
Qed.

(** Chunks then a finalizing text, on the array that ends with the
    placeholder. *)
Lemma updateLast_stream (chunks : list jsstring) (final : jsstring)
  (prior : list Message) (m : Message) :
  role m = MODEL ->
  content m = LOADING_INDICATOR_CONTENT ->
  updateLast final true
    (fold_left (fun l c => updateLast c false l) chunks (prior ++ [m]))
  = prior ++ [set_content (concat chunks ++ final) m].
Proof.
  intros Hr Hc. destruct chunks as [|c chunks]; simpl.
  - rewrite updateLast_model, appendChunk_loading, app_nil_r by assumption.
    reflexivity.
  - rewrite updateLast_model, appendChunk_loading by assumption.
    rewrite (updateLast_chunks chunks prior m c Hr).
    rewrite updateLast_model by exact Hr.
    rewrite app_assoc, appendChunk_cursor, app_nil_r, <- app_assoc.
    reflexivity.
Qed.

Lemma applyChunks_get (chat : jsstring) (chunks : list jsstring) (s : Store) :
  truthy chat = true ->
  obj_get chat (applyChunks chat chunks s)
  = option_map
      (set_messages (fun l => fold_left (fun l c => updateLast c false l) chunks l))
      (obj_get chat s).
Proof.
  intros Ht. unfold applyChunks. revert s.
  induction chunks as [|c chunks IH]; intros s; simpl.
  - destruct (obj_get chat s) as [[i t l]|]; reflexivity.
  - rewrite IH. unfold updateLastMessage. rewrite Ht, obj_get_mutate_same.
    destruct (obj_get chat s) as [[i t l]|]; reflexivity.
Qed.

(** C1. Starting from the loading placeholder as last message of the
    conversation, applying any sequence of chunks with [isDone = false] and
    then finalizing with [isDone = true] leaves as content of that message
    exactly the concatenation of the chunks followed by the finalizing text
    (empty on normal completion): no cursor of the display survives and no
    cursor carried by a chunk is lost, wherever the chunk boundaries fall; the
    messages before it keep their order. *)
Theorem assemble_concat (chat : jsstring) (chunks : list jsstring)
  (final : jsstring) (s : Store) (conv : Conversation) (prior : list Message)
  (m : Message) :
  truthy chat = true ->
  obj_get chat s = Some conv ->
  messages conv = prior ++ [m] ->
  role m = MODEL ->
  content m = LOADING_INDICATOR_CONTENT ->
  exists conv',
    obj_get chat (assemble chat chunks final s) = Some conv'
    /\ messages conv' = prior ++ [set_content (concat chunks ++ final) m]
    /\ title conv' = title conv.
Proof.
  intros Ht Hg Hm Hr Hc. unfold assemble, updateLastMessage.
  rewrite Ht, obj_get_mutate_same, applyChunks_get by exact Ht.
  rewrite Hg. simpl. eexists; split; [reflexivity|]. simpl.
  rewrite Hm. split; [|reflexivity].
  apply updateLast_stream; assumption.
Qed.

Lemma assemble_concat_witness :
  exists conv',
    obj_get (lit "chat_1700000000000")
      (assemble (lit "chat_1700000000000")
         [lit "Hi"; lit "there" ++ CURSOR; CURSOR ++ lit "!"] []
         [(lit "chat_1700000000000",
           mkConversation (lit "chat_1700000000000") NEW_CHAT
             ([mkMessage USER (lit "hello") None] ++ [placeholder]))])
    = Some conv'
    /\ messages conv'
       = [mkMessage USER (lit "hello") None]
         ++ [set_content
               (concat [lit "Hi"; lit "there" ++ CURSOR; CURSOR ++ lit "!"] ++ [])
               placeholder]
    /\ title conv' = NEW_CHAT.
Proof.
  apply (@assemble_concat (lit "chat_1700000000000")
           [lit "Hi"; lit "there" ++ CURSOR; CURSOR ++ lit "!"] []
           _ (mkConversation (lit "chat_1700000000000") NEW_CHAT
                ([mkMessage USER (lit "hello") None] ++ [placeholder]))
           [mkMessage USER (lit "hello") None] placeholder);
    reflexivity.
Defined.

(** The transient contents of the example of the specification. *)
Example assemble_hi_there :
  map content
    (fold_left (fun l c => updateLast c false l) [lit "Hi"]
       [mkMessage USER (lit "hello") None; placeholder])
  = [lit "hello"; lit "Hi" ++ CURSOR]
  /\ map content
       (fold_left (fun l c => updateLast c false l) [lit "Hi"; lit "there"]
          [mkMessage USER (lit "hello") None; placeholder])
     = [lit "hello"; lit "Hithere" ++ CURSOR]
  /\ map content
       (updateLast [] true
          (fold_left (fun l c => updateLast c false l) [lit "Hi"; lit "there"]
             [mkMessage USER (lit "hello") None; placeholder]))
     = [lit "hello"; lit "Hithere"].
Proof. repeat split; reflexivity. Qed.

(** ** Deleting a conversation *)

Lemma obj_get_delete_same {V} (k : jsstring) (o : obj V) :
  obj_get k (obj_delete k o) = None.
Proof.
  induction o as [|[k' v] o IH]; simpl; [reflexivity|].
  destruct (str_eqb k k') eqn:E; simpl; [exact IH|].
  rewrite E. exact IH.
Qed.

Lemma obj_get_delete_other {V} (k k' : jsstring) (o : obj V) :
  k' <> k -> obj_get k' (obj_delete k o) = obj_get k' o.
Proof.
  intros Hne. induction o as [|[k0 v] o IH]; simpl; [reflexivity|].
  destruct (str_eqb k k0) eqn:E; simpl.
  - apply str_eqb_eq in E; subst k0.
    destruct (str_eqb k' k) eqn:E'; [|exact IH].
    apply str_eqb_eq in E'; congruence.
  - destruct (str_eqb k' k0); [reflexivity|exact IH].
Qed.

Lemma isCurrent_true (st : AppState) (k : jsstring) :
  isCurrent st k = true <-> currentChatId st = Some k.
Proof.
  unfold isCurrent. destruct (currentChatId st) as [c|].
  - rewrite str_eqb_eq. split; congruence.
  - split; discriminate.
Qed.

(** *** Ids made by the component read back their clock value *)

Lemma lit_string_of_uint (d : Decimal.uint) :
  lit (NilEmpty.string_of_uint d) = map digitUnit (uintDigits d).
Proof.
  unfold lit. induction d; cbn [NilEmpty.string_of_uint uintDigits map
                                 list_ascii_of_string];
    try rewrite IHd; reflexivity.
Qed.

Lemma uintDigits_small (d : Decimal.uint) :
  Forall (fun v => In v [0; 1; 2; 3; 4; 5; 6; 7; 8; 9]%N) (uintDigits d).
Proof.
  induction d; cbn [uintDigits]; constructor; try exact IHd; cbn; tauto.
Qed.

Lemma uintDigits_nonempty (d : Decimal.uint) :
  d <> Decimal.Nil -> uintDigits d <> [].
Proof. destruct d; cbn; congruence. Qed.

Lemma digitsValue_acc (d : Decimal.uint) (acc : positive) :
  fold_left (fun a v => a * Z.of_N 10 + Z.of_N v)%Z (uintDigits d) (Zpos acc)
  = Zpos (Pos.of_uint_acc d acc).
Proof.
  revert acc. induction d; intros acc; cbn [uintDigits fold_left Pos.of_uint_acc];
    [reflexivity|..];
    rewrite <- IHd; f_equal; lia.
Qed.

Lemma digitsValue_of_uint (d : Decimal.uint) :
  digitsValue 10 (uintDigits d) = Z.of_N (Pos.of_uint d).
Proof.
  unfold digitsValue.
  induction d; cbn [uintDigits fold_left Pos.of_uint]; try exact IHd;
    try reflexivity;
    cbn [Z.mul Z.add Z.of_N]; rewrite digitsValue_acc; reflexivity.
Qed.

Lemma digitsPrefix_digits (ds : list N) :
  Forall (fun v => In v [0; 1; 2; 3; 4; 5; 6; 7; 8; 9]%N) ds ->
  digitsPrefix 10 (map digitUnit ds) = ds.
Proof.
  induction 1 as [|v ds Hv _ IH]; [reflexivity|].
  cbn [map digitsPrefix]. rewrite IH.
  cbn in Hv. repeat (destruct Hv as [<-|Hv]; [reflexivity|]). contradiction.
Qed.

Lemma split_no_separator (s : jsstring) :
  Forall (fun c => c <> 95%N) s -> split 95%N s = [s].
Proof.
  induction 1 as [|c s Hc _ IH]; [reflexivity|].
  cbn [split]. apply N.eqb_neq in Hc. rewrite Hc, IH. reflexivity.
Qed.

Lemma digits_no_separator (ds : list N) :
  Forall (fun v => In v [0; 1; 2; 3; 4; 5; 6; 7; 8; 9]%N) ds ->
  Forall (fun c => c <> 95%N) (map digitUnit ds).
Proof.
  induction 1 as [|v ds Hv _ IH]; constructor; [|exact IH].
  cbn in Hv. repeat (destruct Hv as [<-|Hv]; [discriminate|]). contradiction.
Qed.

Lemma digit_leads (v : N) (r : jsstring) :
  In v [0; 1; 2; 3; 4; 5; 6; 7; 8; 9]%N ->
  trimStart (digitUnit v :: r) = digitUnit v :: r
  /\ readSign (digitUnit v :: r) = (false, digitUnit v :: r).
Proof.
  intros Hv. cbn in Hv.
  repeat (destruct Hv as [<-|Hv]; [split; reflexivity|]). contradiction.
Qed.

Lemma readRadix_digits (ds : list N) :
  Forall (fun v => In v [0; 1; 2; 3; 4; 5; 6; 7; 8; 9]%N) ds ->
  readRadix (map digitUnit ds) = (10%N, map digitUnit ds).
Proof.
  intros Hds. destruct ds as [|v [|v' ds]]; try reflexivity.
  inversion Hds as [|? ? _ Hds']; subst.
  inversion Hds' as [|? ? Hv' _]; subst.
  cbn [map readRadix]. cbn in Hv'.
  repeat (destruct Hv' as [<-|Hv']; [rewrite andb_false_r; reflexivity|]).
  contradiction.
Qed.

(** [parseInt] on a decimal numeral, with or without a minus sign. *)
Lemma parseInt_decimal (negative : bool) (ds : list N) :
  ds <> [] ->
  Forall (fun v => In v [0; 1; 2; 3; 4; 5; 6; 7; 8; 9]%N) ds ->
  parseInt (Some ((if negative then [45%N] else []) ++ map digitUnit ds))
  = Some (if negative then - digitsValue 10 ds else digitsValue 10 ds)%Z.
Proof.
  intros Hne Hds. unfold parseInt.
  assert (Hsign : readSign (trimStart ((if negative then [45%N] else [])
                                         ++ map digitUnit ds))
                  = (negative, map digitUnit ds)).
  { destruct negative; [reflexivity|].
    destruct ds as [|v ds]; [congruence|].
    inversion Hds as [|? ? Hv _]; subst.
    cbn [app map]. destruct (digit_leads (map digitUnit ds) Hv) as [-> ->].
    reflexivity. }
  rewrite Hsign, readRadix_digits, digitsPrefix_digits by exact Hds.
  destruct ds; [congruence|reflexivity].
Qed.

(** The id [chat_<t>] carries the creation time [t]. *)
Lemma timestamp_chatId (t : Z) : timestamp (chatId t) = Some t.
Proof.
  assert (Hgen : forall (negative : bool) (d : Decimal.uint),
            d <> Decimal.Nil ->
            timestamp (lit "chat_" ++ (if negative then [45%N] else [])
                         ++ map digitUnit (uintDigits d))
            = Some (if negative then - Z.of_N (Pos.of_uint d)
                    else Z.of_N (Pos.of_uint d))%Z).
  { intros negative d Hd. unfold timestamp.
    assert (Hsplit : split 95%N (lit "chat_" ++ (if negative then [45%N] else [])
                                 ++ map digitUnit (uintDigits d))
                     = [lit "chat";
                        (if negative then [45%N] else [])
                          ++ map digitUnit (uintDigits d)]).
    { change (lit "chat_") with [99; 104; 97; 116; 95]%N.
      cbn [app split N.eqb Pos.eqb].
      rewrite split_no_separator; [reflexivity|].
      apply Forall_app. split.
      - destruct negative; repeat constructor. discriminate.
      - apply digits_no_separator, uintDigits_small. }
    rewrite Hsplit. cbn [nth_error].
    rewrite parseInt_decimal, digitsValue_of_uint;
      [reflexivity|apply uintDigits_nonempty; exact Hd|apply uintDigits_small]. }
  assert (Hnz : forall d, d <> Decimal.Nil ->
            NilZero.string_of_uint d = NilEmpty.string_of_uint d).
  { intros d Hd. destruct d; [congruence|reflexivity..]. }
  unfold chatId. destruct t as [|p|p]; cbn [Z.to_int NilZero.string_of_int].
  - reflexivity.
  - pose proof (DecimalPos.Unsigned.to_uint_nonnil p) as Hn.
    pose proof (Hgen false _ Hn) as Hp. cbn [app] in Hp.
    rewrite DecimalPos.Unsigned.of_to in Hp.
    rewrite (Hnz _ Hn), lit_string_of_uint. exact Hp.
  - pose proof (DecimalPos.Unsigned.to_uint_nonnil p) as Hn.
    pose proof (Hgen true _ Hn) as Hp. cbn [app] in Hp.
    rewrite DecimalPos.Unsigned.of_to in Hp.
    rewrite (Hnz _ Hn).
    change (lit (String "-" (NilEmpty.string_of_uint (Pos.to_uint p))))
      with (45%N :: lit (NilEmpty.string_of_uint (Pos.to_uint p))).
    rewrite lit_string_of_uint. exact Hp.
Qed.

(** Ids made from clock values satisfy the hypothesis on ids. *)
Lemma hasCreationTime_chatId (t : Z) :
  isSafeInteger t = true -> hasCreationTime (chatId t) = true.
Proof.
  intros H. unfold hasCreationTime. rewrite timestamp_chatId. exact H.
Qed.

(** The head of the sorted ids is one of them, and none is newer. *)
Lemma sort_newestFirst_head (l : list jsstring) :
  forallb hasCreationTime l = true ->
  match sort newestFirst l with
  | [] => l = []
  | first :: _ =>
      In first l
      /\ exists t, timestamp first = Some t
         /\ forall k t', In k l -> timestamp k = Some t' -> (t' <= t)%Z
  end.
Proof.
  induction l as [|x l IH]; simpl; [reflexivity|].
  rewrite andb_true_iff. intros [Hx Hl]. specialize (IH Hl).
  unfold hasCreationTime in Hx.
  destruct (timestamp x) as [tx|] eqn:Ex; [|discriminate].
  destruct (sort newestFirst l) as [|h r]; simpl.
  - subst l. split; [left; reflexivity|].
    exists tx; split; [exact Ex|].
    intros k t' [<-|[]] Hk. rewrite Ex in Hk. injection Hk as <-. lia.
  - destruct IH as [Hin [th [Eh Hmax]]].
    unfold sortCompare, newestFirst. rewrite Eh, Ex.
    destruct (Z.ltb_spec 0 (th - tx)) as [Hlt|Hge].
    + split; [right; exact Hin|].
      exists th; split; [exact Eh|].
      intros k t' [<-|Hk] Et.
      * rewrite Ex in Et. injection Et as <-. lia.
      * eapply Hmax; eassumption.
    + split; [left; reflexivity|].
      exists tx; split; [exact Ex|].
      intros k t' [<-|Hk] Et.
      * rewrite Ex in Et. injection Et as <-. lia.
      * specialize (Hmax k t' Hk Et). lia.
Qed.

(** C3. Deleting the active conversation.  The ids that remain are
    creation-time tokens (each reads back as a safe integer clock value).  If
    some remain, the store is the old one without the deleted entry and the new
    active id is a remaining id than which no remaining id is newer; if none
    remains, the store holds exactly one conversation, made with the clock
    value read, titled "New Chat", without messages, and it is active.  In both
    cases the store is not empty. *)
Theorem deleteChat_active (now : Z) (k : jsstring) (st : AppState) :
  currentChatId st = Some k ->
  forallb hasCreationTime (obj_keys (obj_delete k (conversations st))) = true ->
  let remaining := obj_delete k (conversations st) in
  let st' := deleteChat now k st in
  (remaining <> [] ->
     conversations st' = remaining
     /\ exists successor t,
          currentChatId st' = Some successor
          /\ In successor (obj_keys remaining)
          /\ timestamp successor = Some t
          /\ forall k' t', In k' (obj_keys remaining) ->
               timestamp k' = Some t' -> (t' <= t)%Z)
  /\ (remaining = [] ->
        conversations st' = [(chatId now, mkConversation (chatId now) NEW_CHAT [])]
        /\ currentChatId st' = Some (chatId now))
  /\ conversations st' <> [].
Proof.
  intros Hcur Hids remaining st'. subst st'. unfold deleteChat.
  apply isCurrent_true in Hcur. rewrite Hcur. fold remaining.
  pose proof (sort_newestFirst_head _ Hids) as Hhead. fold remaining in Hhead.
  destruct (sort newestFirst (obj_keys remaining)) as [|first rest].
  - assert (Hempty : remaining = []).
    { destruct remaining; [reflexivity|discriminate Hhead]. }
    rewrite Hempty. simpl. repeat split; try congruence; discriminate.
  - destruct Hhead as [Hin [t [Et Hmax]]]. simpl.
    assert (Hne : remaining <> []).
    { intros E. rewrite E in Hin. exact Hin. }
    repeat split; try assumption; try contradiction.
    exists first, t. repeat split; assumption.
Qed.

Lemma deleteChat_active_witness :
  conversations (deleteChat 1700000009000 (lit "chat_1700000005000") exampleState)
  = obj_delete (lit "chat_1700000005000") exampleStore
  /\ currentChatId
       (deleteChat 1700000009000 (lit "chat_1700000005000") exampleState)
     = Some (lit "chat_1700000003000").
Proof.
  destruct (@deleteChat_active 1700000009000 (lit "chat_1700000005000")
              exampleState eq_refl eq_refl) as [Hsome _].
  destruct (Hsome ltac:(discriminate)) as [Hstore _].
  split; [exact Hstore|reflexivity].
Defined.

(** With no other conversation left, a fresh one is made. *)
Example deleteChat_only :
  let st := mkAppState [(chatId 5, mkConversation (chatId 5) (lit "Old") [])]
              (Some (chatId 5)) [] false system false None None false in
  conversations (deleteChat 9 (chatId 5) st)
  = [(lit "chat_9", mkConversation (lit "chat_9") (lit "New Chat") [])]
  /\ currentChatId (deleteChat 9 (chatId 5) st) = Some (lit "chat_9").
Proof. split; reflexivity. Qed.

(** C7. Deleting a conversation that is not the active one leaves the active
    id as it was, removes the entry of the deleted id and leaves every other
    entry of the store as it was. *)
Theorem deleteChat_inactive (now : Z) (k : jsstring) (st : AppState) :
  currentChatId st <> Some k ->
  currentChatId (deleteChat now k st) = currentChatId st
  /\ obj_get k (conversations (deleteChat now k st)) = None
  /\ forall k', k' <> k ->
       obj_get k' (conversations (deleteChat now k st))
       = obj_get k' (conversations st).
Proof.
  intros Hne. unfold deleteChat.
  destruct (isCurrent st k) eqn:E.
  - apply isCurrent_true in E. contradiction.
  - simpl. split; [reflexivity|]. split.
    + apply obj_get_delete_same.
    + intros k' Hk. apply obj_get_delete_other. exact Hk.
Qed.

Lemma deleteChat_inactive_witness :
  currentChatId (deleteChat 1700000009000 (lit "chat_1700000000000") exampleState)
  = Some (lit "chat_1700000005000")
  /\ obj_get (lit "chat_1700000000000")
       (conversations
          (deleteChat 1700000009000 (lit "chat_1700000000000") exampleState))
     = None.
Proof.
  destruct (@deleteChat_inactive 1700000009000 (lit "chat_1700000000000")
              exampleState ltac:(discriminate)) as [Hcur [Hgone _]].
  split; [exact Hcur|exact Hgone].
Defined.

(** ** Attachment staging *)

Lemma rejectedFile_message (reader : ReadOutcome) (f : File) (st : AppState) :
  rejectedFile f = true ->
  exists text,
    handleFileChange reader (Some f) st
    = addMessageToCurrentChat (errorMessage text) st.
Proof.
  unfold rejectedFile, handleFileChange. intros H.
  destruct (negb (startsWith (type f) (lit "image/"))).
  - eexists; reflexivity.
  - cbn [orb] in H. unfold MAX_SIZE_MB. rewrite H. eexists; reflexivity.
Qed.

(** The claim fails as stated: with a picture already staged, choosing a file
    that is turned down leaves that picture staged, so the slot is not
    empty afterwards. *)
Lemma handleFileChange_slot_not_emptied :
  rejectedFile examplePdf = true
  /\ imageFile (handleFileChange ReadFailed (Some examplePdf) exampleStaged)
     <> None
  /\ imagePreview (handleFileChange ReadFailed (Some examplePdf) exampleStaged)
     <> None.
Proof. repeat split; discriminate. Qed.

(** C10, amended. A file whose type does not start with "image/" or whose
    size is above 10 MB is never staged: the staging slot ([imageFile] and
    [imagePreview]) keeps what it held, so it is empty afterwards when it was
    empty before; and when there is a current conversation, an error-role
    message is appended to it. *)
Theorem handleFileChange_rejected (reader : ReadOutcome) (f : File)
  (st : AppState) :
  rejectedFile f = true ->
  let st' := handleFileChange reader (Some f) st in
  imageFile st' = imageFile st
  /\ imagePreview st' = imagePreview st
  /\ (imageFile st = None -> imagePreview st = None ->
        imageFile st' = None /\ imagePreview st' = None)
  /\ forall chat conv,
       currentChatId st = Some chat -> truthy chat = true ->
       obj_get chat (conversations st) = Some conv ->
       exists text conv',
         obj_get chat (conversations st') = Some conv'
         /\ messages conv' = messages conv ++ [mkMessage ERROR text None].
Proof.
  intros Hrej st'. subst st'.
  destruct (rejectedFile_message reader f st Hrej) as [text ->].
  unfold addMessageToCurrentChat.
  destruct (currentChatId st) as [c|] eqn:Ec.
  - destruct (truthy c) eqn:Et.
    + simpl. repeat split; try congruence.
      intros chat conv Hc _ Hg. injection Hc as <-.
      rewrite obj_get_mutate_same, Hg. simpl.
      exists text. eexists; split; reflexivity.
    + repeat split; try congruence;
        intros chat conv Hc Ht; congruence.
  - repeat split; try congruence; intros chat conv Hc; discriminate Hc.
Qed.

Lemma handleFileChange_rejected_witness :
  imageFile (handleFileChange (ReadLoaded []) (Some exampleHuge) exampleState)
  = None
  /\ imagePreview (handleFileChange (ReadLoaded []) (Some exampleHuge) exampleState)
     = None.
Proof.
  destruct (@handleFileChange_rejected (ReadLoaded []) exampleHuge exampleState
              eq_refl) as [_ [_ [Hempty _]]].
  exact (Hempty eq_refl eq_refl).
Defined.

(** An accepted file is staged, with the preview the reader produces. *)
Example handleFileChange_accepts :
  imageFile
    (handleFileChange (ReadLoaded (lit "data:image/png;base64,AAAA"))
       (Some examplePng) exampleState)
  = Some examplePng.
Proof. reflexivity. Qed.

(** ** Persistence *)

Lemma deleteProp_messageJSON (m : Message) :
  deleteProp (lit "imageUrl") (messageJSON m) = messageJSON (withoutImage m).
Proof.
  unfold messageJSON, withoutImage. destruct (imageUrl m); reflexivity.
Qed.

Lemma dropImages_conversationJSON (c : Conversation) :
  dropImages (conversationJSON c)
  = conversationJSON (set_messages (map withoutImage) c).
Proof.
  unfold conversationJSON, dropImages.
  change (obj_get (lit "messages") _)
    with (Some (JArray (map messageJSON (messages c)))).
  cbn [obj_mutate]. 
  change (str_eqb (lit "messages") (lit "id")) with false.
  change (str_eqb (lit "messages") (lit "title")) with false.
  change (str_eqb (lit "messages") (lit "messages")) with true.
  cbn iota. unfold set_messages; cbn [id title messages].
  rewrite !map_map.
  rewrite (map_ext _ _ deleteProp_messageJSON). reflexivity.
Qed.

(** What the effect hands to storage is the store without image references. *)
Lemma conversationsToSave_withoutImages (s : Store) :
  conversationsToSave s = storeJSON (withoutImages s).
Proof.
  unfold conversationsToSave, storeJSON, withoutImages. f_equal.
  rewrite !map_map. apply map_ext. intros [k c]. simpl. f_equal.
  apply dropImages_conversationJSON.
Qed.

Lemma obj_get_set_same {V} (k : jsstring) (v : V) (o : obj V) :
  obj_get k (obj_set k v o) = Some v.
Proof.
  induction o as [|[k' v'] o IH]; simpl.
  - rewrite str_eqb_refl. reflexivity.
  - destruct (str_eqb k k') eqn:E; simpl.
    + rewrite str_eqb_refl. reflexivity.
    + rewrite E. exact IH.
Qed.

Lemma obj_get_set_other {V} (k k' : jsstring) (v : V) (o : obj V) :
  str_eqb k' k = false -> obj_get k' (obj_set k v o) = obj_get k' o.
Proof.
  intros Hne. induction o as [|[k0 v0] o IH]; simpl.
  - rewrite Hne. reflexivity.
  - destruct (str_eqb k k0) eqn:E; simpl.
    + apply str_eqb_eq in E; subst k0. rewrite Hne. reflexivity.
    + destruct (str_eqb k' k0); [reflexivity|exact IH].
Qed.

Lemma setItems_get_other (accepts : jsstring -> Stored -> bool)
  (k : jsstring) (items : list (jsstring * Stored)) (ls : LocalStorage) :
  forallb (fun kv => negb (str_eqb k (fst kv))) items = true ->
  obj_get k (setItems accepts items ls) = obj_get k ls.
Proof.
  revert ls. induction items as [|[k' v] items IH]; intros ls; simpl;
    [reflexivity|].
  rewrite andb_true_iff, negb_true_iff. intros [Hk Hrest].
  destruct (accepts k' v); [|reflexivity].
  rewrite IH by exact Hrest. apply obj_get_set_other. exact Hk.
Qed.

(** C8. When the saving effect runs and storage takes the item, the value
    written under "aiChatConversations" is the conversation map of the
    component with the image reference of every message removed, whatever the
    later writes do; the component state, image references included, is what
    it was. *)
Theorem saveState_strips_images (accepts : jsstring -> Stored -> bool)
  (st : AppState) (ls : LocalStorage) :
  accepts (lit "aiChatConversations")
    (StoredJSON (conversationsToSave (conversations st))) = true ->
  obj_get (lit "aiChatConversations") (snd (saveState accepts (st, ls)))
  = Some (StoredJSON (storeJSON (withoutImages (conversations st))))
  /\ fst (saveState accepts (st, ls)) = st
  /\ conversations (fst (saveState accepts (st, ls))) = conversations st.
Proof.
  intros Hok. split; [|split; reflexivity].
  unfold saveState, itemsToSave.
  cbn [fst snd setItems].
  rewrite Hok, setItems_get_other.
  - rewrite obj_get_set_same, conversationsToSave_withoutImages. reflexivity.
  - destruct (truthy_opt (currentChatId st)); reflexivity.
Qed.

Lemma saveState_strips_images_witness :
  obj_get (lit "aiChatConversations")
    (snd (saveState (fun _ _ => true) (exampleStaged, [])))
  = Some (StoredJSON (storeJSON (withoutImages exampleStore)))
  /\ fst (saveState (fun _ _ => true) (exampleStaged, [])) = exampleStaged
  /\ conversations (fst (saveState (fun _ _ => true) (exampleStaged, [])))
     = exampleStore.
Proof.
  exact (@saveState_strips_images (fun _ _ => true) exampleStaged [] eq_refl).
Defined.

(** The image of the example store is absent from what is written and still
    present in the component. *)
Example saveState_example :
  obj_get (lit "chat_1700000003000") (withoutImages exampleStore)
  = Some (mkConversation (lit "chat_1700000003000") (lit "Poem")
            [mkMessage USER (lit "a poem") None])
  /\ obj_get (lit "chat_1700000003000")
       (conversations (fst (saveState (fun _ _ => true) (exampleState, []))))
     = Some (mkConversation (lit "chat_1700000003000") (lit "Poem")
               [mkMessage USER (lit "a poem")
                  (Some (lit "data:image/png;base64,AAAA"))]).
Proof. split; reflexivity. Qed.

(** ** The turn: the stream loop *)

Lemma pop_push {A} (l : list A) (x y : A) : push y (pop (l ++ [x])) = l ++ [y].
Proof. unfold push, pop. rewrite removelast_last. reflexivity. Qed.

Lemma stripDisplay_appendChunk (c : jsstring) (m : Message) :
  stripDisplay (content (appendChunk c false m)) = stripDisplay (content m) ++ c.
Proof.
  unfold appendChunk, set_content; cbn [content].
  rewrite app_assoc. apply stripDisplay_cursor.
Qed.

Lemma updateLastMessage_get (chat : jsstring) (c : jsstring) (isDone : bool)
  (s : Store) (conv : Conversation) (base : list Message) (m : Message) :
  truthy chat = true ->
  obj_get chat s = Some conv ->
  messages conv = base ++ [m] ->
  role m = MODEL ->
  obj_get chat (updateLastMessage (Some chat) c isDone s)
  = Some (mkConversation (id conv) (title conv)
            (base ++ [appendChunk c isDone m])).
Proof.
  intros Ht Hg Hm Hr. unfold updateLastMessage.
  rewrite Ht, obj_get_mutate_same, Hg. unfold set_messages; simpl.
  rewrite Hm, updateLast_model by exact Hr. reflexivity.
Qed.

Lemma consume_chunk (others : Meanwhile) (chat : jsstring)
  (textChunk : jsstring) (rest : list StreamEvent) (ending : option jsstring)
  (full : jsstring) (n : nat) (w : World) :
  consume others chat (Chunk textChunk :: rest) ending full n w
  = if isStoppedRef (whileStreaming others n (appState w))
    then (Normal full,
          mkWorld (whileClosing others (whileStreaming others n (appState w)))
            (trace w))
    else consume others chat rest ending (full ++ textChunk) (S n)
           (mkWorld
              (setConversations (updateLastMessage (Some chat) textChunk false)
                 (whileStreaming others n (appState w)))
              (trace w)).
Proof.
  cbn [consume]. unfold bind, getApp, update, ret. cbn [appState trace].
  destruct (isStoppedRef (whileStreaming others n (appState w))); reflexivity.
Qed.

Lemma consume_stop (others : Meanwhile) (chat : jsstring)
  (rest : list StreamEvent) (ending : option jsstring) (full : jsstring)
  (n : nat) (w : World) :
  consume others chat (StopPressed :: rest) ending full n w
  = consume others chat rest ending full n
      (mkWorld (handleStop (appState w)) (trace w)).
Proof. reflexivity. Qed.

Lemma consume_end (others : Meanwhile) (chat : jsstring)
  (ending : option jsstring) (full : jsstring) (n : nat) (w : World) :
  consume others chat [] ending full n w
  = (match ending with
     | Some message => Throw message
     | None => Normal full
     end,
     mkWorld (whileStreaming others n (appState w)) (trace w)).
Proof.
  cbn [consume]. unfold bind, update, ret, throw. cbn [appState trace].
  destruct ending; reflexivity.
Qed.

(** While the other handlers leave the conversation and the stop flag alone,
    the loop keeps the message under assembly last in the array, calls
    nothing, and returns the text of the chunks it applied. *)
Lemma consume_spec (others : Meanwhile) (chat : jsstring)
  (base : list Message) :
  truthy chat = true ->
  (forall n, leaves chat (whileStreaming others n)) ->
  leaves chat (whileClosing others) ->
  forall (stream : list StreamEvent) (ending : option jsstring)
         (full : jsstring) (n : nat) (w : World) (c : Conversation)
         (m : Message),
    obj_get chat (conversations (appState w)) = Some c ->
    messages c = base ++ [m] ->
    role m = MODEL ->
    stripDisplay (content m) = full ->
    exists m',
      obj_get chat
        (conversations
           (appState (snd (consume others chat stream ending full n w))))
      = Some (mkConversation (id c) (title c) (base ++ [m']))
      /\ role m' = MODEL
      /\ imageUrl m' = imageUrl m
      /\ trace (snd (consume others chat stream ending full n w)) = trace w
      /\ isStoppedRef
           (appState (snd (consume others chat stream ending full n w)))
         = isStoppedRef (appState w) || existsb isStop stream
      /\ match fst (consume others chat stream ending full n w) with
         | Normal full' =>
             stripDisplay (content m') = full'
             /\ full' = full
                        ++ concat (appliedTexts stream (isStoppedRef (appState w)))
             /\ (readsToEnd stream (isStoppedRef (appState w)) = true ->
                 ending = None)
         | Throw e =>
             readsToEnd stream (isStoppedRef (appState w)) = true
             /\ ending = Some e
         end.
Proof.
  intros Ht Hstream Hclose stream ending.
  induction stream as [|ev rest IH]; intros full n w c m Hg Hm Hr Hs.
  - exists m. rewrite consume_end.
    cbn [fst snd appState trace existsb appliedTexts readsToEnd concat].
    destruct (Hstream n (appState w)) as [Hj1 Hj2].
    rewrite Hj1, Hj2, orb_false_r, app_nil_r.
    assert (Hc : c = mkConversation (id c) (title c) (base ++ [m])).
    { destruct c; simpl in *; subst; reflexivity. }
    rewrite <- Hc.
    destruct ending as [e|]; repeat split; auto.
  - destruct ev as [textChunk|].
    + rewrite consume_chunk. cbn [existsb isStop appliedTexts readsToEnd].
      destruct (Hstream n (appState w)) as [Hj1 Hj2].
      rewrite Hj2.
      destruct (isStoppedRef (appState w)) eqn:Ef.
      * exists m. cbn [fst snd appState trace concat].
        destruct (Hclose (whileStreaming others n (appState w))) as [Hk1 Hk2].
        rewrite Hk1, Hk2, Hj1, ?Hj2, ?Ef, app_nil_r.
        assert (Hc : c = mkConversation (id c) (title c) (base ++ [m])).
        { destruct c; simpl in *; subst; reflexivity. }
        rewrite <- Hc. repeat split; auto. discriminate.
      * set (w1 := mkWorld _ (trace w)).
        assert (Hg1 : obj_get chat (conversations (appState w1))
                      = Some (mkConversation (id c) (title c)
                                (base ++ [appendChunk textChunk false m]))).
        { subst w1. cbn [appState conversations setConversations].
          apply updateLastMessage_get; try assumption.
          rewrite Hj1. exact Hg. }
        destruct (IH (full ++ textChunk) (S n) w1 _
                    (appendChunk textChunk false m) Hg1 eq_refl Hr)
          as [m' [Hg' [Hr' [Hi' [Ht' [Hf' Hres]]]]]].
        { rewrite stripDisplay_appendChunk, Hs. reflexivity. }
        assert (Hw1 : isStoppedRef (appState w1) = false).
        { subst w1. cbn [appState isStoppedRef setConversations].
          rewrite Hj2. reflexivity. }
        exists m'. rewrite Hw1 in *.
        repeat split; auto.
        destruct (fst (consume others chat rest ending (full ++ textChunk)
                         (S n) w1)).
        { destruct Hres as [H1 [H2 H3]]. repeat split; auto.
          rewrite H2. cbn [concat]. rewrite app_assoc. reflexivity. }
        { exact Hres. }
    + rewrite consume_stop. cbn [existsb isStop appliedTexts readsToEnd].
      set (w1 := mkWorld _ (trace w)).
      destruct (IH full n w1 c m Hg Hm Hr Hs)
        as [m' [Hg' [Hr' [Hi' [Ht' [Hf' Hres]]]]]].
      exists m'. change (isStoppedRef (appState w1)) with true in *.
      rewrite orb_true_r. repeat split; auto.
Qed.

Lemma finalize_get (chat : jsstring) (final full : jsstring) (s : Store)
  (i t : jsstring) (base : list Message) (m : Message) :
  truthy chat = true ->
  obj_get chat s = Some (mkConversation i t (base ++ [m])) ->
  role m = MODEL ->
  imageUrl m = None ->
  stripDisplay (content m) = full ->
  obj_get chat (updateLastMessage (Some chat) final true s)
  = Some (mkConversation i t (base ++ [mkMessage MODEL (full ++ final) None])).
Proof.
  intros Ht Hg Hr Hi Hs.
  erewrite updateLastMessage_get by (try eassumption; reflexivity).
  unfold appendChunk, set_content. rewrite Hr, Hi, Hs, app_nil_r. reflexivity.
Qed.

(** ** The turn: what it leaves in the conversation *)

Lemma replaceLast_get (chat : jsstring) (m x : Message) (s : Store)
  (c : Conversation) (base : list Message) :
  obj_get chat s = Some c ->
  messages c = base ++ [x] ->
  obj_get chat (replaceLast chat m s)
  = Some (mkConversation (id c) (title c) (base ++ [m])).
Proof.
  intros Hg Hm. unfold replaceLast.
  rewrite obj_get_mutate_same, Hg. unfold set_messages; simpl.
  rewrite Hm, pop_push. reflexivity.
Qed.

Lemma autoSpeak_state (ttsEnabled : bool) (utterance : jsstring) (w : World) :
  fst (autoSpeak ttsEnabled utterance w) = Normal tt
  /\ appState (snd (autoSpeak ttsEnabled utterance w)) = appState w.
Proof.
  unfold autoSpeak. destruct (ttsEnabled && truthy utterance); split; reflexivity.
Qed.

Lemma appendChunk_done (final : jsstring) (m : Message) :
  role m = MODEL ->
  imageUrl m = None ->
  appendChunk final true m
  = mkMessage MODEL (stripDisplay (content m) ++ final) None.
Proof.
  intros Hr Hi. unfold appendChunk, set_content.
  rewrite Hr, Hi, app_nil_r. reflexivity.
Qed.

Lemma leaves_get (chat : jsstring) (handler : AppState -> AppState)
  (st : AppState) (c : Conversation) :
  leaves chat handler ->
  obj_get chat (conversations st) = Some c ->
  obj_get chat (conversations (handler st)) = Some c.
Proof. intros H Hg. destruct (H st) as [-> _]. exact Hg. Qed.

Lemma leaves_flag (chat : jsstring) (handler : AppState -> AppState)
  (st : AppState) :
  leaves chat handler -> isStoppedRef (handler st) = isStoppedRef st.
Proof. intros H. destruct (H st) as [_ ->]. reflexivity. Qed.

Lemma leaves_id (chat : jsstring) : leaves chat (fun st => st).
Proof. intros st. split; reflexivity. Qed.

Lemma undisturbed_idle (chat : jsstring) : undisturbed chat idle.
Proof.
  repeat split; reflexivity.
Qed.

(** Whatever the service does, and while the other handlers leave the
    conversation and the stop flag alone, the [try] statement ends normally
    and the placeholder has become the outcome message. *)
Lemma attempt_outcome (env : Env) (others : Meanwhile)
  (chat messageContent : jsstring) (file : option File) (ttsEnabled : bool)
  (historySource : list Message) (w : World) (c : Conversation)
  (base : list Message) :
  truthy chat = true ->
  undisturbed chat others ->
  isStoppedRef (appState w) = false ->
  obj_get chat (conversations (appState w)) = Some c ->
  messages c = base ++ [placeholder] ->
  let r := tryCatch
             (tryBlock env others chat messageContent file ttsEnabled
                historySource)
             (catchBlock chat messageContent file) w in
  fst r = Normal tt
  /\ obj_get chat (conversations (appState (snd r)))
     = Some (mkConversation (id c) (title c)
               (base ++ [outcomeMessage env messageContent file historySource])).
Proof.
  intros Ht [Hcall [Hread [Hstream Hclose]]] Hf Hg Hm r. subst r.
  unfold outcomeMessage.
  cbv [tryCatch tryBlock catchBlock bind await awaitAmong settle emit ret throw
       getApp update].
  cbn [appState trace].
  assert (Hlast : forall (st : AppState) (m : Message),
            obj_get chat (conversations st) = Some c ->
            obj_get chat
              (conversations (setConversations (replaceLast chat m) st))
            = Some (mkConversation (id c) (title c) (base ++ [m]))).
  { intros st m Hst. cbn [conversations setConversations].
    eapply replaceLast_get; eassumption. }
  destruct (truthy_opt (API_KEY env)); cbn [negb].
  2:{ cbn [fst snd appState]. split; [reflexivity|]. apply Hlast. exact Hg. }
  destruct (startsWith (trim messageContent) GENERATE_PREFIX).
  { change (length GENERATE_PREFIX) with 10.
    destruct (truthy (trim (skipn 10 messageContent))); cbn [negb].
    2:{ cbn [fst snd appState]. split; [reflexivity|]. apply Hlast. exact Hg. }
    destruct (generateImages (remote env) (trim (skipn 10 messageContent)));
      cbn [fst snd appState]; (split; [reflexivity|]); apply Hlast;
      apply leaves_get; assumption. }
  destruct file as [f|].
  { unfold textPartOf.
    destruct (fileToBase64 (remote env) f) as [d|e].
    2:{ cbn [fst snd appState]. split; [reflexivity|]. apply Hlast.
        apply leaves_get; assumption. }
    destruct (generateContent (remote env) (mkInlineData (type f) d)
                (if truthy messageContent then Some messageContent else None))
      as [response|e].
    2:{ cbn [fst snd appState]. split; [reflexivity|]. apply Hlast.
        do 2 (apply leaves_get; [assumption|]). exact Hg. }
    match goal with
    | |- context [autoSpeak ?t ?u ?w0] =>
        destruct (autoSpeak_state t u w0) as [Hs1 Hs2];
        destruct (autoSpeak t u w0) as [res w2]
    end.
    cbn [fst snd appState] in Hs1, Hs2. subst res. cbn [fst snd]. rewrite Hs2.
    split; [reflexivity|]. apply Hlast.
    do 2 (apply leaves_get; [assumption|]). exact Hg. }
  destruct (sendMessageStream (remote env) (chatHistory historySource)
              messageContent) as [s|e].
  2:{ cbn [fst snd appState]. split; [reflexivity|]. apply Hlast.
      apply leaves_get; assumption. }
  match goal with
  | |- context [consume others chat (arrivals s) (failure s) [] 0 ?w0] =>
      assert (Hg0 : obj_get chat (conversations (appState w0)) = Some c)
        by (cbn [appState]; apply leaves_get; assumption);
      assert (Hf0 : isStoppedRef (appState w0) = false)
        by (cbn [appState]; rewrite (leaves_flag _ Hcall); exact Hf);
      destruct (@consume_spec others chat base Ht Hstream Hclose (arrivals s)
                  (failure s) [] 0 w0 c placeholder Hg0 Hm eq_refl eq_refl)
        as [m' [Hg' [Hr' [Hi' [_ [Hf' Hres]]]]]];
      destruct (consume others chat (arrivals s) (failure s) [] 0 w0)
        as [res w2]
  end.
  cbn [fst snd appState] in Hg', Hf', Hres, Hf0. rewrite Hf0 in Hf', Hres.
  cbn [orb] in Hf'. change (imageUrl placeholder) with (@None jsstring) in Hi'.
  destruct res as [full|e].
  - destruct Hres as [Hstrip [Hfull Hend]]. cbn [app] in Hfull.
    rewrite Hf'.
    replace (if readsToEnd (arrivals s) false
             then match failure s with
                  | Some e => errorMessage (friendlyMessage None messageContent e)
                  | None => _
                  end
             else _)
      with (mkMessage MODEL
              (full ++ (if existsb isStop (arrivals s) then STOP_MARKER else []))
              None).
    2:{ rewrite Hfull. destruct (readsToEnd (arrivals s) false); [|reflexivity].
        rewrite (Hend eq_refl). reflexivity. }
    destruct (existsb isStop (arrivals s)).
    + cbn [fst snd appState conversations setConversations].
      split; [reflexivity|].
      exact (@finalize_get chat STOP_MARKER full _ _ _ base m' Ht Hg' Hr' Hi' Hstrip).
    + match goal with
      | |- context [autoSpeak ?t ?u ?w0] =>
          destruct (autoSpeak_state t u w0) as [Hs1 Hs2];
          destruct (autoSpeak t u w0) as [res w3]
      end.
      cbn [fst snd appState] in Hs1, Hs2. subst res. cbn [fst snd].
      rewrite Hs2. cbn [conversations setConversations].
      split; [reflexivity|].
      exact (@finalize_get chat [] full _ _ _ base m' Ht Hg' Hr' Hi' Hstrip).
  - destruct Hres as [Hread' Hend]. rewrite Hread', Hend.
    cbn [fst snd appState conversations setConversations].
    split; [reflexivity|].
    exact (@replaceLast_get chat _ m' _
             (mkConversation (id c) (title c) (base ++ [m'])) base Hg' eq_refl).
Qed.

(** The title request never throws and leaves the state alone; it calls the
    service at most once, and not at all without credentials. *)
Lemma getChatTitle_spec (env : Env) (firstMessage : jsstring) (w : World) :
  exists t calls,
    getChatTitle env firstMessage w
    = (Normal t, mkWorld (appState w) (trace w ++ calls))
    /\ (calls = [] \/ calls = [CallGenerateTitle (titlePrompt firstMessage)])
    /\ (truthy_opt (API_KEY env) = false -> t = NEW_CHAT /\ calls = [])
    /\ (forall e,
          generateTitle (remote env) (titlePrompt firstMessage) = Rejected e ->
          t = NEW_CHAT).
Proof.
  unfold getChatTitle.
  cbv [tryCatch bind await settle emit ret throw].
  destruct (truthy_opt (API_KEY env)); cbn [negb].
  - destruct (generateTitle (remote env) (titlePrompt firstMessage)) as [r|e].
    + eexists; eexists; split; [reflexivity|].
      split; [right; reflexivity|]. split; [discriminate|]. discriminate.
    + eexists; eexists; split; [reflexivity|].
      split; [right; reflexivity|]. split; [discriminate|]. reflexivity.
  - exists NEW_CHAT, []. rewrite app_nil_r. destruct w.
    repeat split; auto.
Qed.

Lemma accepted_inv (messageContent : jsstring) (st : AppState) :
  accepted messageContent st = true ->
  isLoading st = false
  /\ truthy_opt (currentChatId st) = true
  /\ (truthy (trim messageContent) = true \/ imageFile st <> None).
Proof.
  unfold accepted. rewrite negb_true_iff, !orb_false_iff, negb_false_iff.
  intros [[H1 H2] H3]. repeat split; auto.
  destruct (truthy (trim messageContent)); [left; reflexivity|].
  destruct (imageFile st); [right; discriminate|discriminate H1].
Qed.

(** A turn that is accepted by the render of its handler, on a conversation
    that this render and the store both hold, ends normally with [isLoading]
    false when the other handlers leave the conversation and the stop flag
    alone: the user message and the outcome message are appended in this
    order to the messages the conversation had. *)
Lemma runTurnFrom_outcome (env : Env) (others : Meanwhile)
  (render : AppState) (messageContent : jsstring) (st : AppState)
  (chat : jsstring) (seen conv : Conversation) :
  accepted messageContent render = true ->
  currentChatId render = Some chat ->
  obj_get chat (conversations render) = Some seen ->
  obj_get chat (conversations st) = Some conv ->
  undisturbed chat others ->
  let r := runTurnFrom env others render messageContent st in
  fst r = Normal tt
  /\ isLoading (appState (snd r)) = false
  /\ exists t,
       obj_get chat (conversations (appState (snd r)))
       = Some (mkConversation (id conv) t
                 (messages conv
                    ++ [mkMessage USER messageContent (imagePreview render);
                        outcomeMessage env messageContent (imageFile render)
                          (messages seen)])).
Proof.
  intros Hacc Hcur Hseen Hg Hrely r. subst r.
  destruct (accepted_inv _ _ Hacc) as [Hload [Htr _]].
  rewrite Hcur in Htr. cbn [truthy_opt] in Htr.
  unfold runTurnFrom, submitMessage.
  cbv [bind getApp update ret]. cbn [appState trace].
  rewrite Hacc, Hcur, Hseen. cbn [negb].
  unfold turn. cbv [bind getApp update ret tryFinally]. cbn [appState trace].
  set (user := mkMessage USER messageContent (imagePreview render)).
  set (st1 := openTurn chat user (clearDraft st)).
  assert (Hg1 : obj_get chat (conversations st1)
                = Some (mkConversation (id conv) (title conv)
                          ((messages conv ++ [user]) ++ [placeholder]))).
  { subst st1. unfold openTurn, clearDraft.
    cbn [conversations setIsLoading setConversations setIsStopped
         setImagePreview setImageFile setUserInput].
    rewrite obj_get_mutate_same, Hg. reflexivity. }
  assert (Hf1 : isStoppedRef st1 = false) by reflexivity.
  assert (Hmain : forall w1 : World, appState w1 = st1 ->
    let r := tryCatch
               (tryBlock env others chat messageContent (imageFile render)
                  (isTtsEnabled render) (messages seen))
               (catchBlock chat messageContent (imageFile render)) w1 in
    fst r = Normal tt
    /\ obj_get chat (conversations (appState (snd r)))
       = Some (mkConversation (id conv) (title conv)
                 ((messages conv ++ [user])
                    ++ [outcomeMessage env messageContent (imageFile render)
                          (messages seen)]))).
  { intros w1 Hw1.
    apply (@attempt_outcome env others chat messageContent (imageFile render)
             (isTtsEnabled render) (messages seen) w1
             (mkConversation (id conv) (title conv)
                ((messages conv ++ [user]) ++ [placeholder]))
             (messages conv ++ [user]) Htr Hrely).
    - rewrite Hw1. exact Hf1.
    - rewrite Hw1. exact Hg1.
    - reflexivity. }
  destruct (wantsTitle (messages seen) messageContent).
  - destruct (getChatTitle_spec env messageContent (mkWorld st1 []))
      as [t [calls [Heq _]]].
    rewrite Heq. cbn [appState trace].
    specialize (Hmain (mkWorld st1 ([] ++ calls)) eq_refl). cbv zeta in Hmain.
    destruct (tryCatch _ _ (mkWorld st1 ([] ++ calls))) as [res w2].
    cbn [fst snd] in Hmain. destruct Hmain as [-> Hg2].
    cbn [fst snd appState conversations setIsLoading setConversations isLoading].
    split; [reflexivity|]. split; [reflexivity|].
    exists t. rewrite obj_get_mutate_same, Hg2. cbn [option_map set_title id messages].
    rewrite <- app_assoc. reflexivity.
  - specialize (Hmain (mkWorld st1 []) eq_refl). cbv zeta in Hmain.
    destruct (tryCatch _ _ (mkWorld st1 [])) as [res w2].
    cbn [fst snd] in Hmain. destruct Hmain as [-> Hg2].
    cbn [fst snd appState conversations setIsLoading setConversations isLoading].
    split; [reflexivity|]. split; [reflexivity|].
    exists (title conv). rewrite Hg2, <- app_assoc. reflexivity.
Qed.

(** The same for the turn that a handler of the latest render starts and
    that runs alone. *)
Lemma runTurn_outcome (env : Env) (messageContent : jsstring) (st : AppState)
  (chat : jsstring) (conv : Conversation) :
  accepted messageContent st = true ->
  currentChatId st = Some chat ->
  obj_get chat (conversations st) = Some conv ->
  fst (runTurn env messageContent st) = Normal tt
  /\ isLoading (appState (snd (runTurn env messageContent st))) = false
  /\ exists t,
       obj_get chat (conversations (appState (snd (runTurn env messageContent st))))
       = Some (mkConversation (id conv) t
                 (messages conv
                    ++ [mkMessage USER messageContent (imagePreview st);
                        outcomeMessage env messageContent (imageFile st)
                          (messages conv)])).
Proof.
  intros Hacc Hcur Hg.
  exact (@runTurnFrom_outcome env idle st messageContent st chat conv conv
           Hacc Hcur Hg Hg (undisturbed_idle chat)).
Qed.

(** ** The turn: failures and the placeholder *)

Lemma friendlyMessage_not_loading (file : option File)
  (messageContent e : jsstring) :
  friendlyMessage file messageContent e <> LOADING_INDICATOR_CONTENT.
Proof.
  unfold friendlyMessage. intros H.
  destruct file; [cbn in H; discriminate H|].
  destruct (startsWith (trim messageContent) GENERATE_PREFIX);
    cbn in H; discriminate H.
Qed.

Lemma snoc_marker_not_loading (s : jsstring) :
  s ++ STOP_MARKER <> LOADING_INDICATOR_CONTENT.
Proof.
  intros H. apply (f_equal (@rev code_unit)) in H.
  rewrite rev_app_distr in H. cbn in H. discriminate H.
Qed.

Lemma appliedTexts_no_stop (stream : list StreamEvent) :
  existsb isStop stream = false ->
  appliedTexts stream false = chunkTexts stream.
Proof.
  induction stream as [|[t|] rest IH]; cbn; intros H;
    [reflexivity| |discriminate H].
  rewrite IH by exact H. reflexivity.
Qed.

Lemma outcomeMessage_throw (env : Env) (messageContent : jsstring)
  (file : option File) (historySource : list Message) (e : jsstring) :
  remoteCallThrows env messageContent file historySource e ->
  outcomeMessage env messageContent file historySource
  = errorMessage (friendlyMessage file messageContent e).
Proof.
  intros H. unfold outcomeMessage.
  destruct H as [e Hk Hd Hp Hr|f e Hk Hd Hf Hr|f d e Hk Hd Hf Hr1 Hr2
                 |e Hk Hd Hr|s e Hk Hd Hr Hread Hfail];
    rewrite Hk; cbn [negb]; unfold dispatch in Hd;
    destruct (startsWith (trim messageContent) GENERATE_PREFIX);
    destruct file as [f0|]; try discriminate;
    try (injection Hf as <-).
  - rewrite Hp, Hr. reflexivity.
  - rewrite Hp, Hr. reflexivity.
  - rewrite Hr. reflexivity.
  - rewrite Hr1, Hr2. reflexivity.
  - rewrite Hr. reflexivity.
  - rewrite Hr, Hread, Hfail. reflexivity.
Qed.

Lemma outcomeMessage_not_loading (env : Env) (messageContent : jsstring)
  (file : option File) (historySource : list Message) :
  neverSentinel (remote env) ->
  content (outcomeMessage env messageContent file historySource)
  <> LOADING_INDICATOR_CONTENT.
Proof.
  intros [Hcontent Hstream]. unfold outcomeMessage.
  assert (Herr : forall e,
            content (errorMessage (friendlyMessage file messageContent e))
            <> LOADING_INDICATOR_CONTENT).
  { intros e. apply friendlyMessage_not_loading. }
  destruct (truthy_opt (API_KEY env)); cbn [negb]; [|apply Herr].
  destruct (startsWith (trim messageContent) GENERATE_PREFIX).
  { destruct (truthy (trim (skipn 10 messageContent))); cbn [negb];
      [|apply Herr].
    destruct (generateImages _ _); [|apply Herr].
    cbn. discriminate. }
  destruct file as [f|].
  { destruct (fileToBase64 _ _) as [d|e]; [|apply friendlyMessage_not_loading].
    destruct (generateContent _ _ _) as [response|e] eqn:E;
      [|apply friendlyMessage_not_loading].
    eapply Hcontent; exact E. }
  destruct (sendMessageStream _ _ _) as [s|e] eqn:E;
    [|apply friendlyMessage_not_loading].
  assert (Hs : content
                 (mkMessage MODEL
                    (concat (appliedTexts (arrivals s) false)
                       ++ (if existsb isStop (arrivals s)
                           then STOP_MARKER else []))
                    None)
               <> LOADING_INDICATOR_CONTENT).
  { cbn [content]. destruct (existsb isStop (arrivals s)) eqn:Estop.
    - apply snoc_marker_not_loading.
    - rewrite app_nil_r, appliedTexts_no_stop by exact Estop.
      eapply Hstream; exact E. }
  cbv zeta.
  destruct (readsToEnd (arrivals s) false); [|exact Hs].
  destruct (failure s); [apply friendlyMessage_not_loading|exact Hs].
Qed.

(** The claim fails as stated: when the whole text streamed by the service
    is the very text of the placeholder, the turn ends normally and the last
    message of the conversation is again the placeholder. *)
Lemma submitMessage_leaves_sentinel :
  fst (runTurn (streamingEnv (mkStream [Chunk LOADING_INDICATOR_CONTENT] None))
         (lit "hello") exampleState)
  = Normal tt
  /\ lastMessage (lit "chat_1700000005000")
       (conversations
          (appState
             (snd (runTurn
                     (streamingEnv
                        (mkStream [Chunk LOADING_INDICATOR_CONTENT] None))
                     (lit "hello") exampleState))))
     = Some (mkMessage MODEL LOADING_INDICATOR_CONTENT None).
Proof. split; vm_compute; reflexivity. Qed.

(** The handlers of the example leave the conversation of the example
    state and the stop flag alone. *)
Lemma leaves_startNewChat (chat : jsstring) (now : Z) :
  chat <> chatId now -> leaves chat (startNewChat now).
Proof.
  intros Hne st. split; [|reflexivity].
  unfold startNewChat. cbn [conversations setCurrentChatId setConversations].
  apply obj_get_set_other. apply str_eqb_neq. exact Hne.
Qed.

Lemma undisturbed_exampleOthers :
  undisturbed (lit "chat_1700000005000") exampleOthers.
Proof.
  split; [|split; [|split]].
  - intros st. unfold exampleOthers, whileCalling, toggleTheme.
    destruct (theme st); split; reflexivity.
  - intros st. split; reflexivity.
  - intros n. apply leaves_startNewChat. discriminate.
  - intros st. split; reflexivity.
Qed.

(** C2, amended. A turn accepted by the render of its handler, on a
    conversation that this render and the store hold, during which the other
    handlers leave that conversation and the stop flag alone, ends normally
    with [isLoading] false and leaves the messages of the conversation
    followed by the user message and one more message, in this order.  If the
    remote call of the turn throws, that message is an error-role message
    made of a user-visible text around the message of the exception: the
    placeholder (or what was streamed into it) is gone.  And if the service
    never answers with the very text of the placeholder, the content of that
    last message is not the placeholder text. *)
Theorem submitMessage_replaces_placeholder (env : Env) (others : Meanwhile)
  (render : AppState) (messageContent : jsstring) (st : AppState)
  (chat : jsstring) (seen conv : Conversation) :
  accepted messageContent render = true ->
  currentChatId render = Some chat ->
  obj_get chat (conversations render) = Some seen ->
  obj_get chat (conversations st) = Some conv ->
  undisturbed chat others ->
  let run := runTurnFrom env others render messageContent st in
  let st' := appState (snd run) in
  exists conv' m,
    obj_get chat (conversations st') = Some conv'
    /\ messages conv'
       = messages conv
         ++ [mkMessage USER messageContent (imagePreview render); m]
    /\ lastMessage chat (conversations st') = Some m
    /\ isLoading st' = false
    /\ fst run = Normal tt
    /\ (forall e,
          remoteCallThrows env messageContent (imageFile render)
            (messages seen) e ->
          m = mkMessage ERROR
                (friendlyMessage (imageFile render) messageContent e) None)
    /\ (neverSentinel (remote env) ->
        content m <> LOADING_INDICATOR_CONTENT).
Proof.
  intros Hacc Hcur Hseen Hg Hrely run st'. subst st' run.
  destruct (@runTurnFrom_outcome env others render messageContent st chat seen
              conv Hacc Hcur Hseen Hg Hrely)
    as [Hres [Hload [t Hg']]].
  eexists; eexists. split; [exact Hg'|].
  split; [reflexivity|]. split.
  { unfold lastMessage. rewrite Hg'. cbn [messages].
    change (messages conv ++ [?u; ?m]) with (messages conv ++ [u] ++ [m]).
    rewrite app_assoc. apply lastOf_snoc. }
  split; [exact Hload|]. split; [exact Hres|]. split.
  - intros e He. apply outcomeMessage_throw. exact He.
  - apply outcomeMessage_not_loading.
Qed.

Lemma neverSentinel_failingRemote : neverSentinel failingRemote.
Proof. split; intros; discriminate. Qed.

Lemma submitMessage_replaces_placeholder_witness :
  exists m,
    lastMessage (lit "chat_1700000005000")
      (conversations
         (appState
            (snd (runTurnFrom failingEnv exampleOthers exampleState
                    (lit "hello") exampleStaged))))
    = Some m
    /\ m = mkMessage ERROR (lit "An error occurred: network down") None
    /\ content m <> LOADING_INDICATOR_CONTENT.
Proof.
  destruct (@submitMessage_replaces_placeholder failingEnv exampleOthers
              exampleState (lit "hello") exampleStaged
              (lit "chat_1700000005000")
              (mkConversation (lit "chat_1700000005000") NEW_CHAT [])
              (mkConversation (lit "chat_1700000005000") NEW_CHAT [])
              eq_refl eq_refl eq_refl eq_refl undisturbed_exampleOthers)
    as [conv' [m [_ [_ [Hlast [_ [_ [Hthrow Hkeep]]]]]]]].
  exists m. split; [exact Hlast|]. split.
  - apply (Hthrow (lit "network down")).
    apply throws_sendMessageStream; reflexivity.
  - apply Hkeep. exact neverSentinel_failingRemote.
Defined.

(** What the proviso on the other handlers excludes.  A speech recognition
    error reported while the service is called is pushed after the
    placeholder; when the call then fails, it is this message that [pop]
    removes, and the placeholder stays in the conversation for good. *)
Example speech_error_during_call :
  option_map messages
    (obj_get (lit "chat_1700000005000")
       (conversations
          (appState
             (snd (runTurnFrom failingEnv speechErrorWhileCalling exampleState
                     (lit "hello") exampleState)))))
  = Some [mkMessage USER (lit "hello") None;
          placeholder;
          mkMessage ERROR (lit "An error occurred: network down") None].
Proof. vm_compute. reflexivity. Qed.

(** ** The turn: cancellation *)

Lemma appliedTexts_until_stop (texts : list jsstring)
  (after : list StreamEvent) :
  appliedTexts (map Chunk texts ++ StopPressed :: after) false = texts.
Proof.
  induction texts as [|t texts IH]; cbn.
  - induction after as [|[t|] after IH]; cbn; auto.
  - rewrite IH. reflexivity.
Qed.

Lemma existsb_isStop_stop (texts : list jsstring) (after : list StreamEvent) :
  existsb isStop (map Chunk texts ++ StopPressed :: after) = true.
Proof.
  rewrite existsb_app. cbn. apply orb_true_r.
Qed.

Lemma readsToEnd_until_stop (texts : list jsstring)
  (after : list StreamEvent) :
  readsToEnd (map Chunk texts ++ StopPressed :: after) false
  = readsToEnd after true.
Proof. induction texts as [|t texts IH]; cbn; auto. Qed.

Lemma readsToEnd_stopped_chunk (after : list StreamEvent) (t : jsstring) :
  In (Chunk t) after -> readsToEnd after true = false.
Proof.
  induction after as [|[t'|] after IH]; cbn; intros H.
  - contradiction.
  - reflexivity.
  - destruct H as [H|H]; [discriminate H|exact (IH H)].
Qed.

(** The claim fails as stated: Stop is pressed after the first chunk and the
    pending read of the stream then fails; the turn takes the error path, the
    text already applied is dropped with the message it was in, and no marker
    is appended. *)
Lemma stop_then_failure_drops_partial :
  lastMessage (lit "chat_1700000005000")
    (conversations
       (appState
          (snd (runTurn
                  (streamingEnv
                     (mkStream [Chunk (lit "Hi"); StopPressed]
                        (Some (lit "network down"))))
                  (lit "hello") exampleState))))
  = Some (mkMessage ERROR (lit "An error occurred: network down") None).
Proof. vm_compute. reflexivity. Qed.

(** C4, amended. In a streaming turn during which the other handlers leave
    the conversation and the stop flag alone, where Stop is pressed after the
    chunks [texts] have arrived and the stream does not fail afterwards (it
    delivers another chunk or ends), no later chunk is applied: the last
    message of the conversation is the model message holding the text of
    [texts] followed by the marker, once, and [isLoading] is false when the
    turn is over. *)
Theorem handleStop_appends_marker (env : Env) (others : Meanwhile)
  (render : AppState) (messageContent : jsstring) (st : AppState)
  (chat : jsstring) (seen conv : Conversation) (s : Stream)
  (texts : list jsstring) (after : list StreamEvent) :
  accepted messageContent render = true ->
  currentChatId render = Some chat ->
  obj_get chat (conversations render) = Some seen ->
  obj_get chat (conversations st) = Some conv ->
  undisturbed chat others ->
  truthy_opt (API_KEY env) = true ->
  dispatch messageContent (imageFile render) = TextStreaming ->
  sendMessageStream (remote env) (chatHistory (messages seen)) messageContent
  = Resolved s ->
  arrivals s = map Chunk texts ++ StopPressed :: after ->
  (failure s = None \/ exists t, In (Chunk t) after) ->
  let st' :=
    appState (snd (runTurnFrom env others render messageContent st)) in
  lastMessage chat (conversations st')
  = Some (mkMessage MODEL (concat texts ++ STOP_MARKER) None)
  /\ (exists conv',
        obj_get chat (conversations st') = Some conv'
        /\ messages conv'
           = messages conv
             ++ [mkMessage USER messageContent (imagePreview render);
                 mkMessage MODEL (concat texts ++ STOP_MARKER) None])
  /\ isLoading st' = false.
Proof.
  intros Hacc Hcur Hseen Hg Hrely Hkey Hd Hsend Harr Hok st'. subst st'.
  destruct (@runTurnFrom_outcome env others render messageContent st chat seen
              conv Hacc Hcur Hseen Hg Hrely)
    as [_ [Hload [t Hg']]].
  assert (Hout : outcomeMessage env messageContent (imageFile render)
                   (messages seen)
                 = mkMessage MODEL (concat texts ++ STOP_MARKER) None).
  { unfold outcomeMessage. rewrite Hkey. cbn [negb].
    unfold dispatch in Hd.
    destruct (startsWith (trim messageContent) GENERATE_PREFIX);
      [discriminate Hd|].
    destruct (imageFile render); [discriminate Hd|].
    rewrite Hsend. cbv zeta.
    rewrite Harr, appliedTexts_until_stop, existsb_isStop_stop,
      readsToEnd_until_stop.
    destruct Hok as [Hnone|[c Hin]].
    - rewrite Hnone. destruct (readsToEnd after true); reflexivity.
    - rewrite (readsToEnd_stopped_chunk _ _ Hin). reflexivity. }
  rewrite Hout in Hg'. split; [|split; [|exact Hload]].
  - unfold lastMessage. rewrite Hg'. cbn [messages].
    change (messages conv ++ [?u; ?m]) with (messages conv ++ [u] ++ [m]).
    rewrite app_assoc. apply lastOf_snoc.
  - eexists. split; [exact Hg'|reflexivity].
Qed.

Lemma handleStop_appends_marker_witness :
  lastMessage (lit "chat_1700000005000")
    (conversations
       (appState
          (snd (runTurnFrom
                  (streamingEnv
                     (mkStream
                        (map Chunk [lit "Hi"; lit " there"]
                           ++ StopPressed :: [Chunk (lit ", friend")])
                        (Some (lit "network down"))))
                  exampleOthers exampleState (lit "hello") exampleState))))
  = Some (mkMessage MODEL
            (concat [lit "Hi"; lit " there"] ++ STOP_MARKER) None).
Proof.
  apply (@handleStop_appends_marker
           (streamingEnv
              (mkStream
                 (map Chunk [lit "Hi"; lit " there"]
                    ++ StopPressed :: [Chunk (lit ", friend")])
                 (Some (lit "network down"))))
           exampleOthers exampleState (lit "hello") exampleState
           (lit "chat_1700000005000")
           (mkConversation (lit "chat_1700000005000") NEW_CHAT [])
           (mkConversation (lit "chat_1700000005000") NEW_CHAT [])
           _ [lit "Hi"; lit " there"] [Chunk (lit ", friend")]
           eq_refl eq_refl eq_refl eq_refl undisturbed_exampleOthers
           eq_refl eq_refl eq_refl eq_refl).
  right. exists (lit ", friend"). left. reflexivity.
Defined.

(** What the proviso on the other handlers excludes.  A speech recognition
    error reported before the second read of the stream is pushed after the
    message under assembly; [updateLastMessage] then finds an error message
    last and does nothing: the marker is not appended and the cursor stays
    at the end of what was streamed. *)
Example speech_error_during_stream :
  option_map messages
    (obj_get (lit "chat_1700000005000")
       (conversations
          (appState
             (snd (runTurnFrom
                     (streamingEnv
                        (mkStream [Chunk (lit "Hi"); StopPressed;
                                   Chunk (lit " there")] None))
                     speechErrorWhileStreaming exampleState (lit "hello")
                     exampleState)))))
  = Some [mkMessage USER (lit "hello") None;
          mkMessage MODEL (lit "Hi" ++ CURSOR) None;
          mkMessage ERROR (lit "No speech was detected. Please try again.")
            None].
Proof. vm_compute. reflexivity. Qed.

(** ** The turn: its calls *)

Lemma consume_trace (others : Meanwhile) (chat : jsstring)
  (stream : list StreamEvent) (ending : option jsstring) (full : jsstring)
  (n : nat) (w : World) :
  trace (snd (consume others chat stream ending full n w)) = trace w.
Proof.
  revert full n w. induction stream as [|[t|] rest IH]; intros full n w.
  - rewrite consume_end. reflexivity.
  - rewrite consume_chunk.
    destruct (isStoppedRef (whileStreaming others n (appState w)));
      [reflexivity|].
    rewrite IH. reflexivity.
  - rewrite consume_stop, IH. reflexivity.
Qed.

(** What [autoSpeak] says: at most the text it is given, which is then not
    empty, and only with the speech preference of its render on. *)
Lemma autoSpeak_trace (ttsEnabled : bool) (utterance : jsstring) (w : World) :
  exists spoken,
    trace (snd (autoSpeak ttsEnabled utterance w)) = trace w ++ spoken
    /\ (spoken = []
        \/ (spoken = [Speak utterance] /\ ttsEnabled = true
            /\ truthy utterance = true)).
Proof.
  unfold autoSpeak. destruct ttsEnabled, (truthy utterance); cbn [andb].
  - exists [Speak utterance]. split; [reflexivity|right; auto].
  - exists []. cbn. rewrite app_nil_r. auto.
  - exists []. cbn. rewrite app_nil_r. auto.
  - exists []. cbn. rewrite app_nil_r. auto.
Qed.

(** Whatever the other handlers do, the [try] statement makes the expected
    call and nothing else, but possibly one utterance: a text that is not
    empty, said only with the speech preference on. *)
Lemma attempt_trace (env : Env) (others : Meanwhile)
  (chat messageContent : jsstring) (file : option File) (ttsEnabled : bool)
  (historySource : list Message) (w : World) :
  exists spoken,
    trace (snd (tryCatch
                  (tryBlock env others chat messageContent file ttsEnabled
                     historySource)
                  (catchBlock chat messageContent file) w))
    = trace w ++ expectedCall env messageContent file historySource ++ spoken
    /\ (spoken = []
        \/ exists u, spoken = [Speak u] /\ ttsEnabled = true
                     /\ truthy u = true).
Proof.
  unfold expectedCall.
  cbv [tryCatch tryBlock catchBlock bind await awaitAmong settle emit ret throw
       getApp update].
  cbn [appState trace].
  destruct (truthy_opt (API_KEY env)); cbn [negb].
  2:{ exists []. cbn. rewrite app_nil_r. auto. }
  destruct (startsWith (trim messageContent) GENERATE_PREFIX).
  { change (length GENERATE_PREFIX) with 10.
    destruct (truthy (trim (skipn 10 messageContent))); cbn [negb].
    2:{ exists []. cbn. rewrite app_nil_r. auto. }
    exists []. destruct (generateImages _ _); cbn; auto. }
  destruct file as [f|].
  { unfold textPartOf.
    destruct (fileToBase64 (remote env) f) as [d|e].
    2:{ exists []. cbn. rewrite app_nil_r. auto. }
    destruct (generateContent _ _ _) as [response|e].
    2:{ exists []. cbn. auto. }
    match goal with
    | |- context [autoSpeak ?t ?u ?w0] =>
        destruct (autoSpeak_state t u w0) as [Hs1 _];
        destruct (autoSpeak_trace t u w0) as [spoken [Hs2 Hs3]];
        destruct (autoSpeak t u w0) as [res w2]
    end.
    cbn [fst snd trace] in Hs1, Hs2. subst res. cbn [fst snd].
    exists spoken. rewrite Hs2, <- app_assoc. split; [reflexivity|].
    destruct Hs3 as [->|[-> [Ht Hu]]]; eauto. }
  destruct (sendMessageStream _ _ _) as [s|e].
  2:{ exists []. cbn. auto. }
  match goal with
  | |- context [consume others chat (arrivals s) (failure s) [] 0 ?w0] =>
      pose proof (consume_trace others chat (arrivals s) (failure s) [] 0 w0)
        as Hc;
      destruct (consume others chat (arrivals s) (failure s) [] 0 w0)
        as [res w2]
  end.
  cbn [snd trace] in Hc.
  destruct res as [full|e].
  - destruct (isStoppedRef (appState w2)).
    + exists []. cbn. rewrite Hc. auto.
    + match goal with
      | |- context [autoSpeak ?t ?u ?w0] =>
          destruct (autoSpeak_state t u w0) as [Hs1 _];
          destruct (autoSpeak_trace t u w0) as [spoken [Hs2 Hs3]];
          destruct (autoSpeak t u w0) as [res w3]
      end.
      cbn [fst snd trace] in Hs1, Hs2. subst res. cbn [fst snd].
      exists spoken. rewrite Hs2, Hc, <- app_assoc. split; [reflexivity|].
      destruct Hs3 as [->|[-> [Ht Hu]]]; eauto.
  - exists []. cbn. rewrite Hc. auto.
Qed.

(** The calls of [submitMessage] as a handler of [render] runs it, whatever
    the state and the other handlers: none when the guard of the render turns
    the call down; else at most the title request, then the expected call of
    the [try] statement, then at most one utterance. *)
Lemma runTurnFrom_trace (env : Env) (others : Meanwhile) (render : AppState)
  (messageContent : jsstring) (st : AppState) :
  match turnRuns messageContent render with
  | Some (chat, seen) =>
      exists titleCalls spoken,
        trace (snd (runTurnFrom env others render messageContent st))
        = titleCalls
          ++ expectedCall env messageContent (imageFile render) (messages seen)
          ++ spoken
        /\ (titleCalls = []
            \/ (titleCalls = [CallGenerateTitle (titlePrompt messageContent)]
                /\ wantsTitle (messages seen) messageContent = true))
        /\ (spoken = []
            \/ exists u, spoken = [Speak u] /\ isTtsEnabled render = true
                         /\ truthy u = true)
  | None => trace (snd (runTurnFrom env others render messageContent st)) = []
  end.
Proof.
  unfold turnRuns, runTurnFrom, submitMessage.
  cbv [bind getApp update ret throw]. cbn [appState trace].
  destruct (accepted messageContent render); cbn [negb]; [|reflexivity].
  destruct (currentChatId render) as [chat|]; [|reflexivity].
  destruct (obj_get chat (conversations render)) as [seen|]; [|reflexivity].
  unfold turn. cbv [bind getApp update ret tryFinally]. cbn [appState trace].
  set (st1 := openTurn chat _ (clearDraft st)).
  destruct (wantsTitle (messages seen) messageContent).
  - destruct (getChatTitle_spec env messageContent (mkWorld st1 []))
      as [t [calls [Heq [Hcalls _]]]].
    rewrite Heq. cbn [appState trace app].
    destruct (attempt_trace env others chat messageContent (imageFile render)
                (isTtsEnabled render) (messages seen) (mkWorld st1 calls))
      as [spoken [Htr Hsp]].
    destruct (tryCatch _ _ (mkWorld st1 calls)) as [res w2].
    cbn [snd trace] in Htr.
    exists calls, spoken. split; [|split; [|exact Hsp]].
    + destruct res; cbn [fst snd trace]; exact Htr.
    + destruct Hcalls as [->| ->]; [left; reflexivity|right; split; reflexivity].
  - destruct (attempt_trace env others chat messageContent (imageFile render)
                (isTtsEnabled render) (messages seen) (mkWorld st1 []))
      as [spoken [Htr Hsp]].
    destruct (tryCatch _ _ (mkWorld st1 [])) as [res w2].
    cbn [snd trace] in Htr.
    exists [], spoken. split; [|split; [left; reflexivity|exact Hsp]].
    destruct res; cbn [fst snd trace]; exact Htr.
Qed.

Lemma runTurn_trace (env : Env) (messageContent : jsstring) (st : AppState) :
  match turnRuns messageContent st with
  | Some (chat, conv) =>
      exists titleCalls spoken,
        trace (snd (runTurn env messageContent st))
        = titleCalls
          ++ expectedCall env messageContent (imageFile st) (messages conv)
          ++ spoken
        /\ (titleCalls = []
            \/ (titleCalls = [CallGenerateTitle (titlePrompt messageContent)]
                /\ wantsTitle (messages conv) messageContent = true))
        /\ (spoken = [] \/ exists u, spoken = [Speak u])
  | None => trace (snd (runTurn env messageContent st)) = []
  end.
Proof.
  pose proof (runTurnFrom_trace env idle st messageContent st) as H.
  change (runTurnFrom env idle st messageContent st)
    with (runTurn env messageContent st) in H.
  destruct (turnRuns messageContent st) as [[chat conv]|]; [|exact H].
  destruct H as [titleCalls [spoken [Htr [Ht Hs]]]].
  exists titleCalls, spoken. split; [exact Htr|]. split; [exact Ht|].
  destruct Hs as [->|[u [-> _]]]; eauto.
Qed.

Lemma expectedCall_fits (env : Env) (messageContent : jsstring)
  (file : option File) (historySource : list Message) :
  Forall (fitsDispatch messageContent file)
    (expectedCall env messageContent file historySource)
  /\ length (expectedCall env messageContent file historySource) <= 1.
Proof.
  unfold expectedCall, fitsDispatch, dispatch.
  destruct (truthy_opt (API_KEY env)); cbn [negb]; [|split; [constructor|cbn; lia]].
  destruct (startsWith (trim messageContent) GENERATE_PREFIX).
  { destruct (truthy (trim (skipn 10 messageContent))); cbn [negb];
      (split; [repeat constructor|cbn; lia]). }
  destruct file as [f|].
  - destruct (fileToBase64 (remote env) f);
      (split; [repeat constructor|cbn; lia]).
  - split; [repeat constructor|cbn; lia].
Qed.

(** Every call of a turn belongs to the way selected by the prefix and by
    the staging slot of the render of its handler, and at most one call of a
    turn is a call of a way. *)
Lemma runTurnFrom_calls_fit (env : Env) (others : Meanwhile)
  (render : AppState) (messageContent : jsstring) (st : AppState) :
  Forall (fitsDispatch messageContent (imageFile render))
    (trace (snd (runTurnFrom env others render messageContent st)))
  /\ length
       (filter isPathCall
          (trace (snd (runTurnFrom env others render messageContent st))))
     <= 1.
Proof.
  pose proof (runTurnFrom_trace env others render messageContent st) as H.
  destruct (turnRuns messageContent render) as [[chat seen]|].
  - destruct H as [titleCalls [spoken [-> [Ht Hs]]]].
    destruct (expectedCall_fits env messageContent (imageFile render)
                (messages seen)) as [Hfit Hlen].
    assert (Htitle : Forall (fitsDispatch messageContent (imageFile render))
                       titleCalls
                     /\ filter isPathCall titleCalls = []).
    { destruct Ht as [->|[-> _]]; split; repeat constructor. }
    assert (Hspoken : Forall (fitsDispatch messageContent (imageFile render))
                        spoken
                      /\ filter isPathCall spoken = []).
    { destruct Hs as [->|[u [-> _]]]; split; repeat constructor. }
    destruct Htitle as [Ht1 Ht2]. destruct Hspoken as [Hs1 Hs2]. split.
    + apply Forall_app; split; [exact Ht1|].
      apply Forall_app; split; assumption.
    + rewrite !filter_app, Ht2, Hs2, app_nil_r. cbn [app].
      pose proof (filter_length_le isPathCall
                    (expectedCall env messageContent (imageFile render)
                       (messages seen))).
      lia.
  - rewrite H. split; [constructor|cbn; lia].
Qed.

(** C5. The claim fails for a dictated message.  The recognition handler
    keeps the [submitMessage] of the render in which the current chat was
    last changed; a picture staged since then is not the [imageFile] of that
    render.  With the picture of the example staged and "describe this"
    dictated, the turn calls the streaming service and empties the staging
    slot, and the picture is sent nowhere; the same message sent from the
    form goes to the image service and makes no streaming call. *)
Theorem dictated_turn_streams_staged_image :
  imageFile exampleDictated = Some examplePng
  /\ imageFile exampleState = None
  /\ trace
       (snd (runTurnFrom imagingEnv idle exampleState (lit "describe this")
               exampleDictated))
     = [CallGenerateTitle (titlePrompt (lit "describe this"));
        CallSendMessageStream [] (lit "describe this")]
  /\ imageFile
       (appState
          (snd (runTurnFrom imagingEnv idle exampleState (lit "describe this")
                  exampleDictated)))
     = None
  /\ trace (snd (runTurn imagingEnv (lit "describe this") exampleDictated))
     = [CallGenerateTitle (titlePrompt (lit "describe this"));
        CallGenerateContent (mkInlineData (lit "image/png") (lit "BBBB"))
          (Some (lit "describe this"))].
Proof. repeat split; vm_compute; reflexivity. Qed.

(** X20. Every call of a turn belongs to the one way selected by the
    "/generate " prefix of the trimmed text and by the image that the render
    of the handler had staged, whatever the state and the other handlers;
    at most one of the calls is a call of a way, so that the three ways
    exclude one another; and a handler whose render had an image staged
    makes no streaming call, whatever the text. *)
Theorem calls_fit_dispatch_of_render (env : Env) (others : Meanwhile)
  (render : AppState) (messageContent : jsstring) (st : AppState) :
  let calls :=
    trace (snd (runTurnFrom env others render messageContent st)) in
  (forall e p, In e calls -> pathOf e = Some p ->
     p = dispatch messageContent (imageFile render))
  /\ length (filter isPathCall calls) <= 1
  /\ (imageFile render <> None ->
      dispatch messageContent (imageFile render) <> TextStreaming
      /\ forall history message,
           ~ In (CallSendMessageStream history message) calls).
Proof.
  intros calls. subst calls.
  destruct (runTurnFrom_calls_fit env others render messageContent st)
    as [Hfit Hlen].
  rewrite Forall_forall in Hfit.
  split; [|split; [exact Hlen|]].
  - intros e p Hin Hp. specialize (Hfit e Hin).
    unfold fitsDispatch in Hfit. rewrite Hp in Hfit. exact Hfit.
  - intros Hf.
    assert (Hd : dispatch messageContent (imageFile render) <> TextStreaming).
    { unfold dispatch. destruct (imageFile render); [|contradiction].
      destruct (startsWith (trim messageContent) GENERATE_PREFIX);
        discriminate. }
    split; [exact Hd|].
    intros history message Hin. apply Hd.
    symmetry. exact (Hfit _ Hin).
Qed.

(** The three ways on the example state. *)
Example dispatch_examples :
  dispatch (lit "/generate a cat") None = ImageGeneration
  /\ dispatch (lit "  /generate a cat") (Some examplePng) = ImageGeneration
  /\ dispatch (lit "describe this") (Some examplePng) = ImageUnderstanding
  /\ dispatch [] (Some examplePng) = ImageUnderstanding
  /\ dispatch (lit "/generate") None = TextStreaming
  /\ dispatch (lit "hello") None = TextStreaming.
Proof. repeat split; reflexivity. Qed.

(** ** The turn: the history of the text way *)

(** What the cut is written for, by the comment beside it: on an array
    that ended with the user message and the placeholder, both kept by the
    filter, the history would be made of the kept messages before these
    two. *)
Lemma chatHistory_after_pushes (prior : list Message) (u p : Message) :
  inTextHistory u = true ->
  inTextHistory p = true ->
  chatHistory (push p (push u prior))
  = map toContent (filter inTextHistory prior).
Proof.
  intros Hu Hp. unfold chatHistory, push.
  rewrite <- app_assoc, filter_app. cbn [app filter]. rewrite Hu, Hp.
  apply (f_equal (map toContent)).
  exact (slice_0_neg_app (filter inTextHistory prior) [u; p]).
Qed.

(** C6. The cut does not remove the user message of the turn and the
    placeholder: when the history is built they are not on the array yet.  In
    a conversation that holds one exchange, a typed message is sent with an
    empty history: the two messages cut off are those of the previous
    exchange, which the service never sees. *)
Theorem history_drops_previous_exchange :
  option_map messages
    (obj_get (lit "chat_1700000000000") (conversations exampleState))
  = Some [mkMessage USER (lit "hello") None; mkMessage MODEL (lit "Hi") None]
  /\ trace
       (snd (runTurn (streamingEnv (mkStream [Chunk (lit "Bye")] None))
               (lit "and then?")
               (setUserInput (lit "and then?")
                  (setCurrentChatId (Some (lit "chat_1700000000000"))
                     exampleState))))
     = [CallSendMessageStream [] (lit "and then?")]
  /\ map toContent
       (filter inTextHistory
          [mkMessage USER (lit "hello") None; mkMessage MODEL (lit "Hi") None])
     = [mkContent USER (lit "hello"); mkContent MODEL (lit "Hi")].
Proof. repeat split; vm_compute; reflexivity. Qed.

(** What the positional cut does on other arrays: on the array as it is
    read, before the pushes, the conversation loses its own last two
    messages; and were the two messages on the array, a user message that
    carries an image would be filtered out, so that one earlier message
    would be cut in its place. *)
Example chatHistory_fragile :
  chatHistory [mkMessage USER (lit "hello") None; mkMessage MODEL (lit "Hi") None]
  = []
  /\ chatHistory
       [mkMessage USER (lit "hello") None; mkMessage MODEL (lit "Hi") None;
        mkMessage USER (lit "and then?") (Some (lit "data:image/png;base64,AAAA"));
        placeholder]
     = [mkContent USER (lit "hello")].
Proof. split; reflexivity. Qed.

(** X21. A streamed call carries the text submitted and, as its history,
    the messages that the conversation held when the handler was called,
    error messages and image messages left out, without the last two of
    them: the user message of the turn and the placeholder are not on the
    array when it is read, and it is the end of the earlier conversation
    that the cut removes. *)
Theorem history_is_prior_cut (env : Env) (others : Meanwhile)
  (render : AppState) (messageContent : jsstring) (st : AppState)
  (history : list Content) (message : jsstring) :
  In (CallSendMessageStream history message)
    (trace (snd (runTurnFrom env others render messageContent st))) ->
  exists chat seen,
    turnRuns messageContent render = Some (chat, seen)
    /\ message = messageContent
    /\ history
       = map toContent
           (slice_0_neg 2 (filter inTextHistory (messages seen)))
    /\ length history = length (filter inTextHistory (messages seen)) - 2.
Proof.
  intros Hin.
  pose proof (runTurnFrom_trace env others render messageContent st) as H.
  destruct (turnRuns messageContent render) as [[chat seen]|].
  2:{ rewrite H in Hin. contradiction. }
  destruct H as [titleCalls [spoken [Heq [Ht Hs]]]].
  assert (Hcall : In (CallSendMessageStream history message)
                    (expectedCall env messageContent (imageFile render)
                       (messages seen))).
  { rewrite Heq in Hin. apply in_app_or in Hin. destruct Hin as [Hin|Hin].
    - destruct Ht as [->|[-> _]]; [contradiction|].
      destruct Hin as [Hin|[]]. discriminate Hin.
    - apply in_app_or in Hin. destruct Hin as [Hin|Hin]; [exact Hin|].
      destruct Hs as [->|[u [-> _]]]; [contradiction|].
      destruct Hin as [Hin|[]]. discriminate Hin. }
  exists chat, seen. split; [reflexivity|].
  unfold expectedCall in Hcall.
  destruct (truthy_opt (API_KEY env)); cbn [negb] in Hcall; [|contradiction].
  destruct (startsWith (trim messageContent) GENERATE_PREFIX).
  { destruct (truthy (trim (skipn 10 messageContent))); cbn [negb] in Hcall;
      [|contradiction].
    destruct Hcall as [Hc|[]]. discriminate Hc. }
  destruct (imageFile render) as [f|].
  - destruct (fileToBase64 (remote env) f); [|contradiction].
    destruct Hcall as [Hc|[]]. discriminate Hc.
  - destruct Hcall as [Hc|[]]. injection Hc as <- <-.
    split; [reflexivity|]. split; [reflexivity|].
    unfold chatHistory, slice_0_neg. rewrite length_map, length_firstn.
    lia.
Qed.

Lemma history_is_prior_cut_witness :
  exists chat seen,
    turnRuns (lit "and then?")
      (setCurrentChatId (Some (lit "chat_1700000000000")) exampleState)
    = Some (chat, seen)
    /\ lit "and then?" = lit "and then?"
    /\ @nil Content
       = map toContent
           (slice_0_neg 2 (filter inTextHistory (messages seen)))
    /\ length (@nil Content)
       = length (filter inTextHistory (messages seen)) - 2.
Proof.
  apply (@history_is_prior_cut
           (streamingEnv (mkStream [Chunk (lit "Bye")] None)) exampleOthers
           (setCurrentChatId (Some (lit "chat_1700000000000")) exampleState)
           (lit "and then?")
           (setCurrentChatId (Some (lit "chat_1700000000000")) exampleState)
           [] (lit "and then?")).
  vm_compute. left. reflexivity.
Defined.

(** ** The title request *)

Lemma turnRuns_Some (messageContent : jsstring) (st : AppState)
  (chat : jsstring) (conv : Conversation) :
  turnRuns messageContent st = Some (chat, conv) ->
  accepted messageContent st = true
  /\ currentChatId st = Some chat
  /\ obj_get chat (conversations st) = Some conv.
Proof.
  unfold turnRuns.
  destruct (accepted messageContent st); [|discriminate].
  destruct (currentChatId st) as [c|]; [|discriminate].
  destruct (obj_get c (conversations st)) as [v|] eqn:E; [|discriminate].
  intros H. injection H as <- <-. auto.
Qed.

Lemma expectedCall_path (env : Env) (messageContent : jsstring)
  (file : option File) (historySource : list Message) (e : Event) :
  In e (expectedCall env messageContent file historySource) ->
  isPathCall e = true.
Proof.
  unfold expectedCall.
  destruct (truthy_opt (API_KEY env)); cbn [negb]; [|contradiction].
  destruct (startsWith (trim messageContent) GENERATE_PREFIX).
  { destruct (truthy (trim (skipn 10 messageContent))); cbn [negb];
      [|contradiction].
    intros [<-|[]]. reflexivity. }
  destruct file as [f|].
  - destruct (fileToBase64 (remote env) f); [|contradiction].
    intros [<-|[]]. reflexivity.
  - intros [<-|[]]. reflexivity.
Qed.

(** A title is requested from the service only in the first turn of a
    conversation. *)
Lemma title_only_first_turn (env : Env) (messageContent : jsstring)
  (st : AppState) (p : jsstring) :
  In (CallGenerateTitle p) (trace (snd (runTurn env messageContent st))) ->
  exists chat conv,
    currentChatId st = Some chat
    /\ obj_get chat (conversations st) = Some conv
    /\ messages conv = [].
Proof.
  intros Hin. pose proof (runTurn_trace env messageContent st) as H.
  destruct (turnRuns messageContent st) as [[chat conv]|] eqn:Eruns.
  - destruct (turnRuns_Some _ _ Eruns) as [_ [Hcur Hg]].
    exists chat, conv. split; [exact Hcur|]. split; [exact Hg|].
    destruct H as [titleCalls [spoken [Heq [Ht Hs]]]].
    rewrite Heq in Hin. apply in_app_or in Hin. destruct Hin as [Hin|Hin].
    + destruct Ht as [->|[_ Hw]]; [contradiction|].
      unfold wantsTitle in Hw. rewrite !andb_true_iff in Hw.
      destruct Hw as [[Hlen _] _]. apply Nat.eqb_eq in Hlen.
      destruct (messages conv); [reflexivity|discriminate Hlen].
    + apply in_app_or in Hin. destruct Hin as [Hin|Hin].
      * apply expectedCall_path in Hin. discriminate Hin.
      * destruct Hs as [->|[u ->]]; [contradiction|].
        destruct Hin as [Hin|[]]. discriminate Hin.
  - rewrite H in Hin. contradiction.
Qed.

(** The messages that a turn leaves do not depend on the title service. *)
Lemma turn_ignores_title_service (env : Env)
  (g : jsstring -> Awaited jsstring) (messageContent : jsstring)
  (st : AppState) (chat : jsstring) (conv : Conversation) :
  turnRuns messageContent st = Some (chat, conv) ->
  fst (runTurn (withTitleService env g) messageContent st) = Normal tt
  /\ option_map messages
       (obj_get chat
          (conversations
             (appState (snd (runTurn (withTitleService env g) messageContent st)))))
     = option_map messages
         (obj_get chat
            (conversations (appState (snd (runTurn env messageContent st))))).
Proof.
  intros Hruns. destruct (turnRuns_Some _ _ Hruns) as [Hacc [Hcur Hg]].
  destruct (@runTurn_outcome (withTitleService env g) messageContent st chat
              conv Hacc Hcur Hg) as [Hres [_ [t1 H1]]].
  destruct (@runTurn_outcome env messageContent st chat conv Hacc Hcur Hg)
    as [_ [_ [t2 H2]]].
  split; [exact Hres|]. rewrite H1, H2. reflexivity.
Qed.

(** C9. When credentials are absent or the title call is rejected,
    [getChatTitle] returns "New Chat", does not throw and leaves the state as
    it was.  In any turn a title is requested from the service only when the
    conversation had no message before the turn; and a turn that runs ends
    normally with the same messages whatever the title service does. *)
Theorem getChatTitle_best_effort (env : Env) (firstMessage : jsstring)
  (w : World) :
  truthy_opt (API_KEY env) = false
  \/ (exists e,
        generateTitle (remote env) (titlePrompt firstMessage) = Rejected e) ->
  fst (getChatTitle env firstMessage w) = Normal NEW_CHAT
  /\ appState (snd (getChatTitle env firstMessage w)) = appState w
  /\ (forall messageContent st p,
        In (CallGenerateTitle p) (trace (snd (runTurn env messageContent st))) ->
        exists chat conv,
          currentChatId st = Some chat
          /\ obj_get chat (conversations st) = Some conv
          /\ messages conv = [])
  /\ (forall g messageContent st chat conv,
        turnRuns messageContent st = Some (chat, conv) ->
        fst (runTurn (withTitleService env g) messageContent st) = Normal tt
        /\ option_map messages
             (obj_get chat
                (conversations
                   (appState
                      (snd (runTurn (withTitleService env g) messageContent st)))))
           = option_map messages
               (obj_get chat
                  (conversations
                     (appState (snd (runTurn env messageContent st)))))).
Proof.
  intros Hdeg.
  destruct (getChatTitle_spec env firstMessage w)
    as [t [calls [Heq [_ [Hkey Hrej]]]]].
  rewrite Heq. cbn [fst snd appState].
  split; [|split; [reflexivity|split]].
  - f_equal. destruct Hdeg as [Hk|[e He]].
    + apply Hkey. exact Hk.
    + exact (Hrej e He).
  - intros messageContent st p. apply title_only_first_turn.
  - intros g messageContent st chat conv. apply turn_ignores_title_service.
Qed.

Lemma getChatTitle_best_effort_witness :
  fst (getChatTitle failingEnv (lit "hello") (mkWorld exampleState []))
  = Normal (lit "New Chat")
  /\ fst (getChatTitle (mkEnv None failingRemote) (lit "hello")
            (mkWorld exampleState []))
     = Normal (lit "New Chat").
Proof.
  split.
  - apply (@getChatTitle_best_effort failingEnv (lit "hello")
             (mkWorld exampleState [])).
    right. exists (lit "network down"). reflexivity.
  - apply (@getChatTitle_best_effort (mkEnv None failingRemote)
             (lit "hello") (mkWorld exampleState [])).
    left. reflexivity.
Defined.

(** A title that the service returns is trimmed and loses its quotes; the
    turn puts it on the conversation. *)
Example title_applied :
  option_map title
    (obj_get (lit "chat_1700000005000")
       (conversations
          (appState
             (snd (runTurn
                     (withTitleService (streamingEnv (mkStream [] None))
                        (fun _ => Resolved ([34%N] ++ lit " Trip plans " ++ [34%N])))
                     (lit "hello") exampleState)))))
  = Some (lit "Trip plans").
Proof. vm_compute. reflexivity. Qed.

(** ** The example of the specification, end to end *)

(** From no conversation at all, a first one is made; "hello" is sent and the
    chunks "Hi" and "there" arrive: the conversation holds the user message and
    the assembled answer, the turn is over, and the calls were the title
    request and the streamed message with an empty history. *)
Example hello_turn :
  let st0 := mkAppState [] None [] false system false None None false in
  let st1 := startNewChat 1700000000000 st0 in
  let r := runTurn
             (streamingEnv (mkStream [Chunk (lit "Hi"); Chunk (lit "there")] None))
             (lit "hello") st1 in
  conversations st1
  = [(lit "chat_1700000000000",
      mkConversation (lit "chat_1700000000000") (lit "New Chat") [])]
  /\ fst r = Normal tt
  /\ conversations (appState (snd r))
     = [(lit "chat_1700000000000",
         mkConversation (lit "chat_1700000000000") (lit "Greeting")
           [mkMessage USER (lit "hello") None;
            mkMessage MODEL (lit "Hithere") None])]
  /\ isLoading (appState (snd r)) = false
  /\ trace (snd r)
     = [CallGenerateTitle (titlePrompt (lit "hello"));
        CallSendMessageStream [] (lit "hello")].
Proof. repeat split; vm_compute; reflexivity. Qed.

(** A second turn is refused while the first one is running. *)
Example busy_turn_refused :
  runTurn failingEnv (lit "again") (setIsLoading true exampleState)
  = (Normal tt, mkWorld (setIsLoading true exampleState) []).
Proof. reflexivity. Qed.


(** * Further properties of the component *)

(** ** The sidebar order *)

Section SortFacts.
Variable A : Type.
Variable stamp : A -> option Z.

Lemma insertSorted_perm (cmp : A -> A -> option Z) (x : A) (l : list A) :
  Permutation (insertSorted cmp x l) (x :: l).
Proof.
  induction l as [|y l IH]; cbn [insertSorted]; [reflexivity|].
  destruct (Z.ltb 0 (sortCompare cmp x y)); [|reflexivity].
  rewrite IH. apply perm_swap.
Qed.

Lemma sort_perm (cmp : A -> A -> option Z) (l : list A) :
  Permutation (sort cmp l) l.
Proof.
  induction l as [|x l IH]; cbn [sort fold_right]; [reflexivity|].
  fold (sort cmp l). rewrite insertSorted_perm, IH. reflexivity.
Qed.

Lemma insertSorted_sorted (x : A) (l : list A) :
  stamp x <> None ->
  Forall (fun y => stamp y <> None) l ->
  StronglySorted (noNewer stamp) l ->
  StronglySorted (noNewer stamp) (insertSorted (byStamp stamp) x l).
Proof.
  intros Hx Hl Hs. induction Hs as [|y l Hs IH Hy]; cbn [insertSorted].
  - constructor; constructor.
  - inversion Hl as [|? ? Hsy Hl']; subst.
    destruct (stamp x) as [tx|] eqn:Ex; [|congruence].
    destruct (stamp y) as [ty|] eqn:Ey; [|congruence].
    unfold sortCompare, byStamp. rewrite Ex, Ey.
    destruct (Z.ltb_spec 0 (ty - tx)) as [Hlt|Hge].
    + constructor; [exact (IH Hl')|].
      assert (Hperm := insertSorted_perm (byStamp stamp) x l).
      apply Forall_forall. intros z Hz.
      apply (Permutation_in _ Hperm) in Hz. destruct Hz as [<-|Hz].
      * intros ta tb Ha Hb. rewrite Ey in Ha. rewrite Ex in Hb.
        injection Ha as <-. injection Hb as <-. lia.
      * rewrite Forall_forall in Hy. exact (Hy z Hz).
    + constructor; [constructor; assumption|].
      constructor.
      * intros ta tb Ha Hb. rewrite Ex in Ha. rewrite Ey in Hb.
        injection Ha as <-. injection Hb as <-. lia.
      * rewrite Forall_forall in Hy |- *. intros z Hz ta tb Ha Hb.
        rewrite Ex in Ha. injection Ha as <-.
        specialize (Hy z Hz ty tb Ey Hb). lia.
Qed.

Lemma sort_sorted (l : list A) :
  Forall (fun y => stamp y <> None) l ->
  StronglySorted (noNewer stamp) (sort (byStamp stamp) l).
Proof.
  induction 1 as [|x l Hx Hl IH]; cbn [sort fold_right]; [constructor|].
  fold (sort (byStamp stamp) l). apply insertSorted_sorted; [exact Hx| |exact IH].
  apply Forall_forall. intros z Hz.
  apply (Permutation_in _ (sort_perm (byStamp stamp) l)) in Hz.
  rewrite Forall_forall in Hl. exact (Hl z Hz).
Qed.
End SortFacts.

Lemma hasCreationTime_stamp (k : jsstring) :
  hasCreationTime k = true -> timestamp k <> None.
Proof.
  unfold hasCreationTime. destruct (timestamp k); [discriminate|discriminate].
Qed.

(** X2. The sidebar lists every conversation of the store exactly once, and
    when the ids carry creation times no conversation stands before a newer
    one. *)
Theorem sortedConversations_newest_first (s : Store) :
  forallb (fun kv => hasCreationTime (id (snd kv))) s = true ->
  Permutation (sortedConversations s) (map snd s)
  /\ StronglySorted
       (fun a b => forall ta tb,
            timestamp (id a) = Some ta -> timestamp (id b) = Some tb ->
            (tb <= ta)%Z)
       (sortedConversations s).
Proof.
  intros Hids. unfold sortedConversations. split.
  - apply sort_perm.
  - apply (@sort_sorted Conversation (fun c => timestamp (id c))).
    apply Forall_forall. intros c Hc. apply in_map_iff in Hc.
    destruct Hc as [[k c'] [<- Hin]].
    rewrite forallb_forall in Hids. apply hasCreationTime_stamp.
    exact (Hids _ Hin).
Qed.

Lemma sortedConversations_newest_first_witness :
  Permutation (sortedConversations exampleStore) (map snd exampleStore)
  /\ map id (sortedConversations exampleStore)
     = [lit "chat_1700000005000"; lit "chat_1700000003000";
        lit "chat_1700000000000"].
Proof.
  destruct (@sortedConversations_newest_first exampleStore eq_refl) as [Hp _].
  split; [exact Hp|reflexivity].
Defined.

(** ** What a turn leaves alone *)

Lemma touchesOnly_refl (chat : jsstring) (st : AppState) :
  touchesOnly chat st st.
Proof. unfold touchesOnly. repeat split; reflexivity. Qed.

Lemma touchesOnly_trans (chat : jsstring) (a b c : AppState) :
  touchesOnly chat a b -> touchesOnly chat b c -> touchesOnly chat a c.
Proof.
  unfold touchesOnly.
  intros [H1 [H2 [H3 [H4 [H5 [H6 [H7 H8]]]]]]]
         [G1 [G2 [G3 [G4 [G5 [G6 [G7 G8]]]]]]].
  repeat split; try congruence.
  intros k Hk. rewrite (G8 k Hk). exact (H8 k Hk).
Qed.

Lemma touchesOnly_mutate (chat : jsstring) (g : Conversation -> Conversation)
  (a b : AppState) :
  touchesOnly chat a b ->
  touchesOnly chat a (setConversations (obj_mutate chat g) b).
Proof.
  intros H. apply (touchesOnly_trans H). unfold touchesOnly.
  cbn [setConversations currentChatId userInput theme isTtsEnabled imageFile
       imagePreview conversations].
  repeat split; try reflexivity.
  - apply obj_keys_mutate.
  - intros k Hk. apply obj_get_mutate_other. congruence.
Qed.

Lemma touchesOnly_updateLastMessage (chat chunk : jsstring) (isDone : bool)
  (a b : AppState) :
  touchesOnly chat a b ->
  touchesOnly chat a
    (setConversations (updateLastMessage (Some chat) chunk isDone) b).
Proof.
  intros H. unfold updateLastMessage. destruct (truthy chat).
  - apply touchesOnly_mutate. exact H.
  - apply (touchesOnly_trans H). unfold touchesOnly. cbn.
    repeat split; reflexivity.
Qed.

Lemma touchesOnly_flags (chat : jsstring) (a b : AppState) :
  touchesOnly chat a b ->
  touchesOnly chat a (handleStop b)
  /\ touchesOnly chat a (setIsStopped false b)
  /\ forall v, touchesOnly chat a (setIsLoading v b).
Proof.
  intros H. repeat split; try intros v;
    apply (touchesOnly_trans H); unfold touchesOnly; cbn;
    repeat split; reflexivity.
Qed.

Lemma consume_frame (chat : jsstring) (stream : list StreamEvent)
  (ending : option jsstring) (full : jsstring) (n : nat) (w : World)
  (st : AppState) :
  touchesOnly chat st (appState w) ->
  touchesOnly chat st
    (appState (snd (consume idle chat stream ending full n w))).
Proof.
  revert full n w. induction stream as [|[t|] rest IH]; intros full n w H.
  - rewrite consume_end. exact H.
  - rewrite consume_chunk. cbn [idle whileStreaming whileClosing].
    destruct (isStoppedRef (appState w)); [exact H|].
    apply IH. cbn [appState]. apply touchesOnly_updateLastMessage. exact H.
  - rewrite consume_stop. apply IH. cbn [appState].
    apply touchesOnly_flags. exact H.
Qed.

(** The [try] statement of a turn that runs alone changes nothing but the
    conversation of the turn and the stop flag. *)
Lemma attempt_frame (env : Env) (chat messageContent : jsstring)
  (file : option File) (ttsEnabled : bool) (historySource : list Message)
  (w : World) (st : AppState) :
  touchesOnly chat st (appState w) ->
  touchesOnly chat st
    (appState
       (snd (tryCatch
               (tryBlock env idle chat messageContent file ttsEnabled
                  historySource)
               (catchBlock chat messageContent file) w))).
Proof.
  intros H.
  cbv [tryCatch tryBlock catchBlock bind await awaitAmong settle emit ret
       throw getApp update idle whileCalling whileReadingFile].
  cbn [appState trace].
  unfold replaceLast.
  destruct (truthy_opt (API_KEY env)); cbn [negb].
  2:{ cbn [snd appState]. apply touchesOnly_mutate. exact H. }
  destruct (startsWith (trim messageContent) GENERATE_PREFIX).
  { destruct (truthy (trim (skipn (length GENERATE_PREFIX) messageContent)));
      cbn [negb].
    2:{ cbn [snd appState]. apply touchesOnly_mutate. exact H. }
    destruct (generateImages _ _); cbn [snd appState];
      apply touchesOnly_mutate; exact H. }
  destruct file as [f|].
  { destruct (fileToBase64 (remote env) f) as [d|e].
    2:{ cbn [snd appState]. apply touchesOnly_mutate. exact H. }
    destruct (generateContent _ _ _) as [response|e].
    2:{ cbn [snd appState]. apply touchesOnly_mutate. exact H. }
    match goal with
    | |- context [autoSpeak ?t ?u ?w0] =>
        destruct (autoSpeak_state t u w0) as [Hs1 Hs2];
        destruct (autoSpeak t u w0) as [res w2]
    end.
    cbn [fst snd appState] in Hs1, Hs2. subst res. cbn [fst snd].
    rewrite Hs2. apply touchesOnly_mutate. exact H. }
  destruct (sendMessageStream _ _ _) as [s|e].
  2:{ cbn [snd appState]. apply touchesOnly_mutate. exact H. }
  match goal with
  | |- context [consume ?o chat (arrivals s) (failure s) [] 0 ?w0] =>
      change o with idle;
      pose proof (@consume_frame chat (arrivals s) (failure s) [] 0 w0 st H)
        as Hc;
      destruct (consume idle chat (arrivals s) (failure s) [] 0 w0)
        as [res w2]
  end.
  cbn [snd] in Hc. destruct res as [full|e].
  - destruct (isStoppedRef (appState w2)).
    + cbn [snd appState]. apply touchesOnly_updateLastMessage. exact Hc.
    + match goal with
      | |- context [autoSpeak ?t ?u ?w0] =>
          destruct (autoSpeak_state t u w0) as [Hs1 Hs2];
          destruct (autoSpeak t u w0) as [res w3]
      end.
      cbn [fst snd appState] in Hs1, Hs2. subst res. cbn [fst snd].
      rewrite Hs2. apply touchesOnly_updateLastMessage. exact Hc.
  - cbn [snd appState]. apply touchesOnly_mutate. exact Hc.
Qed.

(** A turn that runs leaves the draft and the staging slot empty and changes
    nothing else but its conversation, the running flag and the stop flag. *)
Lemma runTurn_frame (env : Env) (messageContent : jsstring) (st : AppState)
  (chat : jsstring) (conv : Conversation) :
  turnRuns messageContent st = Some (chat, conv) ->
  touchesOnly chat (clearDraft st)
    (appState (snd (runTurn env messageContent st))).
Proof.
  intros Hruns. destruct (turnRuns_Some _ _ Hruns) as [Hacc [Hcur Hg]].
  unfold runTurn, submitMessage.
  cbv [bind getApp update ret]. cbn [appState trace].
  rewrite Hacc, Hcur, Hg. cbn [negb].
  unfold turn. cbv [bind getApp update ret tryFinally]. cbn [appState trace].
  set (user := mkMessage USER messageContent (imagePreview st)).
  set (st1 := openTurn chat user (clearDraft st)).
  assert (H1 : touchesOnly chat (clearDraft st) st1).
  { subst st1. unfold openTurn.
    apply touchesOnly_flags, touchesOnly_mutate, touchesOnly_flags,
      touchesOnly_refl. }
  assert (Hmain : forall w1 : World, appState w1 = st1 ->
            touchesOnly chat (clearDraft st)
              (appState
                 (snd (tryCatch
                         (tryBlock env idle chat messageContent (imageFile st)
                            (isTtsEnabled st) (messages conv))
                         (catchBlock chat messageContent (imageFile st)) w1)))).
  { intros w1 Hw1. apply attempt_frame. rewrite Hw1. exact H1. }
  destruct (wantsTitle (messages conv) messageContent).
  - destruct (getChatTitle_spec env messageContent (mkWorld st1 []))
      as [t [calls [Heq _]]].
    rewrite Heq. cbn [appState trace].
    specialize (Hmain (mkWorld st1 ([] ++ calls)) eq_refl).
    destruct (tryCatch _ _ (mkWorld st1 ([] ++ calls))) as [res w2].
    cbn [snd] in Hmain. destruct res; cbn [fst snd appState].
    + apply touchesOnly_mutate, touchesOnly_flags. exact Hmain.
    + apply touchesOnly_flags. exact Hmain.
  - specialize (Hmain (mkWorld st1 []) eq_refl).
    destruct (tryCatch _ _ (mkWorld st1 [])) as [res w2].
    cbn [snd] in Hmain. destruct res; cbn [fst snd appState];
      apply touchesOnly_flags; exact Hmain.
Qed.

(** When no turn runs, [submitMessage] changes at most the draft and the
    staging slot, and only if the current id names no conversation. *)
Lemma runTurn_idle (env : Env) (messageContent : jsstring) (st : AppState) :
  turnRuns messageContent st = None ->
  appState (snd (runTurn env messageContent st)) = st
  \/ (accepted messageContent st = true
      /\ hasCurrent st = false
      /\ appState (snd (runTurn env messageContent st)) = clearDraft st).
Proof.
  unfold turnRuns, runTurn, submitMessage, hasCurrent.
  cbv [bind getApp update ret throw]. cbn [appState trace].
  destruct (accepted messageContent st); cbn [negb]; [|left; reflexivity].
  destruct (currentChatId st) as [chat|]; [|left; reflexivity].
  destruct (obj_get chat (conversations st)) as [conv|]; [discriminate|].
  intros _. right. repeat split; reflexivity.
Qed.

(** X6. A turn that runs changes nothing in the store but its own
    conversation: the ids of the store, in their order, and every other
    conversation are as before; the current id, the theme and the speech
    preference are as before; the draft and the staging slot are empty and no
    turn is marked as running. *)
Theorem submitMessage_touches_own_conversation (env : Env)
  (messageContent : jsstring) (st : AppState) (chat : jsstring)
  (conv : Conversation) :
  turnRuns messageContent st = Some (chat, conv) ->
  let st' := appState (snd (runTurn env messageContent st)) in
  currentChatId st' = Some chat
  /\ obj_keys (conversations st') = obj_keys (conversations st)
  /\ (forall k, k <> chat ->
        obj_get k (conversations st') = obj_get k (conversations st))
  /\ theme st' = theme st
  /\ isTtsEnabled st' = isTtsEnabled st
  /\ userInput st' = []
  /\ imageFile st' = None
  /\ imagePreview st' = None
  /\ isLoading st' = false.
Proof.
  intros Hruns st'. subst st'.
  destruct (turnRuns_Some _ _ Hruns) as [Hacc [Hcur Hg]].
  destruct (@runTurn_frame env messageContent st chat conv Hruns)
    as [H1 [H2 [H3 [H4 [H5 [H6 [H7 H8]]]]]]].
  destruct (@runTurn_outcome env messageContent st chat conv Hacc Hcur Hg)
    as [_ [Hload _]].
  unfold clearDraft in H1, H2, H3, H4, H5, H6, H7, H8.
  cbn [setImagePreview setImageFile setUserInput currentChatId userInput theme
       isTtsEnabled imageFile imagePreview conversations]
    in H1, H2, H3, H4, H5, H6, H7, H8.
  repeat split; try assumption; congruence.
Qed.

Lemma submitMessage_touches_own_conversation_witness :
  obj_get (lit "chat_1700000003000")
    (conversations
       (appState
          (snd (runTurn (streamingEnv (mkStream [Chunk (lit "Hi")] None))
                  (lit "hello") exampleStaged))))
  = obj_get (lit "chat_1700000003000") exampleStore
  /\ imageFile
       (appState
          (snd (runTurn (streamingEnv (mkStream [Chunk (lit "Hi")] None))
                  (lit "hello") exampleStaged)))
     = None.
Proof.
  destruct (@submitMessage_touches_own_conversation
              (streamingEnv (mkStream [Chunk (lit "Hi")] None)) (lit "hello")
              exampleStaged (lit "chat_1700000005000")
              (mkConversation (lit "chat_1700000005000") NEW_CHAT [])
              eq_refl)
    as [_ [_ [Hother [_ [_ [_ [Hfile _]]]]]]].
  split; [|exact Hfile].
  apply Hother. discriminate.
Defined.

(** ** The current conversation always exists *)

Lemma obj_get_in_keys {V} (k : jsstring) (o : obj V) :
  In k (obj_keys o) -> exists v, obj_get k o = Some v.
Proof.
  induction o as [|[k' v] o IH]; cbn; [contradiction|].
  intros [<-|Hin].
  - rewrite str_eqb_refl. eauto.
  - destruct (str_eqb k k'); eauto.
Qed.

Lemma sort_head_in_keys {V} (o : obj V) :
  o <> [] ->
  exists first rest v,
    sort newestFirst (obj_keys o) = first :: rest
    /\ obj_get first o = Some v.
Proof.
  intros Hne.
  pose proof (sort_perm newestFirst (obj_keys o)) as Hp.
  destruct (sort newestFirst (obj_keys o)) as [|first rest] eqn:E.
  - apply Permutation_nil in Hp. destruct o; [congruence|discriminate Hp].
  - assert (Hin : In first (obj_keys o)).
    { apply (Permutation_in _ Hp). left. reflexivity. }
    destruct (obj_get_in_keys _ _ Hin) as [v Hv]. eauto.
Qed.

Lemma hasCurrent_startNewChat (now : Z) (st : AppState) :
  hasCurrent (startNewChat now st) = true.
Proof.
  unfold hasCurrent, startNewChat. cbn. rewrite obj_get_set_same. reflexivity.
Qed.

Lemma hasCurrent_mutate (g : Conversation -> Conversation) (k : jsstring)
  (st : AppState) :
  hasCurrent (setConversations (obj_mutate k g) st) = hasCurrent st.
Proof.
  unfold hasCurrent. cbn. destruct (currentChatId st) as [c|]; [|reflexivity].
  destruct (str_eqb k c) eqn:E.
  - apply str_eqb_eq in E. subst c. rewrite obj_get_mutate_same.
    destruct (obj_get k (conversations st)); reflexivity.
  - apply str_eqb_neq in E. rewrite obj_get_mutate_other by exact E.
    reflexivity.
Qed.

Lemma hasCurrent_addMessage (m : Message) (st : AppState) :
  hasCurrent (addMessageToCurrentChat m st) = hasCurrent st.
Proof.
  unfold addMessageToCurrentChat.
  destruct (currentChatId st) as [c|] eqn:E; [|reflexivity].
  destruct (truthy c); [apply hasCurrent_mutate|reflexivity].
Qed.

Lemma hasCurrent_deleteChat (now : Z) (k : jsstring) (st : AppState) :
  hasCurrent st = true -> hasCurrent (deleteChat now k st) = true.
Proof.
  unfold deleteChat. intros H. destruct (isCurrent st k) eqn:Ec.
  - destruct (obj_delete k (conversations st)) as [|kv o] eqn:Ed.
    + change (sort newestFirst (obj_keys (@nil (jsstring * Conversation))))
        with (@nil jsstring). cbv iota.
      unfold hasCurrent.
      cbn [setCurrentChatId setConversations currentChatId conversations].
      rewrite obj_get_set_same. reflexivity.
    + destruct (@sort_head_in_keys _ (kv :: o)) as [first [rest [v [Hs Hv]]]];
        [discriminate|].
      rewrite Hs. unfold hasCurrent.
      cbn [setCurrentChatId setConversations currentChatId conversations].
      rewrite Hv. reflexivity.
  - unfold hasCurrent in *.
    cbn [setCurrentChatId setConversations currentChatId conversations].
    destruct (currentChatId st) as [c|] eqn:E; [|discriminate H].
    rewrite obj_get_delete_other; [exact H|].
    intros ->. unfold isCurrent in Ec. rewrite E, str_eqb_refl in Ec.
    discriminate Ec.
Qed.

Lemma hasCurrent_runTurn (env : Env) (messageContent : jsstring)
  (st : AppState) :
  hasCurrent st = true ->
  hasCurrent (appState (snd (runTurn env messageContent st))) = true.
Proof.
  intros H. destruct (turnRuns messageContent st) as [[chat conv]|] eqn:Er.
  - destruct (turnRuns_Some _ _ Er) as [Hacc [Hcur Hg]].
    destruct (@runTurn_frame env messageContent st chat conv Er) as [H1 _].
    destruct (@runTurn_outcome env messageContent st chat conv Hacc Hcur Hg)
      as [_ [_ [t Hg']]].
    unfold hasCurrent. rewrite H1. unfold clearDraft.
    cbn [setImagePreview setImageFile setUserInput currentChatId].
    rewrite Hcur, Hg'. reflexivity.
  - destruct (runTurn_idle env _ _ Er) as [->|[_ [Hno _]]]; congruence.
Qed.

Lemma hasCurrent_perform (a : Action) (st : AppState) :
  hasCurrent st = true -> hasCurrent (perform a st) = true.
Proof.
  intros H. destruct a; cbn [perform].
  - apply hasCurrent_startNewChat.
  - unfold switchChat.
    destruct (obj_get chat (conversations st)) eqn:E; [|exact H].
    unfold hasCurrent.
    cbn [setCurrentChatId currentChatId conversations].
    rewrite E. reflexivity.
  - apply hasCurrent_deleteChat. exact H.
  - apply hasCurrent_runTurn. exact H.
  - unfold handleFileChange. destruct file as [f|]; [|exact H].
    destruct (negb (startsWith (type f) (lit "image/")));
      [rewrite hasCurrent_addMessage; exact H|].
    destruct (N.ltb (MAX_SIZE_MB * 1024 * 1024) (size f));
      [rewrite hasCurrent_addMessage; exact H|].
    destruct reader; [exact H|].
    change (hasCurrent
              (addMessageToCurrentChat (errorMessage UNREADABLE)
                 (setImageFile (Some f) st)) = true).
    rewrite hasCurrent_addMessage. exact H.
  - exact H.
  - unfold onSpeechError. rewrite hasCurrent_addMessage. exact H.
  - unfold toggleTheme.
    destruct (nth_error themeSequence _); exact H.
  - exact H.
Qed.

(** X3. Once the current id names a conversation of the store it does so
    after any sequence of new chats, switches, deletions, turns, attachment
    choices and removals, speech errors and preference toggles; in particular
    the store is never empty. *)
Theorem current_conversation_always_exists (actions : list Action)
  (st : AppState) :
  hasCurrent st = true ->
  hasCurrent (performAll actions st) = true
  /\ conversations (performAll actions st) <> [].
Proof.
  intros H.
  assert (Hall : hasCurrent (performAll actions st) = true).
  { unfold performAll. revert st H.
    induction actions as [|a actions IH]; intros st H; cbn [fold_left].
    - exact H.
    - apply IH. apply hasCurrent_perform. exact H. }
  split; [exact Hall|].
  unfold hasCurrent in Hall. intros Hnil. rewrite Hnil in Hall.
  destruct (currentChatId _); discriminate Hall.
Qed.

Lemma current_conversation_always_exists_witness :
  hasCurrent
    (performAll
       [DeleteChat 1700000009000 (lit "chat_1700000005000");
        DeleteChat 1700000009001 (lit "chat_1700000003000");
        Submit failingEnv (lit "hello");
        DeleteChat 1700000009002 (lit "chat_1700000000000");
        SwitchChat (lit "chat_1");
        FileChange ReadFailed (Some examplePdf)]
       exampleState)
  = true.
Proof.
  apply (@current_conversation_always_exists
           [DeleteChat 1700000009000 (lit "chat_1700000005000");
            DeleteChat 1700000009001 (lit "chat_1700000003000");
            Submit failingEnv (lit "hello");
            DeleteChat 1700000009002 (lit "chat_1700000000000");
            SwitchChat (lit "chat_1");
            FileChange ReadFailed (Some examplePdf)]
           exampleState eq_refl).
Defined.

(** ** Loading what was saved *)


Lemma allOf_map {A B} (f : B -> option A) (g : A -> B) (l : list A) :
  (forall x, f (g x) = Some x) -> allOf f (map g l) = Some l.
Proof.
  intros H. induction l as [|x l IH]; cbn [map allOf]; [reflexivity|].
  rewrite H, IH. reflexivity.
Qed.

Lemma messageOfJSON_messageJSON (m : Message) :
  messageOfJSON (messageJSON m) = Some m.
Proof.
  destruct m as [r c [u|]]; destruct r; reflexivity.
Qed.

Lemma conversationOfJSON_conversationJSON (c : Conversation) :
  conversationOfJSON (conversationJSON c) = Some c.
Proof.
  destruct c as [i t ms]. unfold conversationJSON, conversationOfJSON.
  cbn [id title messages].
  change (str_eqb (lit "id") (lit "id") && str_eqb (lit "title") (lit "title")
          && str_eqb (lit "messages") (lit "messages")) with true.
  cbv iota. rewrite (allOf_map _ _ ms messageOfJSON_messageJSON). reflexivity.
Qed.

(** What was written for a store reads back as that store. *)
Lemma storeOfJSON_storeJSON (s : Store) : storeOfJSON (storeJSON s) = Some s.
Proof.
  unfold storeOfJSON, storeJSON.
  induction s as [|[k c] s IH]; cbn [map allOf fst snd]; [reflexivity|].
  rewrite conversationOfJSON_conversationJSON, IH. reflexivity.
Qed.

Lemma obj_get_withoutImages (k : jsstring) (s : Store) :
  obj_get k (withoutImages s)
  = option_map (set_messages (map withoutImage)) (obj_get k s).
Proof.
  unfold withoutImages. induction s as [|[k' c] s IH]; cbn; [reflexivity|].
  destruct (str_eqb k k'); [reflexivity|exact IH].
Qed.

Lemma themeOfString_themeString (t : Theme) :
  themeOfString (themeString t) = Some t.
Proof. destruct t; reflexivity. Qed.




(** What the proviso on the saved id excludes: with no conversation saved
    and the saved id "constructor", the lookup finds the inherited member,
    the id becomes current and no conversation is made. *)
Example loadState_inherited_id :
  option_map (fun st => (currentChatId st, conversations st, hasCurrent st))
    (loadState (fun _ => None) (fun _ => []) 1700000009000
       [(lit "aiChatCurrentId", StoredText (lit "constructor"))]
       initialState)
  = Some (Some (lit "constructor"), [], false).
Proof. vm_compute. reflexivity. Qed.

Lemma setItems_all (accepts : jsstring -> Stored -> bool)
  (items : list (jsstring * Stored)) (ls : LocalStorage) :
  (forall k v, accepts k v = true) ->
  setItems accepts items ls
  = fold_left (fun acc kv => obj_set (fst kv) (snd kv) acc) items ls.
Proof.
  intros Hall. revert ls.
  induction items as [|[k v] items IH]; intros ls; cbn [setItems fold_left];
    [reflexivity|].
  rewrite Hall. apply IH.
Qed.

(** X5. When the storage takes every item and the current id names a
    conversation, loading what the saving effect wrote gives back the
    conversations without their image references, the same current id, the
    same theme and the same speech preference. *)
Theorem load_after_save (accepts : jsstring -> Stored -> bool)
  (JSON_parse : jsstring -> option json) (JSON_stringify : json -> jsstring)
  (now : Z) (st st0 : AppState) (ls : LocalStorage) :
  (forall k v, accepts k v = true) ->
  hasCurrent st = true ->
  truthy_opt (currentChatId st) = true ->
  exists st',
    loadState JSON_parse JSON_stringify now
      (snd (saveState accepts (st, ls))) st0 = Some st'
    /\ conversations st' = withoutImages (conversations st)
    /\ currentChatId st' = currentChatId st
    /\ theme st' = theme st
    /\ isTtsEnabled st' = isTtsEnabled st.
Proof.
  intros Hall Hcur Htruthy.
  unfold saveState. cbn [fst snd]. rewrite setItems_all by exact Hall.
  unfold itemsToSave. rewrite Htruthy.
  unfold hasCurrent in Hcur.
  destruct (currentChatId st) as [c|] eqn:Ec; [|discriminate Hcur].
  destruct (obj_get c (conversations st)) as [conv|] eqn:Eg;
    [|discriminate Hcur].
  cbn [app fold_left fst snd].
  set (ls1 := obj_set (lit "aiChatConversations") _ ls).
  set (ls2 := obj_set (lit "aiChatCurrentId") _ ls1).
  set (ls3 := obj_set (lit "aiChatTheme") _ ls2).
  set (ls4 := obj_set (lit "aiChatTtsEnabled") _ ls3).
  assert (Hconv : obj_get (lit "aiChatConversations") ls4
                  = Some (StoredJSON (conversationsToSave (conversations st)))).
  { subst ls4 ls3 ls2 ls1.
    rewrite !obj_get_set_other by reflexivity. apply obj_get_set_same. }
  assert (Hid : obj_get (lit "aiChatCurrentId") ls4 = Some (StoredText c)).
  { subst ls4 ls3 ls2.
    rewrite !obj_get_set_other by reflexivity. apply obj_get_set_same. }
  assert (Hth : obj_get (lit "aiChatTheme") ls4
                = Some (StoredText (themeString (theme st)))).
  { subst ls4 ls3.
    rewrite !obj_get_set_other by reflexivity. apply obj_get_set_same. }
  assert (Htts : obj_get (lit "aiChatTtsEnabled") ls4
                 = Some (StoredText (boolString (isTtsEnabled st)))).
  { subst ls4. apply obj_get_set_same. }
  unfold loadState, getItem. rewrite Hconv, Hid, Hth, Htts.
  cbn [parseSaved].
  rewrite conversationsToSave_withoutImages, storeOfJSON_storeJSON.
  rewrite themeOfString_themeString.
  cbn [truthy_opt] in Htruthy |- *. rewrite Htruthy.
  unfold obj_truthy. rewrite obj_get_withoutImages, Eg. cbn [option_map andb].
  eexists. split; [reflexivity|].
  cbn [setIsTtsEnabled setTheme setCurrentChatId setConversations conversations
       currentChatId theme isTtsEnabled].
  repeat split; try reflexivity.
  destruct (isTtsEnabled st); reflexivity.
Qed.

Lemma load_after_save_witness :
  exists st',
    loadState (fun _ => None) (fun _ => []) 1700000009000
      (snd (saveState (fun _ _ => true) (setTheme dark exampleStaged, [])))
      initialState = Some st'
    /\ conversations st' = withoutImages exampleStore
    /\ currentChatId st' = Some (lit "chat_1700000005000")
    /\ theme st' = dark
    /\ isTtsEnabled st' = false.
Proof.
  exact (@load_after_save (fun _ _ => true) (fun _ => None) (fun _ => [])
           1700000009000 (setTheme dark exampleStaged) initialState []
           (fun _ _ => eq_refl) eq_refl eq_refl).
Defined.

(** ** Titles, histories and answers *)

Lemma startsWith_app (s p : jsstring) :
  startsWith s p = true <-> exists r, s = p ++ r.
Proof.
  revert s. induction p as [|c p IH]; intros s.
  - split; [intros _; exists s; reflexivity|destruct s; reflexivity].
  - destruct s as [|d s]; cbn [startsWith app].
    + split; [discriminate|intros [r Hr]; discriminate Hr].
    + rewrite andb_true_iff, N.eqb_eq, IH. split.
      * intros [-> [r ->]]. exists r. reflexivity.
      * intros [r Hr]. injection Hr as -> ->. split; eauto.
Qed.

Lemma startsWith_shorter (s p q : jsstring) :
  startsWith s (p ++ q) = true -> startsWith s p = true.
Proof.
  rewrite !startsWith_app. intros [r ->]. exists (q ++ r).
  rewrite app_assoc. reflexivity.
Qed.

Lemma In_expectedCall_images (env : Env) (messageContent : jsstring)
  (file : option File) (historySource : list Message) (p : jsstring) :
  In (CallGenerateImages p)
    (expectedCall env messageContent file historySource) ->
  startsWith (trim messageContent) GENERATE_PREFIX = true.
Proof.
  unfold expectedCall.
  destruct (truthy_opt (API_KEY env)); cbn [negb]; [|contradiction].
  destruct (startsWith (trim messageContent) GENERATE_PREFIX); [reflexivity|].
  destruct file as [f|].
  - destruct (fileToBase64 (remote env) f); [|contradiction].
    intros [H|[]]. discriminate H.
  - intros [H|[]]. discriminate H.
Qed.

(** X7. A turn that asks the service for an image never asks it for a
    title: a conversation that begins with an image generation keeps the title
    it was made with. *)
Theorem image_generation_never_titles (env : Env) (messageContent : jsstring)
  (st : AppState) (prompt : jsstring) :
  In (CallGenerateImages prompt) (trace (snd (runTurn env messageContent st))) ->
  (forall p,
     ~ In (CallGenerateTitle p) (trace (snd (runTurn env messageContent st))))
  /\ forall chat conv,
       turnRuns messageContent st = Some (chat, conv) ->
       option_map title
         (obj_get chat
            (conversations (appState (snd (runTurn env messageContent st)))))
       = Some (title conv).
Proof.
  intros Himg. pose proof (runTurn_trace env messageContent st) as H.
  destruct (turnRuns messageContent st) as [[chat conv]|] eqn:Er.
  2:{ rewrite H in Himg. contradiction. }
  destruct H as [titleCalls [spoken [Heq [Ht Hs]]]].
  assert (Hprefix : startsWith (trim messageContent) GENERATE_PREFIX = true).
  { rewrite Heq in Himg. apply in_app_or in Himg. destruct Himg as [Hin|Hin].
    - destruct Ht as [->|[-> _]]; [contradiction|].
      destruct Hin as [Hin|[]]. discriminate Hin.
    - apply in_app_or in Hin. destruct Hin as [Hin|Hin].
      + exact (In_expectedCall_images _ _ _ _ _ Hin).
      + destruct Hs as [->|[u ->]]; [contradiction|].
        destruct Hin as [Hin|[]]. discriminate Hin. }
  assert (Hwants : wantsTitle (messages conv) messageContent = false).
  { unfold wantsTitle.
    rewrite (startsWith_shorter (trim messageContent) (lit "/generate")
               (lit " ") Hprefix).
    apply andb_false_r. }
  assert (Hnone : titleCalls = []).
  { destruct Ht as [->|[_ Hw]]; [reflexivity|congruence]. }
  split.
  - intros p Hin. rewrite Heq, Hnone in Hin. cbn [app] in Hin.
    apply in_app_or in Hin. destruct Hin as [Hin|Hin].
    + apply expectedCall_path in Hin. discriminate Hin.
    + destruct Hs as [->|[u ->]]; [contradiction|].
      destruct Hin as [Hin|[]]. discriminate Hin.
  - intros chat' conv' Hsome. injection Hsome as <- <-.
    destruct (turnRuns_Some _ _ Er) as [Hacc [Hcur Hg]].
    destruct (accepted_inv _ _ Hacc) as [_ [Htr _]].
    rewrite Hcur in Htr. cbn [truthy_opt] in Htr.
    unfold runTurn, submitMessage.
    cbv [bind getApp update ret]. cbn [appState trace].
    rewrite Hacc, Hcur, Hg. cbn [negb].
    unfold turn. cbv [bind getApp update ret tryFinally]. cbn [appState trace].
    rewrite Hwants.
    set (user := mkMessage USER messageContent (imagePreview st)).
    set (st1 := openTurn chat user (clearDraft st)).
    assert (Hg1 : obj_get chat (conversations st1)
                  = Some (mkConversation (id conv) (title conv)
                            ((messages conv ++ [user]) ++ [placeholder]))).
    { subst st1. unfold openTurn, clearDraft.
      cbn [conversations setIsLoading setConversations setIsStopped
           setImagePreview setImageFile setUserInput].
      rewrite obj_get_mutate_same, Hg. reflexivity. }
    destruct (@attempt_outcome env idle chat messageContent (imageFile st)
                (isTtsEnabled st) (messages conv) (mkWorld st1 [])
                (mkConversation (id conv) (title conv)
                   ((messages conv ++ [user]) ++ [placeholder]))
                (messages conv ++ [user]) Htr (undisturbed_idle chat) eq_refl
                Hg1 eq_refl)
      as [Hres Hg2].
    destruct (tryCatch _ _ (mkWorld st1 [])) as [res w2].
    cbn [fst snd] in Hres, Hg2. subst res.
    cbn [fst snd appState conversations setIsLoading].
    rewrite Hg2. reflexivity.
Qed.

Lemma image_generation_never_titles_witness :
  In (CallGenerateImages (lit "a cat"))
    (trace (snd (runTurn imagingEnv (lit "/generate a cat") exampleState)))
  /\ forall p,
       ~ In (CallGenerateTitle p)
           (trace (snd (runTurn imagingEnv (lit "/generate a cat")
                          exampleState))).
Proof.
  assert (H : In (CallGenerateImages (lit "a cat"))
                (trace (snd (runTurn imagingEnv (lit "/generate a cat")
                               exampleState)))).
  { vm_compute. left. reflexivity. }
  split; [exact H|].
  apply (@image_generation_never_titles imagingEnv (lit "/generate a cat")
           exampleState (lit "a cat") H).
Defined.

Lemma In_slice_0_neg {A} (n : nat) (l : list A) (x : A) :
  In x (slice_0_neg n l) -> In x l.
Proof.
  unfold slice_0_neg. intros H.
  rewrite <- (firstn_skipn (length l - n) l). apply in_or_app. left. exact H.
Qed.

(** Every entry of a history comes from a message of the array that is
    neither an error message nor an image message. *)
Lemma chatHistory_sound (msgs : list Message) (c : Content) :
  In c (chatHistory msgs) ->
  exists m,
    In m msgs /\ c = toContent m /\ role m <> ERROR
    /\ truthy_opt (imageUrl m) = false.
Proof.
  unfold chatHistory. intros H. apply in_map_iff in H.
  destruct H as [m [<- Hin]]. apply In_slice_0_neg in Hin.
  apply filter_In in Hin. destruct Hin as [Hin Hkeep].
  unfold inTextHistory in Hkeep.
  rewrite andb_true_iff, !negb_true_iff in Hkeep. destruct Hkeep as [Hr Hi].
  exists m. repeat split; try assumption.
  intros E. rewrite E in Hr. discriminate Hr.
Qed.

(** X8. Whatever the conversation holds,
    the history sent with a streamed message has no entry of error role, every
    entry is the role and the text of a message of the conversation or of the
    turn that carries no image, and the message sent is the text submitted. *)
Theorem history_never_holds_errors (env : Env) (messageContent : jsstring)
  (st : AppState) (history : list Content) (message : jsstring) :
  In (CallSendMessageStream history message)
    (trace (snd (runTurn env messageContent st))) ->
  message = messageContent
  /\ Forall (fun c => contentRole c <> ERROR) history
  /\ exists chat conv,
       turnRuns messageContent st = Some (chat, conv)
       /\ Forall
            (fun c =>
               exists m,
                 In m (messages conv
                         ++ [mkMessage USER messageContent (imagePreview st);
                             placeholder])
                 /\ c = toContent m /\ truthy_opt (imageUrl m) = false)
            history.
Proof.
  intros Hin. pose proof (runTurn_trace env messageContent st) as H.
  destruct (turnRuns messageContent st) as [[chat conv]|] eqn:Er.
  2:{ rewrite H in Hin. contradiction. }
  destruct H as [titleCalls [spoken [Heq [Ht Hs]]]].
  assert (Hcall : In (CallSendMessageStream history message)
                    (expectedCall env messageContent (imageFile st)
                       (messages conv))).
  { rewrite Heq in Hin. apply in_app_or in Hin. destruct Hin as [Hin|Hin].
    - destruct Ht as [->|[-> _]]; [contradiction|].
      destruct Hin as [Hin|[]]. discriminate Hin.
    - apply in_app_or in Hin. destruct Hin as [Hin|Hin]; [exact Hin|].
      destruct Hs as [->|[u ->]]; [contradiction|].
      destruct Hin as [Hin|[]]. discriminate Hin. }
  assert (Hhist : message = messageContent
                  /\ history = chatHistory (messages conv)).
  { unfold expectedCall in Hcall.
    destruct (truthy_opt (API_KEY env)); cbn [negb] in Hcall; [|contradiction].
    destruct (startsWith (trim messageContent) GENERATE_PREFIX).
    { destruct (truthy (trim (skipn 10 messageContent))); cbn [negb] in Hcall;
        [|contradiction].
      destruct Hcall as [Hc|[]]. discriminate Hc. }
    destruct (imageFile st) as [f|].
    - destruct (fileToBase64 (remote env) f); [|contradiction].
      destruct Hcall as [Hc|[]]. discriminate Hc.
    - destruct Hcall as [Hc|[]]. injection Hc as <- <-. split; reflexivity. }
  destruct Hhist as [-> ->]. split; [reflexivity|]. split.
  - apply Forall_forall. intros c Hc.
    destruct (chatHistory_sound _ _ Hc) as [m [_ [-> [Hr _]]]]. exact Hr.
  - exists chat, conv. split; [reflexivity|].
    apply Forall_forall. intros c Hc.
    destruct (chatHistory_sound _ _ Hc) as [m [Hm [-> [_ Hi]]]].
    exists m. repeat split; try assumption.
    apply in_or_app. left. exact Hm.
Qed.

Lemma history_never_holds_errors_witness :
  Forall (fun c => contentRole c <> ERROR)
    [mkContent USER (lit "hello"); mkContent MODEL (lit "Hi")].
Proof.
  apply (@history_never_holds_errors
           (streamingEnv (mkStream [Chunk (lit "Bye")] None))
           (lit "and then?")
           (setCurrentChatId (Some (lit "chat_1700000000000"))
              (setConversations
                 (obj_mutate (lit "chat_1700000000000")
                    (set_messages
                       (fun msgs =>
                          msgs ++ [errorMessage (lit "oops");
                                   mkMessage USER (lit "still there?") None;
                                   mkMessage MODEL (lit "Yes") None])))
                 exampleState))
           [mkContent USER (lit "hello"); mkContent MODEL (lit "Hi")]
           (lit "and then?")).
  vm_compute. left. reflexivity.
Defined.

(** X9. The message that answers an attached image is never blank: it has
    a text, or else it has an image. *)
Theorem understandingMessage_never_blank (response : GenerateContentResponse) :
  role (understandingMessage response) = MODEL
  /\ (truthy (content (understandingMessage response)) = true
      \/ truthy_opt (imageUrl (understandingMessage response)) = true).
Proof.
  unfold understandingMessage.
  assert (Hparts : forall parts t img,
            img = None \/ truthy_opt img = true ->
            snd (readParts parts t img) = None
            \/ truthy_opt (snd (readParts parts t img)) = true).
  { induction parts as [|part rest IH]; intros t img Himg; cbn [readParts];
      [exact Himg|].
    destruct (truthy_opt (text part)); [apply IH; exact Himg|].
    destruct (inlineData part) as [d|]; [|apply IH; exact Himg].
    apply IH. right. reflexivity. }
  destruct (candidates response) as [[|first rest]|].
  - destruct (truthy_opt (responseText response)) eqn:E.
    + destruct (responseText response) as [t|]; [|discriminate E].
      cbn [truthy_opt] in E. rewrite E. cbn. auto.
    + cbn. auto.
  - specialize (Hparts first [] None (or_introl eq_refl)).
    destruct (readParts first [] None) as [t img]. cbn [snd] in Hparts.
    destruct (truthy t) eqn:Et; cbn [role content imageUrl].
    + auto.
    + destruct Hparts as [->|Himg].
      * cbn. auto.
      * rewrite Himg. auto.
  - destruct (truthy_opt (responseText response)) eqn:E.
    + destruct (responseText response) as [t|]; [|discriminate E].
      cbn [truthy_opt] in E. rewrite E. cbn. auto.
    + cbn. auto.
Qed.

(** ** Export *)

Lemma exportMessage_redacted (m : Message) :
  exportMessage (redacted m) = exportMessage m.
Proof.
  unfold exportMessage, redacted. cbn [role content imageUrl].
  destruct (truthy_opt (imageUrl m)); reflexivity.
Qed.

Lemma exportMessage_error (m : Message) :
  role_eqb (role m) ERROR = true -> exportMessage m = [].
Proof. unfold exportMessage. intros ->. reflexivity. Qed.

(** X10. The exported document holds nothing of an error message and
    nothing of an image but the fixed reference: it is the document of the
    conversation without its error messages and with every image reference
    replaced by a token. *)
Theorem exportContent_skips_errors_and_images (conversation : Conversation) :
  exportContent conversation
  = exportContent (set_messages exportable conversation).
Proof.
  unfold exportContent, set_messages, exportable. cbn [title messages].
  apply (f_equal (fun x => lit "# " ++ title conversation ++ [10; 10]%N ++ x)).
  induction (messages conversation) as [|m ms IH]; [reflexivity|].
  cbn [map filter concat].
  destruct (role_eqb (role m) ERROR) eqn:E; cbn [negb].
  - rewrite (exportMessage_error m E). exact IH.
  - cbn [map concat]. rewrite exportMessage_redacted, IH. reflexivity.
Qed.

Lemma fileNameUnit (c : code_unit) :
  isFileNameUnit
    (toLowerUnit (if isAsciiLower c || isAsciiUpper c || isAsciiDigit c
                  then c else 95%N))
  = true.
Proof.
  unfold isFileNameUnit, toLowerUnit.
  destruct (isAsciiUpper c) eqn:Eu.
  - rewrite orb_true_r. cbn [orb]. rewrite Eu.
    unfold isAsciiUpper in Eu. apply andb_true_iff in Eu.
    destruct Eu as [H1 H2]. apply N.leb_le in H1, H2.
    assert (Hl : isAsciiLower (c + 32)%N = true).
    { unfold isAsciiLower. apply andb_true_iff.
      split; apply N.leb_le; lia. }
    rewrite Hl. reflexivity.
  - rewrite orb_false_r.
    destruct (isAsciiLower c) eqn:El; cbn [orb].
    + rewrite Eu, El. reflexivity.
    + destruct (isAsciiDigit c) eqn:Ed.
      * rewrite Eu, El, Ed. reflexivity.
      * reflexivity.
Qed.

(** X11. The name of the exported file is made of as many code units as
    the title, each a lower-case ASCII letter, a digit or an underscore,
    followed by the extension ".md". *)
Theorem exportFileName_safe (t : jsstring) :
  exists base,
    exportFileName t = base ++ lit ".md"
    /\ length base = length t
    /\ forallb isFileNameUnit base = true.
Proof.
  unfold exportFileName. eexists. split; [reflexivity|]. split.
  - rewrite !length_map. reflexivity.
  - rewrite map_map. induction t as [|c t IH]; [reflexivity|].
    cbn [map forallb]. rewrite fileNameUnit. exact IH.
Qed.

(** A title with capitals, blanks and a letter outside ASCII. *)
Example exportFileName_example :
  exportFileName (lit "Trip to " ++ [233%N] ++ lit "vora 2024!")
  = lit "trip_to__vora_2024_.md".
Proof. reflexivity. Qed.

Example exportContent_example :
  exportContent
    (mkConversation (lit "chat_1") (lit "Cats")
       [mkMessage USER (lit "/generate a cat") None;
        mkMessage ERROR (lit "An error occurred: quota") None;
        mkMessage MODEL (lit "> a cat") (Some (lit "data:image/jpeg;base64,AAAA"))])
  = lit "# Cats" ++ [10; 10]%N
    ++ lit "**User:**" ++ [10; 10]%N ++ lit "/generate a cat" ++ [10; 10; 10]%N
    ++ lit "---" ++ [10; 10]%N
    ++ lit "**Model:**" ++ [10; 10]%N ++ lit "> a cat" ++ [10; 10]%N
    ++ lit "![Image](image_data_in_export)" ++ [10; 10; 10]%N
    ++ lit "---" ++ [10; 10]%N.
Proof. reflexivity. Qed.

(** ** What the assembler leaves alone *)

Lemma lastOf_decompose {A} (l : list A) (x : A) :
  lastOf l = Some x -> l = slice_0_neg 1 l ++ [x].
Proof.
  destruct l as [|a l] using rev_ind; [discriminate|].
  rewrite lastOf_snoc, slice_0_neg_snoc. intros H. injection H as ->.
  reflexivity.
Qed.

Lemma updateLast_shape (chunk : jsstring) (isDone : bool)
  (msgs : list Message) :
  map role (updateLast chunk isDone msgs) = map role msgs
  /\ map imageUrl (updateLast chunk isDone msgs) = map imageUrl msgs
  /\ slice_0_neg 1 (updateLast chunk isDone msgs) = slice_0_neg 1 msgs
  /\ (forall m, lastOf msgs = Some m -> role m <> MODEL ->
        updateLast chunk isDone msgs = msgs)
  /\ (msgs = [] -> updateLast chunk isDone msgs = []).
Proof.
  unfold updateLast. destruct (lastOf msgs) as [m|] eqn:El.
  - pose proof (lastOf_decompose _ El) as Hd.
    destruct (role_eqb (role m) MODEL) eqn:Er.
    + repeat split.
      * rewrite Hd at 2. rewrite !map_app. reflexivity.
      * rewrite Hd at 2. rewrite !map_app. reflexivity.
      * apply slice_0_neg_snoc.
      * intros m' Hm' Hr. injection Hm' as <-. destruct (role m); try discriminate Er.
        congruence.
      * intros ->. discriminate El.
    + repeat split; try reflexivity. intros ->. discriminate El.
  - repeat split; try reflexivity. intros ->. reflexivity.
Qed.

(** X12. [updateLastMessage] changes at most the text of the last message
    of the current conversation, and only when that message is a model
    message: the ids of the store, the other conversations, the title, the
    earlier messages, and the roles and image references of all messages are
    kept; a conversation that ends with a user or an error message, or has no
    message, is left as it is. *)
Theorem updateLastMessage_only_last_model_text (current : option jsstring)
  (chunk : jsstring) (isDone : bool) (s : Store) (k : jsstring)
  (c : Conversation) :
  obj_get k s = Some c ->
  obj_keys (updateLastMessage current chunk isDone s) = obj_keys s
  /\ exists c',
       obj_get k (updateLastMessage current chunk isDone s) = Some c'
       /\ id c' = id c
       /\ title c' = title c
       /\ map role (messages c') = map role (messages c)
       /\ map imageUrl (messages c') = map imageUrl (messages c)
       /\ slice_0_neg 1 (messages c') = slice_0_neg 1 (messages c)
       /\ (current <> Some k -> c' = c)
       /\ (forall m, lastOf (messages c) = Some m -> role m <> MODEL -> c' = c)
       /\ (messages c = [] -> c' = c).
Proof.
  intros Hg. unfold updateLastMessage.
  assert (Hsame : obj_keys s = obj_keys s
                  /\ exists c', obj_get k s = Some c'
                     /\ id c' = id c /\ title c' = title c
                     /\ map role (messages c') = map role (messages c)
                     /\ map imageUrl (messages c') = map imageUrl (messages c)
                     /\ slice_0_neg 1 (messages c') = slice_0_neg 1 (messages c)
                     /\ (current <> Some k -> c' = c)
                     /\ (forall m, lastOf (messages c) = Some m ->
                           role m <> MODEL -> c' = c)
                     /\ (messages c = [] -> c' = c)).
  { split; [reflexivity|]. exists c. repeat split; auto. }
  destruct current as [chat|]; [|exact Hsame].
  destruct (truthy chat); [|exact Hsame]. clear Hsame.
  split; [apply obj_keys_mutate|].
  destruct (str_eqb chat k) eqn:E.
  - apply str_eqb_eq in E. subst chat. rewrite obj_get_mutate_same, Hg.
    destruct (updateLast_shape chunk isDone (messages c))
      as [H1 [H2 [H3 [H4 H5]]]].
    eexists. split; [reflexivity|]. destruct c as [i t ms].
    cbn [set_messages id title messages] in *.
    repeat split; try reflexivity; try assumption.
    + congruence.
    + intros m Hm Hr. unfold set_messages. cbn [id title messages].
      rewrite (H4 m Hm Hr). reflexivity.
    + intros ->. reflexivity.
  - apply str_eqb_neq in E. rewrite obj_get_mutate_other by exact E.
    exists c. repeat split; auto.
Qed.

Lemma updateLastMessage_only_last_model_text_witness :
  obj_get (lit "chat_1700000003000")
    (updateLastMessage (Some (lit "chat_1700000003000")) (lit "chunk") false
       exampleStore)
  = obj_get (lit "chat_1700000003000") exampleStore.
Proof.
  destruct (@updateLastMessage_only_last_model_text
              (Some (lit "chat_1700000003000")) (lit "chunk") false
              exampleStore (lit "chat_1700000003000")
              (mkConversation (lit "chat_1700000003000") (lit "Poem")
                 [mkMessage USER (lit "a poem")
                    (Some (lit "data:image/png;base64,AAAA"))])
              eq_refl)
    as [_ [c' [Hg [_ [_ [_ [_ [_ [_ [Hlast _]]]]]]]]]].
  rewrite Hg. rewrite (Hlast _ eq_refl); [reflexivity|discriminate].
Defined.

(** ** New chats *)

Lemma chatId_inj (t1 t2 : Z) : chatId t1 = chatId t2 -> t1 = t2.
Proof.
  intros H. apply (f_equal timestamp) in H.
  rewrite !timestamp_chatId in H. injection H as ->. reflexivity.
Qed.

(** X13. Two chats made at different clock values are two conversations:
    after both, the second is current, both are in the store as empty
    conversations titled "New Chat", and every conversation that was there
    under another id is as before. *)
Theorem startNewChat_twice (t1 t2 : Z) (st : AppState) :
  t1 <> t2 ->
  let st' := startNewChat t2 (startNewChat t1 st) in
  currentChatId st' = Some (chatId t2)
  /\ obj_get (chatId t1) (conversations st')
     = Some (mkConversation (chatId t1) NEW_CHAT [])
  /\ obj_get (chatId t2) (conversations st')
     = Some (mkConversation (chatId t2) NEW_CHAT [])
  /\ forall k, k <> chatId t1 -> k <> chatId t2 ->
       obj_get k (conversations st') = obj_get k (conversations st).
Proof.
  intros Hne st'. subst st'. unfold startNewChat.
  cbn [setCurrentChatId setConversations currentChatId conversations].
  assert (H12 : str_eqb (chatId t1) (chatId t2) = false).
  { apply str_eqb_neq. intros E. apply Hne. exact (chatId_inj E). }
  repeat split.
  - rewrite obj_get_set_other by exact H12. apply obj_get_set_same.
  - apply obj_get_set_same.
  - intros k H1 H2.
    rewrite !obj_get_set_other by (apply str_eqb_neq; assumption).
    reflexivity.
Qed.

Lemma startNewChat_twice_witness :
  obj_get (chatId 1700000009000)
    (conversations
       (startNewChat 1700000009001 (startNewChat 1700000009000 exampleState)))
  = Some (mkConversation (chatId 1700000009000) NEW_CHAT []).
Proof.
  destruct (@startNewChat_twice 1700000009000 1700000009001 exampleState
              ltac:(discriminate)) as [_ [H _]].
  exact H.
Defined.

(** A chat made at the clock value of an existing one takes its place: the
    messages of the older one are gone. *)
Example startNewChat_same_clock :
  obj_get (lit "chat_1700000000000")
    (conversations (startNewChat 1700000000000 exampleState))
  = Some (mkConversation (lit "chat_1700000000000") NEW_CHAT [])
  /\ length (conversations (startNewChat 1700000000000 exampleState)) = 3.
Proof. split; reflexivity. Qed.

(** ** The theme *)

(** X14. The theme control goes from light to dark, from dark to system and
    from system to light, and touches nothing else: three presses give back
    the state, fewer do not. *)
Theorem toggleTheme_cycle (st : AppState) :
  toggleTheme (toggleTheme (toggleTheme st)) = st
  /\ theme (toggleTheme st) <> theme st
  /\ theme (toggleTheme (toggleTheme st)) <> theme st
  /\ theme (toggleTheme st)
     = match theme st with
       | light => dark
       | dark => system
       | system => light
       end
  /\ conversations (toggleTheme st) = conversations st
  /\ currentChatId (toggleTheme st) = currentChatId st.
Proof.
  destruct st as [cs cur ui ld th tts f pv stop].
  destruct th; repeat split; discriminate.
Qed.

(** ** The prompt of an image generation *)

Lemma truthy_trimStart (s : jsstring) :
  truthy (trimStart s) = existsb isInk s.
Proof.
  induction s as [|c s IH]; [reflexivity|].
  cbn [trimStart existsb]. unfold isInk at 1.
  destruct (isWhiteSpace c); [exact IH|reflexivity].
Qed.

Lemma existsb_trimStart (s : jsstring) :
  existsb isInk (trimStart s) = existsb isInk s.
Proof.
  induction s as [|c s IH]; [reflexivity|].
  cbn [trimStart existsb]. unfold isInk at 2.
  destruct (isWhiteSpace c) eqn:E; [exact IH|].
  cbn [existsb]. unfold isInk at 1. rewrite E. reflexivity.
Qed.

Lemma existsb_rev_ink (s : jsstring) :
  existsb isInk (rev s) = existsb isInk s.
Proof.
  induction s as [|c s IH]; [reflexivity|].
  cbn [rev existsb]. rewrite existsb_app, IH. cbn [existsb].
  rewrite orb_false_r. apply orb_comm.
Qed.

Lemma truthy_rev (s : jsstring) : truthy (rev s) = truthy s.
Proof.
  destruct s as [|c s]; [reflexivity|]. cbn [rev].
  destruct (rev s); reflexivity.
Qed.

(** [trim] leaves something exactly when the text holds a code unit that is
    not white space. *)
Lemma truthy_trim (s : jsstring) : truthy (trim s) = existsb isInk s.
Proof.
  unfold trim, trimEnd.
  rewrite truthy_rev, truthy_trimStart, existsb_rev_ink, existsb_trimStart.
  reflexivity.
Qed.

Lemma trimStart_suffix (s : jsstring) : exists w, s = w ++ trimStart s.
Proof.
  induction s as [|c s [w IH]]; [exists []; reflexivity|].
  cbn [trimStart]. destruct (isWhiteSpace c).
  - exists (c :: w). cbn [app]. rewrite <- IH. reflexivity.
  - exists []. reflexivity.
Qed.

Lemma trimStart_head (s : jsstring) (c : code_unit) (r : jsstring) :
  trimStart s = c :: r -> isInk c = true.
Proof.
  induction s as [|d s IH]; [discriminate|].
  cbn [trimStart]. destruct (isWhiteSpace d) eqn:E; [exact IH|].
  intros H. injection H as <- _. unfold isInk. rewrite E. reflexivity.
Qed.

Lemma trimEnd_prefix (s : jsstring) : exists w, s = trimEnd s ++ w.
Proof.
  unfold trimEnd. destruct (trimStart_suffix (rev s)) as [w Hw].
  exists (rev w). rewrite <- rev_app_distr, <- Hw. symmetry. apply rev_involutive.
Qed.

(** A text whose trimmed form starts with "/generate " holds ink after its
    tenth code unit. *)
Lemma generate_prompt_has_ink (s : jsstring) :
  startsWith (trim s) GENERATE_PREFIX = true ->
  truthy (trim (skipn (length GENERATE_PREFIX) s)) = true.
Proof.
  intros H. apply startsWith_app in H. destruct H as [r Hr].
  rewrite truthy_trim.
  assert (Hink : existsb isInk r = true).
  { unfold trim, trimEnd in Hr.
    apply (f_equal (@rev code_unit)) in Hr.
    rewrite rev_involutive, rev_app_distr in Hr.
    destruct r as [|c r] using rev_ind.
    - cbn in Hr. apply trimStart_head in Hr. discriminate Hr.
    - rewrite rev_app_distr in Hr. cbn [rev app] in Hr.
      apply trimStart_head in Hr.
      rewrite existsb_app. cbn [existsb]. rewrite Hr.
      rewrite orb_true_r. reflexivity. }
  destruct (trimStart_suffix s) as [w Hw].
  destruct (trimEnd_prefix (trimStart s)) as [w2 Hw2].
  fold (trim s) in Hw2. rewrite Hr in Hw2. rewrite Hw2 in Hw.
  rewrite Hw. rewrite <- !app_assoc.
  rewrite (app_assoc w GENERATE_PREFIX (r ++ w2)).
  rewrite skipn_app.
  replace (length GENERATE_PREFIX - length (w ++ GENERATE_PREFIX)) with 0
    by (rewrite length_app; lia).
  cbn [skipn]. rewrite !existsb_app, Hink.
  rewrite orb_true_r. reflexivity.
Qed.

(** X15. Every turn that runs with credentials on a text whose trimmed form
    starts with "/generate " asks the service for an image, with a prompt
    that is not empty: the error about a missing prompt is never raised. *)
Theorem generate_always_has_prompt (env : Env) (messageContent : jsstring)
  (st : AppState) (chat : jsstring) (conv : Conversation) :
  turnRuns messageContent st = Some (chat, conv) ->
  truthy_opt (API_KEY env) = true ->
  dispatch messageContent (imageFile st) = ImageGeneration ->
  truthy (trim (skipn 10 messageContent)) = true
  /\ In (CallGenerateImages (trim (skipn 10 messageContent)))
       (trace (snd (runTurn env messageContent st)))
  /\ forall e,
       lastMessage chat
         (conversations (appState (snd (runTurn env messageContent st))))
       = Some (errorMessage
                 (friendlyMessage (imageFile st) messageContent e)) ->
       generateImages (remote env) (trim (skipn 10 messageContent))
       = Rejected e.
Proof.
  intros Hruns Hkey Hd.
  assert (Hprefix : startsWith (trim messageContent) GENERATE_PREFIX = true).
  { unfold dispatch in Hd.
    destruct (startsWith (trim messageContent) GENERATE_PREFIX);
      [reflexivity|].
    destruct (imageFile st); discriminate Hd. }
  pose proof (generate_prompt_has_ink _ Hprefix) as Hprompt.
  change (length GENERATE_PREFIX) with 10 in Hprompt.
  split; [exact Hprompt|]. split.
  - pose proof (runTurn_trace env messageContent st) as H.
    rewrite Hruns in H. destruct H as [titleCalls [spoken [-> _]]].
    apply in_or_app. right. apply in_or_app. left.
    unfold expectedCall. rewrite Hkey, Hprefix, Hprompt. left. reflexivity.
  - intros e Hlast.
    destruct (turnRuns_Some _ _ Hruns) as [Hacc [Hcur Hg]].
    destruct (@runTurn_outcome env messageContent st chat conv Hacc Hcur Hg)
      as [_ [_ [t Hg']]].
    unfold lastMessage in Hlast. rewrite Hg' in Hlast. cbn [messages] in Hlast.
    change (messages conv ++ [?u; ?m]) with (messages conv ++ [u] ++ [m])
      in Hlast.
    rewrite app_assoc, lastOf_snoc in Hlast. injection Hlast as Hlast.
    unfold outcomeMessage in Hlast.
    rewrite Hkey, Hprefix, Hprompt in Hlast. cbn [negb] in Hlast.
    destruct (generateImages (remote env) (trim (skipn 10 messageContent)))
      as [bytes|e']; [discriminate Hlast|].
    unfold errorMessage in Hlast. injection Hlast as Hlast.
    unfold friendlyMessage in Hlast. rewrite Hprefix in Hlast.
    destruct (imageFile st).
    + apply app_inv_head in Hlast. apply app_inv_tail in Hlast.
      rewrite Hlast. reflexivity.
    + apply app_inv_head in Hlast. apply app_inv_tail in Hlast.
      rewrite Hlast. reflexivity.
Qed.

Lemma generate_always_has_prompt_witness :
  In (CallGenerateImages (lit "a cat"))
    (trace (snd (runTurn imagingEnv (lit "/generate a cat") exampleState))).
Proof.
  destruct (@generate_always_has_prompt imagingEnv (lit "/generate a cat")
              exampleState (lit "chat_1700000005000")
              (mkConversation (lit "chat_1700000005000") NEW_CHAT [])
              eq_refl eq_refl eq_refl) as [_ [Hin _]].
  exact Hin.
Defined.

(** With white space in front the prompt is cut at the tenth code unit of
    the text as typed, not of the trimmed text. *)
Example generate_prompt_leading_space :
  trace (snd (runTurn imagingEnv (lit "  /generate a cat") exampleState))
  = [CallGenerateImages (lit "e a cat")].
Proof. vm_compute. reflexivity. Qed.

(** ** Speech *)

Lemma expectedCall_silent (env : Env) (messageContent : jsstring)
  (file : option File) (historySource : list Message) :
  filter (fun e => match e with Speak _ => true | _ => false end)
    (expectedCall env messageContent file historySource) = []
  /\ forall u,
       ~ In (Speak u) (expectedCall env messageContent file historySource).
Proof.
  assert (Hexp : forall e,
            In e (expectedCall env messageContent file historySource) ->
            match e with Speak _ => true | _ => false end = false).
  { intros e He. apply expectedCall_path in He. destruct e; try reflexivity.
    discriminate He. }
  split.
  - induction (expectedCall env messageContent file historySource)
      as [|e l IH]; [reflexivity|].
    cbn [filter]. rewrite (Hexp e) by (left; reflexivity).
    apply IH. intros e' He'. apply Hexp. right. exact He'.
  - intros u Hin. apply Hexp in Hin. discriminate Hin.
Qed.

(** X16. Whatever a turn says aloud, it says once, it is not an empty
    text, and the speech preference was on in the render that made the
    handler of the turn, whatever the preference is by now and whatever the
    other handlers do meanwhile: a handler made with the preference off says
    nothing. *)
Theorem speech_once_and_only_when_enabled (env : Env) (others : Meanwhile)
  (render : AppState) (messageContent : jsstring) (st : AppState)
  (u : jsstring) :
  In (Speak u)
    (trace (snd (runTurnFrom env others render messageContent st))) ->
  isTtsEnabled render = true
  /\ truthy u = true
  /\ filter (fun e => match e with Speak _ => true | _ => false end)
       (trace (snd (runTurnFrom env others render messageContent st)))
     = [Speak u].
Proof.
  intros Hin.
  pose proof (runTurnFrom_trace env others render messageContent st) as H.
  destruct (turnRuns messageContent render) as [[chat seen]|].
  2:{ rewrite H in Hin. contradiction. }
  destruct H as [titleCalls [spoken [Htr [Ht Hs]]]].
  destruct (expectedCall_silent env messageContent (imageFile render)
              (messages seen)) as [Hfilter Hnone].
  rewrite Htr in Hin |- *. rewrite !filter_app, Hfilter.
  assert (Hc : filter (fun e => match e with Speak _ => true | _ => false end)
                 titleCalls = []
               /\ ~ In (Speak u) titleCalls).
  { destruct Ht as [->|[-> _]]; split; try reflexivity; cbn;
      intuition discriminate. }
  destruct Hc as [Hc1 Hc2]. rewrite Hc1. cbn [app].
  apply in_app_or in Hin. destruct Hin as [Hin|Hin]; [contradiction|].
  apply in_app_or in Hin. destruct Hin as [Hin|Hin].
  { apply Hnone in Hin. contradiction. }
  destruct Hs as [->|[u' [-> [Hon Hu]]]]; [contradiction|].
  destruct Hin as [Hin|[]]. injection Hin as ->. auto.
Qed.

Lemma speech_once_and_only_when_enabled_witness :
  isTtsEnabled (toggleTts exampleState) = true
  /\ isTtsEnabled exampleState = false
  /\ filter (fun e => match e with Speak _ => true | _ => false end)
       (trace
          (snd (runTurnFrom
                  (streamingEnv
                     (mkStream [Chunk (lit "Hi"); Chunk (lit "there")] None))
                  exampleOthers (toggleTts exampleState) (lit "hello")
                  exampleState)))
     = [Speak (lit "Hithere")].
Proof.
  split; [reflexivity|]. split; [reflexivity|].
  apply (@speech_once_and_only_when_enabled
           (streamingEnv (mkStream [Chunk (lit "Hi"); Chunk (lit "there")] None))
           exampleOthers (toggleTts exampleState) (lit "hello") exampleState
           (lit "Hithere")).
  vm_compute. right. right. left. reflexivity.
Defined.

(** ** The guard and the stop flag *)

Lemma openTurn_resets_stop (chat : jsstring) (m : Message) (b : bool)
  (st : AppState) :
  openTurn chat m (clearDraft (setIsStopped b st))
  = openTurn chat m (clearDraft st).
Proof. reflexivity. Qed.

(** X17. A press on Stop that came before a turn does not reach it: the
    turn begins by resetting the flag, so it runs exactly as it would have
    run without the press. *)
Theorem earlier_stop_does_not_cancel (env : Env) (messageContent : jsstring)
  (st : AppState) (chat : jsstring) (conv : Conversation) :
  turnRuns messageContent st = Some (chat, conv) ->
  runTurn env messageContent (handleStop st) = runTurn env messageContent st.
Proof.
  unfold turnRuns, runTurn, submitMessage, handleStop.
  cbv [bind getApp update ret throw]. cbn [appState trace].
  change (accepted messageContent (setIsStopped true st))
    with (accepted messageContent st).
  change (currentChatId (setIsStopped true st)) with (currentChatId st).
  change (conversations (setIsStopped true st)) with (conversations st).
  change (imageFile (setIsStopped true st)) with (imageFile st).
  change (imagePreview (setIsStopped true st)) with (imagePreview st).
  change (isTtsEnabled (setIsStopped true st)) with (isTtsEnabled st).
  destruct (accepted messageContent st); cbn [negb]; [|discriminate].
  destruct (currentChatId st) as [c|]; [|discriminate].
  destruct (obj_get c (conversations st)) as [cv|]; [|discriminate].
  intros _.
  unfold turn. cbv [bind update]. cbn [appState trace].
  rewrite openTurn_resets_stop. reflexivity.
Qed.

Lemma earlier_stop_does_not_cancel_witness :
  runTurn (streamingEnv (mkStream [Chunk (lit "Hi")] None)) (lit "hello")
    (handleStop exampleState)
  = runTurn (streamingEnv (mkStream [Chunk (lit "Hi")] None)) (lit "hello")
      exampleState.
Proof.
  eapply earlier_stop_does_not_cancel. vm_compute. reflexivity.
Defined.

(** ** A storage that refuses the conversations *)

(** X19. The four items are written under one [try]: when the storage
    refuses the conversations, nothing is written, so a change of theme or
    of the speech preference made since is not saved either. *)
Theorem saveState_all_or_nothing (accepts : jsstring -> Stored -> bool)
  (st : AppState) (ls : LocalStorage) :
  accepts (lit "aiChatConversations")
    (StoredJSON (conversationsToSave (conversations st))) = false ->
  saveState accepts (st, ls) = (st, ls).
Proof.
  intros H. unfold saveState, itemsToSave. cbn [fst snd setItems].
  rewrite H. reflexivity.
Qed.

Lemma saveState_all_or_nothing_witness :
  saveState (fun k _ => negb (str_eqb k (lit "aiChatConversations")))
    (toggleTheme exampleState, exampleStorage)
  = (toggleTheme exampleState, exampleStorage).
Proof.
  apply saveState_all_or_nothing. reflexivity.
Defined.

(** ** Conversation ids *)

(** X1. The id given to a conversation carries its creation time: the time
    is read back from the id, so two ids are equal only when the times
    are. *)
Theorem chatId_carries_creation_time (t : Z) :
  timestamp (chatId t) = Some t
  /\ forall t' : Z, chatId t' = chatId t -> t' = t.
Proof.
  split; [apply timestamp_chatId|].
  intros t' E. apply chatId_inj. exact E.
Qed.
